(** * ai_planner: calendar providers, key storage and the chat tool loop

    A shallow embedding of the backend of the calendar planner:
    - [backend/providers/OutlookCalendarProvider.js] and
      [GoogleCalendarProvider.js] (event translation, provider operations,
      token refresh),
    - [backend/utils/encryption.js] (API-key encryption),
    - [backend/db/connection.js] over [backend/db/schema.sql]
      (users and user_settings tables),
    - the [/api/chat] handler of [backend/server.js].

    Conventions.  A JavaScript value that may be [undefined] (or [null]) is an
    [option]; a string is a [string], read as a sequence of characters
    (where text is turned into bytes and back, in the key encryption, it
    is read as its bytes in UTF-8, so that ASCII text reads the same both
    ways).  Numbers that the code only uses as integers (timestamps in milliseconds,
    counts, row ids) are [Z] or [nat].  Remote services (Google Calendar,
    Microsoft Graph, MSAL, the LLM endpoint, the clock) are oracles that
    thread an abstract world state; every call is recorded in a trace,
    together with what [console.error] prints ([console.log] lines are
    left out).  The database is a value: its statements fail on the
    constraints of the schema, never on the connection. *)

From Stdlib Require Import ZArith List String Ascii Bool Lia.
From Stdlib.Strings Require Import Byte.
From Stdlib Require DecimalString.
Import ListNotations.

Set Implicit Arguments.
Set Warnings "-register-all".
Set Warnings "-notation-overridden".


(* ================================================================== *)
(** * Part I.  Definitions                                             *)
(* ================================================================== *)

(** ** JavaScript truthiness on optional strings *)

(** [!!s] for a value that is a string or undefined: only a non-empty
    string is truthy. *)
Definition truthy (s : option string) : bool :=
  match s with
  | Some s => negb (s =? "")%string
  | None => false
  end.

(** [a || d] where [d] is a string literal. *)
Definition or_lit (a : option string) (d : string) : string :=
  match a with
  | Some s => if (s =? "")%string then d else s
  | None => d
  end.

(** [a || b] where [b] may itself be undefined. *)
Definition or_else (a b : option string) : option string :=
  if truthy a then a else b.

(** ** Event shapes *)

(** The value of [start] / [end] in the canonical (Google) shape: any of
    the three keys may be missing. *)
Record EventTime := mkEventTime {
  dateTime : option string;
  date : option string;
  timeZone : option string
}.

(** What [table[key]] of an object literal can be besides undefined: a
    string of the table or, for a key that the literal does not define
    but [Object.prototype] does, the inherited member (a function, or the
    prototype itself for [__proto__]), which is no string and is truthy. *)
Inductive Member :=
| Text (s : string)
| Inherited (key : string).

Record Attendee := mkAttendee {
  email : option string;
  displayName : option string;
  responseStatus : option Member
}.

(** Canonical event, as Google returns it and as the chat tools send it. *)
Record GoogleEvent := mkGoogleEvent {
  id : option string;
  summary : option string;
  description : option string;
  start : option EventTime;
  end_ : option EventTime;
  location : option string;
  attendees : option (list Attendee);
  htmlLink : option string
}.

(** Microsoft Graph event. *)
Record OutlookBody := mkOutlookBody {
  contentType : option string;
  content : option string
}.

Record OutlookTime := mkOutlookTime {
  o_dateTime : option string;
  o_timeZone : option string
}.

Record OutlookLocation := mkOutlookLocation {
  loc_displayName : option string
}.

Record EmailAddress := mkEmailAddress {
  address : option string;
  name : option string
}.

Record OutlookStatus := mkOutlookStatus {
  response : option string
}.

Record OutlookAttendee := mkOutlookAttendee {
  emailAddress : option EmailAddress;
  type : option string;
  status : option OutlookStatus
}.

Record OutlookEvent := mkOutlookEvent {
  o_id : option string;
  subject : option string;
  body : option OutlookBody;
  o_start : option OutlookTime;
  o_end : option OutlookTime;
  o_location : option OutlookLocation;
  o_attendees : option (list OutlookAttendee);
  webLink : option string
}.

(** [x?.f] *)
Definition opt_field {A B} (x : option A) (f : A -> option B) : option B :=
  match x with
  | Some a => f a
  | None => None
  end.

(** ** Event Shape Translator (OutlookCalendarProvider.js) *)

(** The property names that every object literal inherits from
    [Object.prototype]. *)
Definition objectPrototypeKeys : list string :=
  ["constructor"; "__defineGetter__"; "__defineSetter__"; "hasOwnProperty";
   "__lookupGetter__"; "__lookupSetter__"; "isPrototypeOf";
   "propertyIsEnumerable"; "toString"; "valueOf"; "__proto__";
   "toLocaleString"]%string.

(** [table[key] || fallback] for an object literal [table] of strings: an
    own property wins, an inherited member is truthy and is returned as
    it is, and any other key, like undefined, gives the fallback. *)
Definition memberOr (table : list (string * string)) (key : option string)
    (fallback : string) : Member :=
  match key with
  | None => Text fallback
  | Some k =>
      match find (fun kv => (fst kv =? k)%string) table with
      | Some kv => Text (or_lit (Some (snd kv)) fallback)
      | None =>
          if existsb (String.eqb k) objectPrototypeKeys then Inherited k
          else Text fallback
      end
  end.

Definition statusMap : list (string * string) :=
  [("accepted", "accepted");
   ("declined", "declined");
   ("tentativelyAccepted", "tentative");
   ("notResponded", "needsAction");
   ("organizer", "accepted")]%string.

(** [_convertOutlookResponseStatus]: [statusMap[outlookStatus] || 'needsAction'] *)
Definition _convertOutlookResponseStatus (outlookStatus : option string) : Member :=
  memberOr statusMap outlookStatus "needsAction".

Definition colorMap : list (string * string) :=
  [("lightBlue", "#4A8CF7");
   ("lightGreen", "#0B8043");
   ("lightOrange", "#F6BF26");
   ("lightGray", "#A8A8A8");
   ("lightYellow", "#FFD800");
   ("lightTeal", "#039BE5");
   ("lightPink", "#E67C73");
   ("lightBrown", "#8E6C42");
   ("lightRed", "#D50000");
   ("auto", "#039BE5")]%string.

(** [_convertOutlookColor]: [colorMap[outlookColor] || '#039BE5'] *)
Definition _convertOutlookColor (outlookColor : option string) : Member :=
  memberOr colorMap outlookColor "#039BE5".

Definition outlookTimeToGoogle (t : option OutlookTime) : EventTime :=
  {| dateTime := opt_field t o_dateTime;
     date := None;
     timeZone := Some (or_lit (opt_field t o_timeZone) "UTC") |}.

Definition outlookAttendeeToGoogle (attendee : OutlookAttendee) : Attendee :=
  {| email := opt_field (emailAddress attendee) address;
     displayName := opt_field (emailAddress attendee) name;
     responseStatus :=
       Some (_convertOutlookResponseStatus (opt_field (status attendee) response)) |}.

(** [_transformOutlookEventToGoogle] *)
Definition _transformOutlookEventToGoogle (outlookEvent : OutlookEvent) : GoogleEvent :=
  {| id := o_id outlookEvent;
     summary := subject outlookEvent;
     description := Some (or_lit (opt_field (body outlookEvent) content) "");
     start := Some (outlookTimeToGoogle (o_start outlookEvent));
     end_ := Some (outlookTimeToGoogle (o_end outlookEvent));
     location :=
       Some (or_lit (opt_field (o_location outlookEvent) loc_displayName) "");
     attendees :=
       Some (map outlookAttendeeToGoogle
               (match o_attendees outlookEvent with Some l => l | None => [] end));
     htmlLink := webLink outlookEvent |}.

Definition googleTimeToOutlook (t : option EventTime) : OutlookTime :=
  {| o_dateTime := or_else (opt_field t dateTime) (opt_field t date);
     o_timeZone := Some (or_lit (opt_field t timeZone) "UTC") |}.

Definition googleAttendeeToOutlook (attendee : Attendee) : OutlookAttendee :=
  {| emailAddress :=
       Some {| address := email attendee;
               name := or_else (displayName attendee) (email attendee) |};
     type := Some "required"%string;
     status := None |}.

(** [_transformGoogleEventToOutlook]: [location] and [attendees] are only
    set when the source has a truthy location / a non-empty attendee list. *)
Definition _transformGoogleEventToOutlook (googleEvent : GoogleEvent) : OutlookEvent :=
  {| o_id := None;
     subject := summary googleEvent;
     body := Some {| contentType := Some "HTML"%string;
                     content := Some (or_lit (description googleEvent) "") |};
     o_start := Some (googleTimeToOutlook (start googleEvent));
     o_end := Some (googleTimeToOutlook (end_ googleEvent));
     o_location :=
       if truthy (location googleEvent)
       then Some {| loc_displayName := location googleEvent |}
       else None;
     o_attendees :=
       match attendees googleEvent with
       | Some (a :: l) => Some (map googleAttendeeToOutlook (a :: l))
       | _ => None
       end;
     webLink := None |}.

(** canonical -> Outlook -> canonical *)
Definition outlookRoundTrip (e : GoogleEvent) : GoogleEvent :=
  _transformOutlookEventToGoogle (_transformGoogleEventToOutlook e).

(** A timed [start]/[end]: exactly [{dateTime, timeZone}], both non-empty. *)
Definition timed (t : option EventTime) : Prop :=
  exists dt tz,
    t = Some {| dateTime := Some dt; date := None; timeZone := Some tz |}
    /\ dt <> ""%string /\ tz <> ""%string.

(** What is left of an attendee after the round trip: the email, the
    display name (the email when there was none), and a response status
    that is always 'needsAction', since the Outlook shape built on the way
    out carries no status. *)
Definition lossyAttendee (a : Attendee) : Attendee :=
  {| email := email a;
     displayName := or_else (displayName a) (email a);
     responseStatus := Some (Text "needsAction") |}.

(** The five fields the round trip is expected to keep. *)
Definition sameCoreFields (a b : GoogleEvent) : Prop :=
  summary a = summary b /\ description a = description b /\
  start a = start b /\ end_ a = end_ b /\ location a = location b.

(** An all-day event and a timed one, used below. *)
Definition allDayEvent : GoogleEvent :=
  {| id := Some "evt1"%string;
     summary := Some "Holiday"%string;
     description := Some "Day off"%string;
     start := Some {| dateTime := None; date := Some "2024-01-01"%string; timeZone := None |};
     end_ := Some {| dateTime := None; date := Some "2024-01-02"%string; timeZone := None |};
     location := Some "Home"%string;
     attendees := None;
     htmlLink := None |}.

Definition timedEvent : GoogleEvent :=
  {| id := Some "evt2"%string;
     summary := Some "Standup"%string;
     description := Some "Daily sync"%string;
     start := Some {| dateTime := Some "2024-01-01T09:00:00"%string; date := None;
                      timeZone := Some "Europe/Paris"%string |};
     end_ := Some {| dateTime := Some "2024-01-01T09:15:00"%string; date := None;
                     timeZone := Some "Europe/Paris"%string |};
     location := Some "Room 4"%string;
     attendees := Some [ {| email := Some "a@example.com"%string;
                            displayName := None;
                            responseStatus := Some (Text "accepted") |} ];
     htmlLink := None |}.

(** ** JSON payloads, errors and results *)

(** Values that the backend passes through without looking inside (event
    bodies from the LLM, calendar entries from Google) and the objects it
    serialises.  Numbers are the integers the code produces (counts). *)
Inductive JSON :=
| JNull
| JBool (b : bool)
| JNum (n : Z)
| JStr (s : string)
| JArr (items : list JSON)
| JObj (fields : list (string * JSON)).

(** A thrown [Error]; [error.message] is [error_message]. *)
Inductive JsError := Error (msg : string).

Definition error_message (e : JsError) : string :=
  match e with Error m => m end.

Inductive Result (A : Type) :=
| Ok (a : A)
| Throw (e : JsError).
Arguments Ok {A} a.
Arguments Throw {A} e.

(** [n] truthy for a number that may be undefined. *)
Definition truthy_num (n : option Z) : bool :=
  match n with
  | Some z => negb (z =? 0)%Z
  | None => false
  end.

(** A value inside a template literal. *)
Definition template (s : option string) : string :=
  match s with
  | Some s => s
  | None => "undefined"%string
  end.

(** ** Tokens, calendars and requests of the two providers *)

Record GoogleTokens := mkGoogleTokens {
  access_token : option string;
  refresh_token : option string;
  expiry_date : option Z
}.

Record OutlookTokens := mkOutlookTokens {
  o_access_token : option string;
  o_refresh_token : option string;
  expires_at : option Z
}.

(** MSAL's answer to [acquireTokenByRefreshToken]; [expiresOn] is the
    [getTime()] of the date, when there is one. *)
Record TokenResponse := mkTokenResponse {
  accessToken : option string;
  refreshToken : option string;
  expiresOn : option Z
}.

Record TokenRequest := mkTokenRequest {
  scopes : list string;
  req_refreshToken : option string
}.

(** A calendar as Microsoft Graph lists it. *)
Record OutlookCalendar := mkOutlookCalendar {
  cal_id : option string;
  cal_name : option string;
  cal_color : option string;
  canEdit : bool;
  isDefaultCalendar : option bool
}.

(** A calendar in the shape the frontend reads. *)
Record Calendar := mkCalendar {
  c_id : option string;
  c_summary : option string;
  backgroundColor : Member;
  accessRole : string;
  primary : bool
}.

Record EventsListParams := mkEventsListParams {
  l_calendarId : string;
  l_timeMin : string;
  l_timeMax : option string;
  l_maxResults : Z;
  singleEvents : bool;
  orderBy : string
}.

Record GraphEventsQuery := mkGraphEventsQuery {
  q_path : string;
  q_select : string;
  q_orderby : string;
  q_top : Z;
  q_filter : option string
}.

(** ** Messages of the chat completion protocol *)

Record ToolCall := mkToolCall {
  tc_id : string;
  fn_name : string;
  fn_arguments : string
}.

Record AssistantMessage := mkAssistantMessage {
  am_content : option string;
  tool_calls : option (list ToolCall)
}.

(** [content] of a tool message is [JSON.stringify] of a value, or
    undefined; the value stands for its text. *)
Inductive Message :=
| SystemMessage (content : string)
| ClientMessage (m : JSON)
| AssistantMsg (m : AssistantMessage)
| ToolMessage (tool_call_id : string) (content : option JSON).

(** A request to [chat.completions.create], with the API key its client
    was built with; [with_tools] tells whether [tools] and [tool_choice]
    are sent. *)
Record LLMRequest := mkLLMRequest {
  apiKey : string;
  model : string;
  messages : list Message;
  with_tools : bool
}.

(** ** Effects *)

(** What a run leaves behind: the calls made to remote services and the
    server-side console.  [ConsoleError label e] is
    [console.error(label, error)]; [ConsoleErrorText] prints a string. *)
Inductive Event :=
| ConsoleError (label : string) (e : JsError)
| ConsoleErrorText (label : string) (text : string)
| Call_calendarList_list
| Call_events_list (params : EventsListParams)
| Call_events_insert (calendarId : string) (requestBody : JSON)
| Call_events_patch (calendarId : string) (eventId : option JSON) (requestBody : JSON)
| Call_events_delete (calendarId : string) (eventId : option JSON)
| Call_refreshAccessToken
| Call_graph_get_calendars (token : option string)
| Call_graph_get_events (token : option string) (q : GraphEventsQuery)
| Call_graph_post (token : option string) (path : string) (e : OutlookEvent)
| Call_graph_patch (token : option string) (path : string) (e : OutlookEvent)
| Call_graph_delete (token : option string) (path : string)
| Call_acquireTokenByRefreshToken (req : TokenRequest)
| Call_chat_completions_create (req : LLMRequest).

(** The outcome of running a computation from a world state: its result,
    the next world state, and the events it produced, in order. *)
Record Outcome (W A : Type) := mkOutcome {
  result : Result A;
  world : W;
  events : list Event
}.
Arguments mkOutcome {W A} result world events.

Definition M (W A : Type) : Type := W -> Outcome W A.

Definition ret {W A} (a : A) : M W A :=
  fun w => mkOutcome (Ok a) w [].

Definition throw {W A} (e : JsError) : M W A :=
  fun w => mkOutcome (Throw e) w [].

Definition bind {W A B} (m : M W A) (k : A -> M W B) : M W B :=
  fun w =>
    let o := m w in
    match result o with
    | Ok a =>
        let o' := k a (world o) in
        mkOutcome (result o') (world o') (events o ++ events o')
    | Throw e => mkOutcome (Throw e) (world o) (events o)
    end.

(** [try { m } catch (error) { h error }] *)
Definition try_catch {W A} (m : M W A) (h : JsError -> M W A) : M W A :=
  fun w =>
    let o := m w in
    match result o with
    | Ok a => o
    | Throw e =>
        let o' := h e (world o) in
        mkOutcome (result o') (world o') (events o ++ events o')
    end.

Definition emit {W} (ev : Event) : M W unit :=
  fun w => mkOutcome (Ok tt) w [ev].

(** A call to a remote service: recorded, then answered by the oracle. *)
Definition call {W A} (ev : Event) (f : W -> Result A * W) : M W A :=
  fun w => let '(r, w') := f w in mkOutcome r w' [ev].

(** Reading without a record (the clock). *)
Definition peek {W A} (f : W -> A * W) : M W A :=
  fun w => let '(a, w') := f w in mkOutcome (Ok a) w' [].

Notation "x <- m ;; k" := (bind m (fun x => k))
  (at level 61, m at next level, right associativity).
Notation "m ;;; k" := (bind m (fun _ => k))
  (at level 61, right associativity).

(** ** The environment: remote services and JavaScript built-ins *)

Record Env (W : Type) := mkEnv {
  (* googleapis, calendar v3; answers are [response.data(.items)] *)
  calendarList_list : W -> Result (option (list JSON)) * W;
  events_list : EventsListParams -> W -> Result (option (list JSON)) * W;
  events_insert : string -> JSON -> W -> Result JSON * W;
  events_patch : string -> option JSON -> JSON -> W -> Result JSON * W;
  events_delete : string -> option JSON -> W -> Result unit * W;
  refreshAccessToken : W -> Result GoogleTokens * W;
  (* Microsoft Graph client, with the access token its authProvider hands out *)
  graph_get_calendars : option string -> W -> Result (option (list OutlookCalendar)) * W;
  graph_get_events :
    option string -> GraphEventsQuery -> W -> Result (option (list OutlookEvent)) * W;
  graph_post : option string -> string -> OutlookEvent -> W -> Result OutlookEvent * W;
  graph_patch : option string -> string -> OutlookEvent -> W -> Result OutlookEvent * W;
  graph_delete : option string -> string -> W -> Result unit * W;
  (* MSAL *)
  acquireTokenByRefreshToken : TokenRequest -> W -> Result TokenResponse * W;
  (* the OpenAI client: the messages of [completion.choices] *)
  chat_completions_create : LLMRequest -> W -> Result (list AssistantMessage) * W;
  (* Date.now() and new Date().toISOString() *)
  Date_now : W -> Z * W;
  Date_toISOString : W -> string * W;
  (* JSON.parse *)
  JSON_parse : string -> Result JSON;
  (* String.prototype.trim *)
  String_trim : string -> string;
  (* process.env.ENCRYPTION_KEY *)
  ENCRYPTION_KEY : option string;
  (* crypto.randomBytes *)
  randomBytes : nat -> W -> list byte * W;
  (* crypto.createCipheriv('aes-256-cbc', key, iv): the bytes of
     update(plaintext) followed by final(); it throws on a key or an IV of
     the wrong length *)
  cipher : list byte -> list byte -> list byte -> Result (list byte);
  (* crypto.createDecipheriv('aes-256-cbc', key, iv), likewise; it also
     throws on a ciphertext it cannot unpad *)
  decipher : list byte -> list byte -> list byte -> Result (list byte);
  (* the template literal of the chat system prompt, from the request's
     events and time zone and the clock; [toLocaleDateString] throws a
     RangeError on an unknown time zone *)
  systemPromptContent : option JSON -> option string -> W -> Result string * W
}.

(** ** GoogleCalendarProvider.js *)

(** The instance: [this.tokens] of the base class and the credentials held
    by its OAuth client (the same token set at construction). *)
Record GoogleCalendarProvider := mkGoogleProvider {
  g_tokens : GoogleTokens;
  credentials : GoogleTokens
}.

Module Google.
Section WithEnv.
Context {W : Type} (env : Env W).

Definition new (tokens : GoogleTokens) : GoogleCalendarProvider :=
  {| g_tokens := tokens; credentials := tokens |}.

(** [try { m } catch (error) { console.error(label, error); throw new Error(fixed) }] *)
Definition guarded {A} (label fixed : string) (m : M W A) : M W A :=
  try_catch m (fun error =>
    emit (ConsoleError label error) ;;;
    throw (Error fixed)).

Definition listCalendars : M W (list JSON) :=
  guarded "Google Calendar: Error listing calendars:"
          "Failed to fetch calendars from Google"
    (items <- call Call_calendarList_list (calendarList_list env) ;;
     ret (match items with Some l => l | None => [] end)).

(** The default [calendarId = 'primary'] of the destructured parameter. *)
Definition calendarIdOrPrimary (calendarId : option string) : string :=
  match calendarId with Some c => c | None => "primary"%string end.

(** [timeMin || new Date().toISOString()] *)
Definition timeMinOrNow (timeMin : option string) : M W string :=
  if truthy timeMin then ret (template timeMin) else peek (Date_toISOString env).

Definition eventsListParams (calendarId : option string) (tmin : string)
    (timeMax : option string) (maxResults : option Z) : EventsListParams :=
  {| l_calendarId := calendarIdOrPrimary calendarId;
     l_timeMin := tmin;
     l_timeMax := timeMax;
     l_maxResults := match maxResults with Some n => n | None => 100%Z end;
     singleEvents := true;
     orderBy := "startTime" |}.

Definition getEvents (calendarId timeMin timeMax : option string)
    (maxResults : option Z) : M W (list JSON) :=
  guarded "Google Calendar: Error fetching events:"
          "Failed to fetch events from Google Calendar"
    (tmin <- timeMinOrNow timeMin ;;
     let params := eventsListParams calendarId tmin timeMax maxResults in
     items <- call (Call_events_list params) (events_list env params) ;;
     ret (match items with Some l => l | None => [] end)).

Definition createEvent (calendarId : option string) (event : JSON) : M W JSON :=
  guarded "Google Calendar: Error creating event:"
          "Failed to create event in Google Calendar"
    (let c := calendarIdOrPrimary calendarId in
     call (Call_events_insert c event) (events_insert env c event)).

Definition updateEvent (calendarId : option string) (eventId : option JSON)
    (event : JSON) : M W JSON :=
  guarded "Google Calendar: Error updating event:"
          "Failed to update event in Google Calendar"
    (let c := calendarIdOrPrimary calendarId in
     call (Call_events_patch c eventId event) (events_patch env c eventId event)).

Definition deleteEvent (calendarId : option string) (eventId : option JSON) : M W unit :=
  guarded "Google Calendar: Error deleting event:"
          "Failed to delete event from Google Calendar"
    (let c := calendarIdOrPrimary calendarId in
     call (Call_events_delete c eventId) (events_delete env c eventId)).

Definition getProviderName : string := "google".

(** [refreshTokenIfNeeded]: returns the token set and the instance after
    the call (its OAuth client holds the new credentials after a refresh). *)
Definition refreshTokenIfNeeded (p : GoogleCalendarProvider)
  : M W (GoogleTokens * GoogleCalendarProvider) :=
  guarded "Google Calendar: Error refreshing token:"
          "Failed to refresh Google OAuth token"
    (let tokens := credentials p in
     if truthy_num (expiry_date tokens) then
       now <- peek (Date_now env) ;;
       if (match expiry_date tokens with Some e => e | None => 0 end <? now + 60000)%Z then
         creds <- call Call_refreshAccessToken (refreshAccessToken env) ;;
         ret (creds, {| g_tokens := g_tokens p; credentials := creds |})
       else ret (tokens, p)
     else ret (tokens, p)).

End WithEnv.
End Google.

(** ** OutlookCalendarProvider.js *)

(** The instance: [this.tokens] and the access token that the Graph
    client's [authProvider] hands out. *)
Record OutlookCalendarProvider := mkOutlookProvider {
  o_tokens : OutlookTokens;
  client_token : option string
}.

Module Outlook.
Section WithEnv.
Context {W : Type} (env : Env W).

Definition new (tokens : OutlookTokens) : OutlookCalendarProvider :=
  {| o_tokens := tokens; client_token := o_access_token tokens |}.

Definition guarded {A} (label fixed : string) (m : M W A) : M W A :=
  try_catch m (fun error =>
    emit (ConsoleError label error) ;;;
    throw (Error fixed)).

Definition toCalendar (calendar : OutlookCalendar) : Calendar :=
  {| c_id := cal_id calendar;
     c_summary := cal_name calendar;
     backgroundColor := _convertOutlookColor (cal_color calendar);
     accessRole := if canEdit calendar then "owner"%string else "reader"%string;
     primary := match isDefaultCalendar calendar with Some b => b | None => false end |}.

Definition listCalendars (p : OutlookCalendarProvider) : M W (list Calendar) :=
  guarded "Outlook Calendar: Error listing calendars:"
          "Failed to fetch calendars from Outlook"
    (value <- call (Call_graph_get_calendars (client_token p))
                   (graph_get_calendars env (client_token p)) ;;
     ret (map toCalendar (match value with Some l => l | None => [] end))).

(** [calendarId && calendarId !== 'primary' ? `/me/calendars/${calendarId}/events`
    : '/me/calendar/events'] *)
Definition calendarPath (calendarId : option string) : string :=
  match calendarId with
  | Some c =>
      if (c =? "")%string || (c =? "primary")%string
      then "/me/calendar/events"%string
      else ("/me/calendars/" ++ c ++ "/events")%string
  | None => "/me/calendar/events"%string
  end.

(** The [$filter] built from the time bounds that are given. *)
Definition timeFilter (timeMin timeMax : option string) : option string :=
  if truthy timeMin || truthy timeMax then
    Some (String.concat " and "
            ((if truthy timeMin
              then [("start/dateTime ge '" ++ template timeMin ++ "'")%string] else [])
             ++ (if truthy timeMax
                 then [("start/dateTime lt '" ++ template timeMax ++ "'")%string] else [])))
  else None.

Definition getEvents (p : OutlookCalendarProvider)
    (calendarId timeMin timeMax : option string) (maxResults : option Z)
  : M W (list GoogleEvent) :=
  guarded "Outlook Calendar: Error fetching events:"
          "Failed to fetch events from Outlook Calendar"
    (let q :=
       {| q_path := calendarPath calendarId;
          q_select := "id,subject,body,start,end,location,attendees,isAllDay,webLink";
          q_orderby := "start/dateTime";
          q_top := match maxResults with Some n => n | None => 100%Z end;
          q_filter := timeFilter timeMin timeMax |} in
     value <- call (Call_graph_get_events (client_token p) q)
                   (graph_get_events env (client_token p) q) ;;
     ret (map _transformOutlookEventToGoogle
            (match value with Some l => l | None => [] end))).

Definition createEvent (p : OutlookCalendarProvider)
    (calendarId : option string) (event : GoogleEvent) : M W GoogleEvent :=
  guarded "Outlook Calendar: Error creating event:"
          "Failed to create event in Outlook Calendar"
    (let outlookEvent := _transformGoogleEventToOutlook event in
     let path := calendarPath calendarId in
     response <- call (Call_graph_post (client_token p) path outlookEvent)
                      (graph_post env (client_token p) path outlookEvent) ;;
     ret (_transformOutlookEventToGoogle response)).

Definition eventPath (eventId : option string) : string :=
  ("/me/events/" ++ template eventId)%string.

Definition updateEvent (p : OutlookCalendarProvider)
    (calendarId eventId : option string) (event : GoogleEvent) : M W GoogleEvent :=
  guarded "Outlook Calendar: Error updating event:"
          "Failed to update event in Outlook Calendar"
    (let outlookEvent := _transformGoogleEventToOutlook event in
     response <- call (Call_graph_patch (client_token p) (eventPath eventId) outlookEvent)
                      (graph_patch env (client_token p) (eventPath eventId) outlookEvent) ;;
     ret (_transformOutlookEventToGoogle response)).

Definition deleteEvent (p : OutlookCalendarProvider)
    (calendarId eventId : option string) : M W unit :=
  guarded "Outlook Calendar: Error deleting event:"
          "Failed to delete event from Outlook Calendar"
    (call (Call_graph_delete (client_token p) (eventPath eventId))
          (graph_delete env (client_token p) (eventPath eventId))).

Definition getProviderName : string := "outlook".

(** [refreshTokenIfNeeded]: the instance is replaced only when the whole
    refresh went through; [response.expiresOn.getTime()] throws a TypeError
    when MSAL gave no expiry. *)
Definition refreshTokenIfNeeded (p : OutlookCalendarProvider)
  : M W (OutlookTokens * OutlookCalendarProvider) :=
  guarded "Outlook Calendar: Error refreshing token:"
          "Failed to refresh Outlook OAuth token"
    (let tokens := o_tokens p in
     if truthy_num (expires_at tokens) then
       now <- peek (Date_now env) ;;
       if (match expires_at tokens with Some e => e | None => 0 end <? now + 300000)%Z then
         let tokenRequest :=
           {| scopes := ["Calendars.ReadWrite"; "User.Read"]%string;
              req_refreshToken := o_refresh_token tokens |} in
         response <- call (Call_acquireTokenByRefreshToken tokenRequest)
                          (acquireTokenByRefreshToken env tokenRequest) ;;
         now1 <- peek (Date_now env) ;;
         match expiresOn response with
         | None =>
             throw (Error "Cannot read properties of null (reading 'getTime')")
         | Some expires =>
             now2 <- peek (Date_now env) ;;
             let tokens' :=
               {| o_access_token := accessToken response;
                  o_refresh_token :=
                    or_else (refreshToken response) (o_refresh_token tokens);
                  expires_at := Some (now1 + (expires - now2))%Z |} in
             ret (tokens', {| o_tokens := tokens';
                              client_token := o_access_token tokens' |})
         end
       else ret (tokens, p)
     else ret (tokens, p)).

End WithEnv.
End Outlook.

(** ** utils/encryption.js *)

(** [Buffer.toString('hex')]: two lower-case digits per byte. *)
Definition hexDigit (n : N) : ascii :=
  if (n <? 10)%N then ascii_of_N (48 + n) else ascii_of_N (87 + n).

Definition byteToHex (b : byte) : string :=
  let n := Byte.to_N b in
  String (hexDigit (n / 16)) (String (hexDigit (n mod 16)) EmptyString).

Fixpoint hex_encode (l : list byte) : string :=
  match l with
  | [] => EmptyString
  | b :: l => (byteToHex b ++ hex_encode l)%string
  end.

Definition hexValue (c : ascii) : option N :=
  let n := N_of_ascii c in
  if ((48 <=? n) && (n <=? 57))%N then Some (n - 48)%N
  else if ((97 <=? n) && (n <=? 102))%N then Some (n - 87)%N
  else if ((65 <=? n) && (n <=? 70))%N then Some (n - 55)%N
  else None.

(** [Buffer.from(s, 'hex')]: decoding stops at the first pair that is not
    two hexadecimal digits; a trailing single character is dropped. *)
Fixpoint hex_decode (s : string) : list byte :=
  match s with
  | String a (String b rest) =>
      match hexValue a, hexValue b with
      | Some x, Some y =>
          match Byte.of_N (16 * x + y) with
          | Some v => v :: hex_decode rest
          | None => []
          end
      | _, _ => []
      end
  | _ => []
  end.

(** *** Strings and their UTF-8 bytes

    A JavaScript string is a sequence of UTF-16 code units.  The text that
    is encrypted and the text that decryption gives back are held as the
    [string] of their bytes in UTF-8, so an ASCII text is the string of its
    characters.  A surrogate without its partner, which UTF-8 has no
    sequence for, is held as the three bytes ED A0..BF 80..BF that the
    scheme of UTF-8 would give its code. *)

Definition byteIn (lo hi : N) (b : byte) : bool :=
  ((lo <=? Byte.to_N b) && (Byte.to_N b <=? hi))%N.
Arguments byteIn : simpl never.

(** U+FFFD in UTF-8. *)
Definition replacementCharacter : list byte := [xef; xbf; xbd].

Fixpoint replaceSurrogates (l : list byte) : list byte :=
  match l with
  | [] => []
  | a :: tail =>
      match tail with
      | b :: c :: rest =>
          if byteIn 237 237 a && byteIn 160 191 b && byteIn 128 191 c
          then replacementCharacter ++ replaceSurrogates rest
          else a :: replaceSurrogates tail
      | _ => a :: replaceSurrogates tail
      end
  end.

(** The bytes that [cipher.update(plaintext, 'utf8')] reads from a
    string: its UTF-8 encoding, in which Node writes U+FFFD for every
    surrogate that has no partner. *)
Definition utf8_encode (s : string) : list byte :=
  replaceSurrogates (list_byte_of_string s).

(** The state of a UTF-8 decoder between two bytes: how many bytes the
    sequence under way still needs, the range the next one must lie in,
    and the bytes of the sequence seen so far. *)
Record Utf8State := mkUtf8State {
  needed : nat;
  lower : N;
  upper : N;
  seen : list byte
}.

Definition utf8_start : Utf8State :=
  {| needed := 0; lower := 128; upper := 191; seen := [] |}.

(** A byte that opens a sequence of two, three or four bytes. *)
Definition leadByte (b : byte) : option Utf8State :=
  if byteIn 194 223 b then
    Some {| needed := 1; lower := 128; upper := 191; seen := [b] |}
  else if byteIn 224 239 b then
    Some {| needed := 2;
            lower := if byteIn 224 224 b then 160 else 128;
            upper := if byteIn 237 237 b then 159 else 191;
            seen := [b] |}
  else if byteIn 240 244 b then
    Some {| needed := 3;
            lower := if byteIn 240 240 b then 144 else 128;
            upper := if byteIn 244 244 b then 143 else 191;
            seen := [b] |}
  else None.

(** A byte read when no sequence is under way. *)
Definition decodeFirst (b : byte) : list byte * Utf8State :=
  if byteIn 0 127 b then ([b], utf8_start)
  else
    match leadByte b with
    | Some st => ([], st)
    | None => (replacementCharacter, utf8_start)
    end.

(** One byte: what is written and the next state.  A byte that cannot
    continue the sequence under way ends it with U+FFFD and is read again
    as the first byte of the next one. *)
Definition decodeByte (st : Utf8State) (b : byte) : list byte * Utf8State :=
  match needed st with
  | O => decodeFirst b
  | S n =>
      if byteIn (lower st) (upper st) b then
        match n with
        | O => (seen st ++ [b], utf8_start)
        | S _ => ([], {| needed := n; lower := 128; upper := 191;
                         seen := seen st ++ [b] |})
        end
      else (replacementCharacter ++ fst (decodeFirst b), snd (decodeFirst b))
  end.

Fixpoint decodeFrom (st : Utf8State) (l : list byte) : list byte :=
  match l with
  | [] => match needed st with O => [] | S _ => replacementCharacter end
  | b :: rest =>
      fst (decodeByte st b) ++ decodeFrom (snd (decodeByte st b)) rest
  end.

(** The string that [decipher.update(.., 'hex', 'utf8')] followed by
    [decipher.final('utf8')] makes of the decrypted bytes: well-formed
    sequences are kept, every ill-formed part and a sequence cut short by
    the end become U+FFFD. *)
Definition utf8_decode (l : list byte) : string :=
  string_of_list_byte (decodeFrom utf8_start l).

(** Well-formed UTF-8, by the table of the Unicode standard: the first
    two bytes of a sequence of three and of four bytes. *)
Definition threeBytes (a b : byte) : bool :=
  byteIn 224 224 a && byteIn 160 191 b
  || byteIn 225 236 a && byteIn 128 191 b
  || byteIn 237 237 a && byteIn 128 159 b
  || byteIn 238 239 a && byteIn 128 191 b.

Definition fourBytes (a b : byte) : bool :=
  byteIn 240 240 a && byteIn 144 191 b
  || byteIn 241 243 a && byteIn 128 191 b
  || byteIn 244 244 a && byteIn 128 143 b.

Fixpoint wellFormedBytes (l : list byte) : bool :=
  match l with
  | [] => true
  | a :: l1 =>
      if byteIn 0 127 a then wellFormedBytes l1
      else
        match l1 with
        | [] => false
        | b :: l2 =>
            if byteIn 194 223 a && byteIn 128 191 b then wellFormedBytes l2
            else
              match l2 with
              | [] => false
              | c :: l3 =>
                  if threeBytes a b && byteIn 128 191 c then wellFormedBytes l3
                  else
                    match l3 with
                    | [] => false
                    | d :: l4 =>
                        fourBytes a b && byteIn 128 191 c && byteIn 128 191 d
                        && wellFormedBytes l4
                    end
              end
        end
  end.

(** The string holds well-formed text: its bytes are well-formed UTF-8,
    which leaves no room for a surrogate without its partner. *)
Definition wellFormed (s : string) : bool :=
  wellFormedBytes (list_byte_of_string s).

Definition asciiOnly (s : string) : bool :=
  forallb (byteIn 0 127) (list_byte_of_string s).

(** The string of the one code unit D800, a surrogate on its own. *)
Definition loneSurrogate : string := string_of_list_byte [xed; xa0; x80].

Definition KEY_LENGTH : nat := 32.
Definition IV_LENGTH : nat := 16.

Record Encrypted := mkEncrypted {
  encrypted : string;
  iv : string
}.

Section Encryption.
Context {W : Type} (env : Env W).

(** Lifting a pure step that may throw. *)
Definition lift {A} (r : Result A) : M W A :=
  fun w => mkOutcome r w [].

Definition getEncryptionKey : Result (list byte) :=
  match ENCRYPTION_KEY env with
  | None => Throw (Error "ENCRYPTION_KEY environment variable is not set")
  | Some key =>
      if (key =? "")%string
      then Throw (Error "ENCRYPTION_KEY environment variable is not set")
      else
        let keyBuffer := hex_decode key in
        if Nat.eqb (List.length keyBuffer) KEY_LENGTH then Ok keyBuffer
        else Throw (Error "ENCRYPTION_KEY must be 32 bytes (64 hex characters). Generate with: openssl rand -hex 32")
  end.

Definition encryptApiKey (plaintext : option string) : M W Encrypted :=
  if truthy plaintext then
    try_catch
      (ivBytes <- peek (randomBytes env IV_LENGTH) ;;
       key <- lift getEncryptionKey ;;
       bytes <- lift (cipher env key ivBytes (utf8_encode (template plaintext))) ;;
       ret {| encrypted := hex_encode bytes; iv := hex_encode ivBytes |})
      (fun error =>
         emit (ConsoleErrorText "Encryption error:" (error_message error)) ;;;
         throw (Error "Failed to encrypt API key"))
  else throw (Error "Cannot encrypt empty value").

Definition decryptApiKey (encryptedHex ivHex : option string) : M W string :=
  if truthy encryptedHex && truthy ivHex then
    try_catch
      (let ivBytes := hex_decode (template ivHex) in
       key <- lift getEncryptionKey ;;
       bytes <- lift (decipher env key ivBytes (hex_decode (template encryptedHex))) ;;
       ret (utf8_decode bytes))
      (fun error =>
         emit (ConsoleErrorText "Decryption error:" (error_message error)) ;;;
         throw (Error "Failed to decrypt API key"))
  else throw (Error "Cannot decrypt: missing encrypted data or IV").

Definition validateEncryptionKey : M W bool :=
  match getEncryptionKey with
  | Ok _ => ret true
  | Throw error =>
      emit (ConsoleErrorText "Encryption key validation failed:" (error_message error)) ;;;
      ret false
  end.

(** What Node's crypto promises of the AES-256-CBC pair and of
    [randomBytes]: under a 32-byte key and a 16-byte IV, encryption
    succeeds with a non-empty (padded) ciphertext that decryption under
    the same key and IV maps back. *)
Definition CryptoContract : Prop :=
  (forall n w, List.length (fst (randomBytes env n w)) = n) /\
  (forall key ivBytes p,
      List.length key = 32 -> List.length ivBytes = 16 ->
      exists c, cipher env key ivBytes p = Ok c /\ c <> [] /\
                decipher env key ivBytes c = Ok p).

End Encryption.

(** ** db/schema.sql: the two tables and their sequences *)

Record UserRow := mkUserRow {
  u_id : nat;
  google_id : option string;
  outlook_id : option string;
  provider : string;
  u_email : string;
  u_name : option string;
  u_created_at : Z;
  u_updated_at : Z
}.

Record SettingsRow := mkSettingsRow {
  s_id : nat;
  user_id : nat;
  openrouter_api_key_encrypted : option string;
  openrouter_model : option string;
  encryption_iv : option string;
  s_created_at : Z;
  s_updated_at : Z
}.

(** The sequences behind the SERIAL columns hold the last value issued;
    a rollback does not take a [nextval] back. *)
Record DB := mkDB {
  users : list UserRow;
  user_settings : list SettingsRow;
  users_id_seq : nat;
  user_settings_id_seq : nat
}.

(** The statements a client sends, in order. *)
Inductive Statement :=
| BEGIN
| COMMIT
| ROLLBACK
| SELECT_users (googleId : option string)
| UPDATE_users (email name googleId : option string)
| INSERT_users (googleId email name : option string)
| INSERT_user_settings (userId : nat)
| SELECT_user_settings (userId : nat)
| UPDATE_user_settings (key model ivHex : option string) (userId : nat)
| UPDATE_user_settings_clear (userId : nat).

(** VARCHAR(n): a longer value is rejected. *)
Definition fitsVarchar (n : nat) (v : option string) : bool :=
  match v with
  | Some s => Nat.leb (String.length s) n
  | None => true
  end.

Definition optStringEqb (a b : option string) : bool :=
  match a, b with
  | Some x, Some y => (x =? y)%string
  | None, None => true
  | _, _ => false
  end.

(** [WHERE google_id = $1]: NULL matches no row. *)
Definition hasGoogleId (googleId : option string) (u : UserRow) : bool :=
  match googleId with
  | Some g => optStringEqb (google_id u) (Some g)
  | None => false
  end.

Definition not_null_violation : JsError := Error "not_null_violation".
Definition unique_violation : JsError := Error "unique_violation".
Definition check_violation : JsError := Error "check_violation".
Definition foreign_key_violation : JsError := Error "foreign_key_violation".
Definition string_data_right_truncation : JsError := Error "string_data_right_truncation".

(** [SELECT * FROM users WHERE google_id = $1] *)
Definition selectUsers (googleId : option string) (db : DB) : list UserRow :=
  filter (hasGoogleId googleId) (users db).

(** The SET clause of the UPDATE below, on one row. *)
Definition setProfile (e : string) (name : option string) (now : Z) (u : UserRow)
  : UserRow :=
  {| u_id := u_id u; google_id := google_id u;
     outlook_id := outlook_id u; provider := provider u;
     u_email := e; u_name := name;
     u_created_at := u_created_at u; u_updated_at := now |}.

Definition withUsers (rows : list UserRow) (db : DB) : DB :=
  {| users := rows; user_settings := user_settings db;
     users_id_seq := users_id_seq db;
     user_settings_id_seq := user_settings_id_seq db |}.

Definition withSettings (rows : list SettingsRow) (db : DB) : DB :=
  {| users := users db; user_settings := rows;
     users_id_seq := users_id_seq db;
     user_settings_id_seq := user_settings_id_seq db |}.

(** [UPDATE users SET email = $1, name = $2, updated_at = CURRENT_TIMESTAMP
     WHERE google_id = $3 RETURNING *] *)
Definition updateUsers (email name googleId : option string) (now : Z) (db : DB)
  : Result (list UserRow) * DB :=
  match selectUsers googleId db with
  | [] => (Ok [], db)
  | _ :: _ =>
      if negb (fitsVarchar 255 email && fitsVarchar 255 name)
      then (Throw string_data_right_truncation, db)
      else
        match email with
        | None => (Throw not_null_violation, db)
        | Some e =>
            let users' :=
              map (fun u => if hasGoogleId googleId u then setProfile e name now u else u)
                  (users db) in
            (Ok (filter (hasGoogleId googleId) users'), withUsers users' db)
        end
  end.

(** [INSERT INTO users (google_id, email, name) VALUES ($1, $2, $3) RETURNING *]:
    [id] comes from the sequence, [provider] defaults to 'google'. *)
Definition insertUser (googleId email name : option string) (now : Z) (db : DB)
  : Result UserRow * DB :=
  let newId := S (users_id_seq db) in
  let db1 := {| users := users db; user_settings := user_settings db;
                users_id_seq := newId;
                user_settings_id_seq := user_settings_id_seq db |} in
  if negb (fitsVarchar 255 googleId && fitsVarchar 255 email && fitsVarchar 255 name)
  then (Throw string_data_right_truncation, db1)
  else
    match email with
    | None => (Throw not_null_violation, db1)
    | Some e =>
        match googleId with
        | None => (Throw check_violation, db1)
        | Some g =>
            if existsb (fun u => Nat.eqb (u_id u) newId) (users db)
               || existsb (hasGoogleId googleId) (users db)
            then (Throw unique_violation, db1)
            else
              let row := {| u_id := newId; google_id := Some g; outlook_id := None;
                            provider := "google"; u_email := e; u_name := name;
                            u_created_at := now; u_updated_at := now |} in
              (Ok row,
               {| users := users db ++ [row]; user_settings := user_settings db;
                  users_id_seq := newId;
                  user_settings_id_seq := user_settings_id_seq db |})
        end
    end.

(** [INSERT INTO user_settings (user_id) VALUES ($1)] *)
Definition insertUserSettings (userId : nat) (now : Z) (db : DB) : Result unit * DB :=
  let newId := S (user_settings_id_seq db) in
  let db1 := {| users := users db; user_settings := user_settings db;
                users_id_seq := users_id_seq db;
                user_settings_id_seq := newId |} in
  if existsb (fun s => Nat.eqb (s_id s) newId) (user_settings db)
     || existsb (fun s => Nat.eqb (user_id s) userId) (user_settings db)
  then (Throw unique_violation, db1)
  else if negb (existsb (fun u => Nat.eqb (u_id u) userId) (users db))
  then (Throw foreign_key_violation, db1)
  else
    let row := {| s_id := newId; user_id := userId;
                  openrouter_api_key_encrypted := None;
                  openrouter_model := None;
                  encryption_iv := None;
                  s_created_at := now; s_updated_at := now |} in
    (Ok tt,
     {| users := users db; user_settings := user_settings db ++ [row];
        users_id_seq := users_id_seq db;
        user_settings_id_seq := newId |}).

(** ROLLBACK: the tables as they were at BEGIN, the sequences as they are. *)
Definition rollback (atBegin current : DB) : DB :=
  {| users := users atBegin; user_settings := user_settings atBegin;
     users_id_seq := users_id_seq current;
     user_settings_id_seq := user_settings_id_seq current |}.

(** What a database function leaves: its result, the database, and the
    statements it sent. *)
Record DbOutcome (A : Type) := mkDbOutcome {
  db_result : Result A;
  db_after : DB;
  statements : list Statement
}.
Arguments mkDbOutcome {A} db_result db_after statements.

(** ** db/connection.js *)

(** [findOrCreateUser(googleId, email, name)]; [now] is the
    CURRENT_TIMESTAMP of the transaction. *)
Definition findOrCreateUser (googleId email name : option string) (now : Z) (db : DB)
  : DbOutcome (option UserRow) :=
  match selectUsers googleId db with
  | _ :: _ =>
      match updateUsers email name googleId now db with
      | (Ok rows, db1) =>
          mkDbOutcome (Ok (hd_error rows)) db1
            [BEGIN; SELECT_users googleId; UPDATE_users email name googleId; COMMIT]
      | (Throw error, db1) =>
          mkDbOutcome (Throw error) (rollback db db1)
            [BEGIN; SELECT_users googleId; UPDATE_users email name googleId; ROLLBACK]
      end
  | [] =>
      match insertUser googleId email name now db with
      | (Ok row, db1) =>
          match insertUserSettings (u_id row) now db1 with
          | (Ok _, db2) =>
              mkDbOutcome (Ok (Some row)) db2
                [BEGIN; SELECT_users googleId; INSERT_users googleId email name;
                 INSERT_user_settings (u_id row); COMMIT]
          | (Throw error, db2) =>
              mkDbOutcome (Throw error) (rollback db db2)
                [BEGIN; SELECT_users googleId; INSERT_users googleId email name;
                 INSERT_user_settings (u_id row); ROLLBACK]
          end
      | (Throw error, db1) =>
          mkDbOutcome (Throw error) (rollback db db1)
            [BEGIN; SELECT_users googleId; INSERT_users googleId email name; ROLLBACK]
      end
  end.

(** [getUserSettings(userId)]: [result.rows[0] || null] *)
Definition getUserSettings (userId : nat) (db : DB) : option SettingsRow :=
  hd_error (filter (fun s => Nat.eqb (user_id s) userId) (user_settings db)).

(** The users with a Google id and the settings rows of a user. *)
Definition countUsers (googleId : string) (db : DB) : nat :=
  List.length (selectUsers (Some googleId) db).

Definition countSettings (userId : nat) (db : DB) : nat :=
  List.length (filter (fun s => Nat.eqb (user_id s) userId) (user_settings db)).

(** The SET clauses of the two UPDATEs below, on one row. *)
Definition setKey (key modelName ivHex : option string) (now : Z) (s : SettingsRow)
  : SettingsRow :=
  {| s_id := s_id s; user_id := user_id s;
     openrouter_api_key_encrypted := key;
     openrouter_model := modelName;
     encryption_iv := ivHex;
     s_created_at := s_created_at s; s_updated_at := now |}.

Definition clearKey (now : Z) (s : SettingsRow) : SettingsRow :=
  {| s_id := s_id s; user_id := user_id s;
     openrouter_api_key_encrypted := None;
     openrouter_model := openrouter_model s;
     encryption_iv := None;
     s_created_at := s_created_at s; s_updated_at := now |}.

(** [WHERE user_id = $n] *)
Definition ofUser (userId : nat) (s : SettingsRow) : bool :=
  Nat.eqb (user_id s) userId.

(** [updateUserSettings(userId, openrouterApiKeyEncrypted, openrouterModel,
    encryptionIv)]; a JavaScript null or undefined argument is SQL NULL. *)
Definition updateUserSettings (userId : nat)
    (openrouterApiKeyEncrypted openrouterModel encryptionIv : option string)
    (now : Z) (db : DB) : DbOutcome (option SettingsRow) :=
  let stmt := UPDATE_user_settings openrouterApiKeyEncrypted openrouterModel
                encryptionIv userId in
  match filter (ofUser userId) (user_settings db) with
  | [] => mkDbOutcome (Ok None) db [stmt]
  | _ :: _ =>
      if negb (fitsVarchar 255 openrouterModel && fitsVarchar 32 encryptionIv)
      then mkDbOutcome (Throw string_data_right_truncation) db [stmt]
      else
        let rows :=
          map (fun s => if ofUser userId s
                        then setKey openrouterApiKeyEncrypted openrouterModel
                               encryptionIv now s
                        else s)
              (user_settings db) in
        mkDbOutcome (Ok (hd_error (filter (ofUser userId) rows)))
          (withSettings rows db) [stmt]
  end.

(** [deleteUserApiKey(userId)] *)
Definition deleteUserApiKey (userId : nat) (now : Z) (db : DB)
  : DbOutcome (option SettingsRow) :=
  let rows :=
    map (fun s => if ofUser userId s then clearKey now s else s)
        (user_settings db) in
  mkDbOutcome (Ok (hd_error (filter (ofUser userId) rows)))
    (withSettings rows db) [UPDATE_user_settings_clear userId].

(** The pairing of the two key columns: one is NULL exactly when the
    other is. *)
Definition keyIvPaired (s : SettingsRow) : Prop :=
  openrouter_api_key_encrypted s = None <-> encryption_iv s = None.

Definition KeyIvInvariant (db : DB) : Prop :=
  Forall keyIvPaired (user_settings db).

(** What schema.sql keeps true of a stored database, as far as the
    functions above rely on it: the sequences are at or above every issued
    id, and every settings row belongs to a user (the foreign key). *)
Record SchemaOk (db : DB) : Prop := mkSchemaOk {
  users_seq_above : Forall (fun u => u_id u <= users_id_seq db) (users db);
  settings_seq_above :
    Forall (fun s => s_id s <= user_settings_id_seq db) (user_settings db);
  settings_fk :
    Forall (fun s => exists u, In u (users db) /\ u_id u = user_id s) (user_settings db)
}.

(** ** server.js: requests and responses *)

Inductive ResponseBody :=
| ErrorBody (error : string) (message : option string)
| SuccessBody (message : string)
| ChatReply (message : AssistantMessage) (toolCallsExecuted : bool).

(** [res.status(n).json(body)]; [res.json(body)] answers 200. *)
Record Response := mkResponse {
  res_status : nat;
  res_body : ResponseBody
}.

Record Session := mkSession {
  session_tokens : option GoogleTokens;
  session_userId : option nat
}.

(** [req.body] of POST /api/chat; [messages] is an array when present. *)
Record ChatRequest := mkChatRequest {
  chat_session : Session;
  req_messages : option (list JSON);
  req_events : option JSON;
  req_timeZone : option string
}.

(** ** JavaScript object access on parsed arguments

    An object is the list of its own properties in insertion order; the
    objects that [JSON.parse] builds have no duplicate keys.  A string is
    iterated character by character. *)

Fixpoint lookup (key : string) (fields : list (string * JSON)) : option JSON :=
  match fields with
  | [] => None
  | (k, v) :: rest => if (k =? key)%string then Some v else lookup key rest
  end.

Definition without (key : string) (fields : list (string * JSON)) : list (string * JSON) :=
  filter (fun kv => negb (fst kv =? key)%string) fields.

Definition charStrings (s : string) : list JSON :=
  map (fun c => JStr (String c EmptyString)) (list_ascii_of_string s).

Definition indexKey (n : nat) : string :=
  DecimalString.NilEmpty.string_of_uint (Nat.to_uint n).

Definition indexed (l : list JSON) : list (string * JSON) :=
  combine (map indexKey (seq 0 (List.length l))) l.

(** [args.key]: reading a property of null throws; a primitive or an
    array has no such property. *)
Definition getProp (args : JSON) (key : string) : Result (option JSON) :=
  match args with
  | JNull => Throw (Error ("Cannot read properties of null (reading '" ++ key ++ "')"))
  | JObj fields => Ok (lookup key fields)
  | _ => Ok None
  end.

(** [for (const x of v)]: arrays and strings are iterable. *)
Definition iterate (what : string) (v : option JSON) : Result (list JSON) :=
  match v with
  | Some (JArr l) => Ok l
  | Some (JStr s) => Ok (charStrings s)
  | _ => Throw (Error (what ++ " is not iterable"))
  end.

(** [const { eventId, ...eventData } = update] *)
Definition splitUpdate (update : JSON) : Result (option JSON * JSON) :=
  match update with
  | JNull => Throw (Error "Cannot destructure 'update' as it is null.")
  | JObj fields => Ok (lookup "eventId" fields, JObj (without "eventId" fields))
  | JArr l => Ok (None, JObj (indexed l))
  | JStr s => Ok (None, JObj (indexed (charStrings s)))
  | _ => Ok (None, JObj [])
  end.

(** [v.length] of an iterable that was just iterated. *)
Definition lengthOf (v : option JSON) : Z :=
  match v with
  | Some (JArr l) => Z.of_nat (List.length l)
  | Some (JStr s) => Z.of_nat (String.length s)
  | _ => 0
  end.

Definition toolSuccess (key : string) (n : Z) : JSON :=
  JObj [("success"%string, JBool true); (key, JNum n)].

Definition toolFailure (error : JsError) : JSON :=
  JObj [("success"%string, JBool false); ("error"%string, JStr (error_message error))].

(** The first completion request: [[systemPrompt, ...messages]] with the
    tools. *)
Definition firstRequest (userApiKey userModel : string) (history : list Message)
  : LLMRequest :=
  {| apiKey := userApiKey; model := userModel;
     messages := history; with_tools := true |}.

(** The second one: [[systemPrompt, ...messages, ...toolMessages]], where
    [toolMessages] is the assistant message followed by the tool results. *)
Definition secondRequest (userApiKey userModel : string) (history : list Message)
    (assistantMessage : AssistantMessage) (results : list Message) : LLMRequest :=
  {| apiKey := userApiKey; model := userModel;
     messages := history ++ AssistantMsg assistantMessage :: results;
     with_tools := false |}.

Definition knownTool (functionName : string) : bool :=
  (functionName =? "create_calendar_event")%string
  || (functionName =? "update_calendar_event")%string
  || (functionName =? "delete_calendar_events")%string.

Section Server.
Context {W : Type} (env : Env W).

(** An oracle that may throw and leaves no record. *)
Definition effect {A} (f : W -> Result A * W) : M W A :=
  fun w => let '(r, w') := f w in mkOutcome r w' [].

(** ** The tool dispatch loop of POST /api/chat *)

Fixpoint insertEach (events : list JSON) : M W (list JSON) :=
  match events with
  | [] => ret []
  | event :: rest =>
      data <- call (Call_events_insert "primary" event)
                   (events_insert env "primary" event) ;;
      created <- insertEach rest ;;
      ret (data :: created)
  end.

Fixpoint patchEach (updates : list JSON) : M W (list JSON) :=
  match updates with
  | [] => ret []
  | update :: rest =>
      parts <- lift (splitUpdate update) ;;
      data <- call (Call_events_patch "primary" (fst parts) (snd parts))
                   (events_patch env "primary" (fst parts) (snd parts)) ;;
      updated <- patchEach rest ;;
      ret (data :: updated)
  end.

Fixpoint deleteEach (eventIds : list JSON) : M W unit :=
  match eventIds with
  | [] => ret tt
  | eventId :: rest =>
      call (Call_events_delete "primary" (Some eventId))
           (events_delete env "primary" (Some eventId)) ;;;
      deleteEach rest
  end.

(** The body of the [try] of one tool call: [toolResult] stays undefined
    for a name that is none of the three. *)
Definition executeTool (functionName : string) (args : JSON) : M W (option JSON) :=
  if (functionName =? "create_calendar_event")%string then
    events <- lift (getProp args "events") ;;
    items <- lift (iterate "args.events" events) ;;
    createdEvents <- insertEach items ;;
    ret (Some (toolSuccess "created" (Z.of_nat (List.length createdEvents))))
  else if (functionName =? "update_calendar_event")%string then
    updates <- lift (getProp args "updates") ;;
    items <- lift (iterate "args.updates" updates) ;;
    updatedEvents <- patchEach items ;;
    ret (Some (toolSuccess "updated" (Z.of_nat (List.length updatedEvents))))
  else if (functionName =? "delete_calendar_events")%string then
    eventIds <- lift (getProp args "eventIds") ;;
    items <- lift (iterate "args.eventIds" eventIds) ;;
    deleteEach items ;;;
    ret (Some (toolSuccess "deleted" (lengthOf eventIds)))
  else ret None.

(** One turn of [for (const toolCall of assistantMessage.tool_calls)]:
    [JSON.parse] stands before the [try]; the tool message is pushed
    after the [try ... catch], whatever happened inside. *)
Definition dispatchOne (toolCall : ToolCall) : M W Message :=
  let functionName := fn_name toolCall in
  args <- lift (JSON_parse env (fn_arguments toolCall)) ;;
  toolResult <-
    try_catch (executeTool functionName args)
      (fun error =>
         emit (ConsoleError ("Error executing " ++ functionName ++ ":") error) ;;;
         ret (Some (toolFailure error))) ;;
  ret (ToolMessage (tc_id toolCall) toolResult).

Fixpoint dispatch (toolCalls : list ToolCall) : M W (list Message) :=
  match toolCalls with
  | [] => ret []
  | toolCall :: rest =>
      m <- dispatchOne toolCall ;;
      ms <- dispatch rest ;;
      ret (m :: ms)
  end.

(** [completion.choices[0].message] *)
Definition firstChoice (choices : list AssistantMessage) : Result AssistantMessage :=
  match choices with
  | m :: _ => Ok m
  | [] => Throw (Error "Cannot read properties of undefined (reading 'message')")
  end.

Definition notConfigured : Response :=
  {| res_status := 403;
     res_body := ErrorBody "OpenRouter API key not configured"
       (Some "Please configure your OpenRouter API key in Settings before using the chat feature."%string) |}.

(** [if (assistantMessage.tool_calls && assistantMessage.tool_calls.length > 0)
    { ... } else { res.json({ message: assistantMessage }) }]: what follows
    the first completion.  [ChatReply m false] is the body without the
    [toolCallsExecuted] key. *)
Definition respond (userApiKey userModel : string) (history : list Message)
    (assistantMessage : AssistantMessage) : M W Response :=
  match tool_calls assistantMessage with
  | Some (toolCall :: rest) =>
      results <- dispatch (toolCall :: rest) ;;
      let second := secondRequest userApiKey userModel history assistantMessage results in
      choices <- call (Call_chat_completions_create second)
                      (chat_completions_create env second) ;;
      final <- lift (firstChoice choices) ;;
      ret {| res_status := 200; res_body := ChatReply final true |}
  | _ =>
      ret {| res_status := 200; res_body := ChatReply assistantMessage false |}
  end.

(** The [try] block of the handler, past [requireAuth]. *)
Definition chatTry (db : DB) (req : ChatRequest) : M W Response :=
  match session_userId (chat_session req) with
  | None | Some O =>
      ret {| res_status := 401; res_body := ErrorBody "User not found in session" None |}
  | Some userId =>
      match getUserSettings userId db with
      | None => ret notConfigured
      | Some settings =>
          if negb (truthy (openrouter_api_key_encrypted settings)) then ret notConfigured
          else
            decrypted <-
              try_catch
                (k <- decryptApiKey env (openrouter_api_key_encrypted settings)
                                        (encryption_iv settings) ;;
                 ret (inl k))
                (fun error =>
                   emit (ConsoleError "Failed to decrypt user API key:" error) ;;;
                   ret (inr {| res_status := 500;
                               res_body := ErrorBody "Failed to decrypt API key"
                                 (Some "Please re-configure your API key in Settings."%string) |})) ;;
            match decrypted with
            | inr response => ret response
            | inl userApiKey =>
                let userModel :=
                  or_lit (openrouter_model settings) "anthropic/claude-3.5-sonnet" in
                prompt <- effect (systemPromptContent env (req_events req) (req_timeZone req)) ;;
                match req_messages req with
                | None =>
                    throw (Error "Cannot read properties of undefined (reading 'length')")
                | Some msgs =>
                    let history := SystemMessage prompt :: map ClientMessage msgs in
                    let first := firstRequest userApiKey userModel history in
                    choices <- call (Call_chat_completions_create first)
                                    (chat_completions_create env first) ;;
                    assistantMessage <- lift (firstChoice choices) ;;
                    respond userApiKey userModel history assistantMessage
                end
            end
      end
  end.

(** POST /api/chat, with [requireAuth] in front and the outer [catch]. *)
Definition chat (db : DB) (req : ChatRequest) : M W Response :=
  match session_tokens (chat_session req) with
  | None => ret {| res_status := 401; res_body := ErrorBody "Not authenticated" None |}
  | Some _ =>
      try_catch (chatTry db req)
        (fun error =>
           emit (ConsoleError "Error in chat:" error) ;;;
           emit (ConsoleErrorText "Error details:" (error_message error)) ;;;
           emit (ConsoleError "Error stack:" error) ;;;
           ret {| res_status := 500;
                  res_body := ErrorBody
                    ("Failed to process chat request: " ++ error_message error) None |})
  end.

(** ** The settings routes *)

(** POST /api/user/settings *)
Definition saveSettings (db : DB) (s : Session) (apiKey modelName : option string)
    (now : Z) : M W (Response * DB) :=
  match session_tokens s with
  | None =>
      ret ({| res_status := 401; res_body := ErrorBody "Not authenticated" None |}, db)
  | Some _ =>
      try_catch
        (match session_userId s with
         | None | Some O =>
             ret ({| res_status := 401;
                     res_body := ErrorBody "User not found in session" None |}, db)
         | Some userId =>
             if negb (truthy apiKey)
                || negb (truthy (Some (String_trim env (template apiKey))))
             then ret ({| res_status := 400;
                          res_body := ErrorBody "API key is required" None |}, db)
             else if negb (truthy modelName)
                     || negb (truthy (Some (String_trim env (template modelName))))
             then ret ({| res_status := 400;
                          res_body := ErrorBody "Model name is required" None |}, db)
             else
               enc <- encryptApiKey env (Some (String_trim env (template apiKey))) ;;
               let o := updateUserSettings userId (Some (encrypted enc))
                          (Some (String_trim env (template modelName)))
                          (Some (iv enc)) now db in
               match db_result o with
               | Throw error => throw error
               | Ok _ =>
                   ret ({| res_status := 200;
                           res_body := SuccessBody "Settings saved successfully" |},
                        db_after o)
               end
         end)
        (fun error =>
           emit (ConsoleError "Error saving user settings:" error) ;;;
           ret ({| res_status := 500;
                   res_body := ErrorBody "Failed to save user settings" None |}, db))
  end.

(** DELETE /api/user/settings/api-key *)
Definition deleteApiKey (db : DB) (s : Session) (now : Z) : M W (Response * DB) :=
  match session_tokens s with
  | None =>
      ret ({| res_status := 401; res_body := ErrorBody "Not authenticated" None |}, db)
  | Some _ =>
      match session_userId s with
      | None | Some O =>
          ret ({| res_status := 401;
                  res_body := ErrorBody "User not found in session" None |}, db)
      | Some userId =>
          let o := deleteUserApiKey userId now db in
          ret ({| res_status := 200;
                  res_body := SuccessBody "API key deleted successfully" |},
               db_after o)
      end
  end.

(** ** What the statements about a chat turn speak of *)

(** The events that a [create_calendar_event] call iterates over. *)
Definition createItems (toolCall : ToolCall) : Result (list JSON) :=
  match JSON_parse env (fn_arguments toolCall) with
  | Ok args =>
      match getProp args "events" with
      | Ok events => iterate "args.events" events
      | Throw e => Throw e
      end
  | Throw e => Throw e
  end.

(** The request is authenticated, the user has a key that decrypts to
    [userApiKey], the prompt is composed, and the first completion, asked
    in world [w1], answers with [m] as its first choice and leaves world
    [w']. *)
Definition FirstTurn (db : DB) (req : ChatRequest) (w : W)
    (userApiKey userModel : string) (history : list Message)
    (m : AssistantMessage) (w' : W) : Prop :=
  exists tokens n settings prompt msgs w1 others,
    session_tokens (chat_session req) = Some tokens /\
    session_userId (chat_session req) = Some (S n) /\
    getUserSettings (S n) db = Some settings /\
    truthy (openrouter_api_key_encrypted settings) = true /\
    result (decryptApiKey env (openrouter_api_key_encrypted settings)
              (encryption_iv settings) w) = Ok userApiKey /\
    userModel = or_lit (openrouter_model settings) "anthropic/claude-3.5-sonnet" /\
    systemPromptContent env (req_events req) (req_timeZone req) w = (Ok prompt, w1) /\
    req_messages req = Some msgs /\
    history = SystemMessage prompt :: map ClientMessage msgs /\
    chat_completions_create env (firstRequest userApiKey userModel history) w1
      = (Ok (m :: others), w').

(** The user has no settings row, or a row without a key. *)
Definition noApiKey (userId : nat) (db : DB) : Prop :=
  match getUserSettings userId db with
  | None => True
  | Some settings => truthy (openrouter_api_key_encrypted settings) = false
  end.

End Server.

Definition toolCallId (m : Message) : option string :=
  match m with
  | ToolMessage i _ => Some i
  | _ => None
  end.

(** A request for new tokens, to Google or to MSAL. *)
Definition isRefreshRequest (ev : Event) : bool :=
  match ev with
  | Call_refreshAccessToken => true
  | Call_acquireTokenByRefreshToken _ => true
  | _ => false
  end.

Definition outlookProvider : OutlookCalendarProvider :=
  Outlook.new {| o_access_token := Some "eyJ.old"%string;
                 o_refresh_token := Some "0.AAA"%string;
                 expires_at := Some 1700000200000%Z |}.

(** ** What the statements about provider failures speak of *)

(** The run threw [new Error(fixed)] and its events are [calls] followed
    by the [console.error(label, e)] of the original error. *)
Definition RethrownAs {W A} (o : Outcome W A) (label fixed : string)
    (e : JsError) (calls : list Event) : Prop :=
  result o = Throw (Error fixed) /\ events o = calls ++ [ConsoleError label e].

(** The expiry [e] is stored and lies before [now + lead]. *)
Definition withinLead (lead : Z) (expiry : option Z) (now : Z) : Prop :=
  exists e, expiry = Some e /\ (e < now + lead)%Z.

(** Moreover it is not the number 0, which the guard [expiry && ...]
    reads like a missing expiry. *)
Definition dueForRefresh (lead : Z) (expiry : option Z) (now : Z) : Prop :=
  exists e, expiry = Some e /\ e <> 0%Z /\ (e < now + lead)%Z.

Section ProviderStatements.
Context {W : Type} (env : Env W).

(** Each operation of the Google provider, when the request it sends is
    answered by the error [e]. *)
Definition GoogleFailuresAreFixed (w : W) (e : JsError) : Prop :=
  (fst (calendarList_list env w) = Throw e ->
   RethrownAs (Google.listCalendars env w)
     "Google Calendar: Error listing calendars:"
     "Failed to fetch calendars from Google" e [Call_calendarList_list])
  /\
  (forall calendarId timeMin timeMax maxResults,
     let t := Google.timeMinOrNow env timeMin w in
     forall tmin, result t = Ok tmin ->
     let params := Google.eventsListParams calendarId tmin timeMax maxResults in
     fst (events_list env params (world t)) = Throw e ->
     RethrownAs (Google.getEvents env calendarId timeMin timeMax maxResults w)
       "Google Calendar: Error fetching events:"
       "Failed to fetch events from Google Calendar" e [Call_events_list params])
  /\
  (forall calendarId event,
     let c := Google.calendarIdOrPrimary calendarId in
     fst (events_insert env c event w) = Throw e ->
     RethrownAs (Google.createEvent env calendarId event w)
       "Google Calendar: Error creating event:"
       "Failed to create event in Google Calendar" e [Call_events_insert c event])
  /\
  (forall calendarId eventId event,
     let c := Google.calendarIdOrPrimary calendarId in
     fst (events_patch env c eventId event w) = Throw e ->
     RethrownAs (Google.updateEvent env calendarId eventId event w)
       "Google Calendar: Error updating event:"
       "Failed to update event in Google Calendar" e [Call_events_patch c eventId event])
  /\
  (forall calendarId eventId,
     let c := Google.calendarIdOrPrimary calendarId in
     fst (events_delete env c eventId w) = Throw e ->
     RethrownAs (Google.deleteEvent env calendarId eventId w)
       "Google Calendar: Error deleting event:"
       "Failed to delete event from Google Calendar" e [Call_events_delete c eventId])
  /\
  (forall p,
     truthy_num (expiry_date (credentials p)) = true ->
     withinLead 60000 (expiry_date (credentials p)) (fst (Date_now env w)) ->
     fst (refreshAccessToken env (snd (Date_now env w))) = Throw e ->
     RethrownAs (Google.refreshTokenIfNeeded env p w)
       "Google Calendar: Error refreshing token:"
       "Failed to refresh Google OAuth token" e [Call_refreshAccessToken]).

(** Likewise for the Outlook provider [p]. *)
Definition OutlookFailuresAreFixed (p : OutlookCalendarProvider) (w : W)
    (e : JsError) : Prop :=
  let token := client_token p in
  (fst (graph_get_calendars env token w) = Throw e ->
   RethrownAs (Outlook.listCalendars env p w)
     "Outlook Calendar: Error listing calendars:"
     "Failed to fetch calendars from Outlook" e [Call_graph_get_calendars token])
  /\
  (forall calendarId timeMin timeMax maxResults q,
     q = {| q_path := Outlook.calendarPath calendarId;
            q_select := "id,subject,body,start,end,location,attendees,isAllDay,webLink";
            q_orderby := "start/dateTime";
            q_top := match maxResults with Some n => n | None => 100%Z end;
            q_filter := Outlook.timeFilter timeMin timeMax |} ->
     fst (graph_get_events env token q w) = Throw e ->
     RethrownAs (Outlook.getEvents env p calendarId timeMin timeMax maxResults w)
       "Outlook Calendar: Error fetching events:"
       "Failed to fetch events from Outlook Calendar" e [Call_graph_get_events token q])
  /\
  (forall calendarId event,
     let path := Outlook.calendarPath calendarId in
     let outlookEvent := _transformGoogleEventToOutlook event in
     fst (graph_post env token path outlookEvent w) = Throw e ->
     RethrownAs (Outlook.createEvent env p calendarId event w)
       "Outlook Calendar: Error creating event:"
       "Failed to create event in Outlook Calendar" e
       [Call_graph_post token path outlookEvent])
  /\
  (forall calendarId eventId event,
     let path := Outlook.eventPath eventId in
     let outlookEvent := _transformGoogleEventToOutlook event in
     fst (graph_patch env token path outlookEvent w) = Throw e ->
     RethrownAs (Outlook.updateEvent env p calendarId eventId event w)
       "Outlook Calendar: Error updating event:"
       "Failed to update event in Outlook Calendar" e
       [Call_graph_patch token path outlookEvent])
  /\
  (forall calendarId eventId,
     let path := Outlook.eventPath eventId in
     fst (graph_delete env token path w) = Throw e ->
     RethrownAs (Outlook.deleteEvent env p calendarId eventId w)
       "Outlook Calendar: Error deleting event:"
       "Failed to delete event from Outlook Calendar" e
       [Call_graph_delete token path])
  /\
  (truthy_num (expires_at (o_tokens p)) = true ->
   withinLead 300000 (expires_at (o_tokens p)) (fst (Date_now env w)) ->
   let tokenRequest :=
     {| scopes := ["Calendars.ReadWrite"; "User.Read"]%string;
        req_refreshToken := o_refresh_token (o_tokens p) |} in
   fst (acquireTokenByRefreshToken env tokenRequest (snd (Date_now env w))) = Throw e ->
   RethrownAs (Outlook.refreshTokenIfNeeded env p w)
     "Outlook Calendar: Error refreshing token:"
     "Failed to refresh Outlook OAuth token" e
     [Call_acquireTokenByRefreshToken tokenRequest]).

(** In the dispatch loop of the chat handler the failure of a tool call is
    logged and reported in a tool message that carries the message of the
    original error; an insert, a patch or a delete that Google refuses,
    after those before it went through, is such a failure.  When the loop
    reaches its end, with the tool calls [pre] before the failing one and
    [post] after it, the second completion request is sent, and its
    messages are the history, the assistant message and the tool messages
    in order, that report among them; after it the trace holds nothing,
    or the three lines of the outer [catch] when that request fails. *)
Definition DispatchReportsTheOriginalMessage : Prop :=
  (forall tc args (w : W) e,
     JSON_parse env (fn_arguments tc) = Ok args ->
     result (executeTool env (fn_name tc) args w) = Throw e ->
     result (dispatchOne env tc w)
       = Ok (ToolMessage (tc_id tc)
               (Some (JObj [("success"%string, JBool false);
                            ("error"%string, JStr (error_message e))])))
     /\ In (ConsoleError ("Error executing " ++ fn_name tc ++ ":") e)
           (events (dispatchOne env tc w)))
  /\
  (forall args (w : W) e,
     (forall evs pre event rest created,
        getProp args "events" = Ok evs ->
        iterate "args.events" evs = Ok (pre ++ event :: rest) ->
        result (insertEach env pre w) = Ok created ->
        fst (events_insert env "primary" event (world (insertEach env pre w)))
          = Throw e ->
        result (executeTool env "create_calendar_event" args w) = Throw e)
     /\
     (forall ups pre update rest updated eventId eventData,
        getProp args "updates" = Ok ups ->
        iterate "args.updates" ups = Ok (pre ++ update :: rest) ->
        result (patchEach env pre w) = Ok updated ->
        splitUpdate update = Ok (eventId, eventData) ->
        fst (events_patch env "primary" eventId eventData
               (world (patchEach env pre w))) = Throw e ->
        result (executeTool env "update_calendar_event" args w) = Throw e)
     /\
     (forall ids pre eventId rest,
        getProp args "eventIds" = Ok ids ->
        iterate "args.eventIds" ids = Ok (pre ++ eventId :: rest) ->
        result (deleteEach env pre w) = Ok tt ->
        fst (events_delete env "primary" (Some eventId)
               (world (deleteEach env pre w))) = Throw e ->
        result (executeTool env "delete_calendar_events" args w) = Throw e))
  /\
  (forall db req (w : W) k userModel history m w1 pre tc post args e msPre msPost,
     FirstTurn env db req w k userModel history m w1 ->
     tool_calls m = Some (pre ++ tc :: post) ->
     result (dispatch env pre w1) = Ok msPre ->
     let w2 := world (dispatch env pre w1) in
     JSON_parse env (fn_arguments tc) = Ok args ->
     result (executeTool env (fn_name tc) args w2) = Throw e ->
     let w3 := world (executeTool env (fn_name tc) args w2) in
     result (dispatch env post w3) = Ok msPost ->
     let report :=
       ToolMessage (tc_id tc)
         (Some (JObj [("success"%string, JBool false);
                      ("error"%string, JStr (error_message e))])) in
     exists tail,
       events (chat env db req w)
       = Call_chat_completions_create
           {| apiKey := k; model := userModel; messages := history;
              with_tools := true |}
         :: events (dispatch env pre w1)
         ++ events (executeTool env (fn_name tc) args w2)
         ++ [ConsoleError ("Error executing " ++ fn_name tc ++ ":") e]
         ++ events (dispatch env post w3)
         ++ Call_chat_completions_create
              {| apiKey := k; model := userModel;
                 messages := history ++ AssistantMsg m :: msPre ++ report :: msPost;
                 with_tools := false |}
         :: tail
       /\ (tail = []
           \/ exists e', tail = [ConsoleError "Error in chat:" e';
                                 ConsoleErrorText "Error details:" (error_message e');
                                 ConsoleError "Error stack:" e'])).

End ProviderStatements.

(** ** Statements in the words of the specification *)

(** "Every provider error is ... re-thrown as a provider-scoped error with a
    fixed, non-leaking message", read on the dispatch loop: what a failed
    tool call reports depends on the tool, not on the error. *)
Definition DispatchReportsFixedMessage : Prop :=
  exists fixed : string -> JSON,
    forall (W : Type) (env : Env W) tc args (w : W) e,
      JSON_parse env (fn_arguments tc) = Ok args ->
      result (executeTool env (fn_name tc) args w) = Throw e ->
      result (dispatchOne env tc w)
        = Ok (ToolMessage (tc_id tc) (Some (fixed (fn_name tc)))).

(** "A tool name outside the three declared is silently ignored (no result
    message emitted for it)": no tool message of the loop carries the id
    of such a call. *)
Definition UnknownToolsLeaveNoMessage : Prop :=
  forall (W : Type) (env : Env W) (tcs : list ToolCall) (w : W) (ms : list Message),
    result (dispatch env tcs w) = Ok ms ->
    forall tc, In tc tcs -> knownTool (fn_name tc) = false ->
    ~ In (Some (tc_id tc)) (map toolCallId ms).

(** "No tool-call failure aborts the remaining tool calls": whatever the
    tool calls are, the loop reaches its end with a tool message for each
    of them. *)
Definition NoToolCallFailureAborts : Prop :=
  forall (W : Type) (env : Env W) (tcs : list ToolCall) (w : W),
    exists ms, result (dispatch env tcs w) = Ok ms
               /\ map toolCallId ms = map (fun tc => Some (tc_id tc)) tcs.

(** "refreshTokenIfNeeded performs a token refresh exactly when the stored
    expiry is within the provider's lead window of the current time": a
    request for new tokens is sent exactly when the stored expiry lies
    before the current time plus the lead. *)
Definition RefreshesExactlyWithinLead : Prop :=
  forall (W : Type) (env : Env W) (w : W)
         (g : GoogleCalendarProvider) (o : OutlookCalendarProvider),
    (existsb isRefreshRequest (events (Google.refreshTokenIfNeeded env g w)) = true
     <-> withinLead 60000 (expiry_date (credentials g)) (fst (Date_now env w)))
    /\ (existsb isRefreshRequest (events (Outlook.refreshTokenIfNeeded env o w)) = true
        <-> withinLead 300000 (expires_at (o_tokens o)) (fst (Date_now env w))).

(** "For every non-empty plaintext string p, when a valid 32-byte
    ENCRYPTION_KEY is configured, decryptApiKey(e, iv) returns p where
    {encrypted: e, iv} = encryptApiKey(p)", Node's crypto behaving as
    promised. *)
Definition EncryptDecryptRoundTrips : Prop :=
  forall (W : Type) (env : Env W) (w : W) (p key : string),
    CryptoContract env ->
    p <> ""%string ->
    ENCRYPTION_KEY env = Some key ->
    List.length (hex_decode key) = 32 ->
    exists enc,
      result (encryptApiKey env (Some p) w) = Ok enc
      /\ forall w', decryptApiKey env (Some (encrypted enc)) (Some (iv enc)) w'
                    = mkOutcome (Ok p) w' [].

(** "updateUserSettings always sets both columns to non-null values
    together": whatever it is given, it leaves the key and the IV of every
    row both NULL or both non-NULL. *)
Definition UpdateKeepsKeyAndIvPaired : Prop :=
  forall userId key modelName ivHex now db,
    KeyIvInvariant db ->
    KeyIvInvariant (db_after (updateUserSettings userId key modelName ivHex now db)).

(** ** A small environment to run the handlers on

    The world is the number of events inserted so far: Google answers the
    first insert with an error and accepts the later ones.  The language
    model answers a request that carries the tools with [firstReply] and
    any other with [finalReply].  The cipher puts one byte in front. *)

Definition parseFixture (s : string) : Result JSON :=
  if (s =? "create:standup")%string then
    Ok (JObj [("events", JArr [JObj [("summary", JStr "Standup")]])])%string
  else if (s =? "create:retro")%string then
    Ok (JObj [("events", JArr [JObj [("summary", JStr "Retro")];
                                JObj [("summary", JStr "Demo")]])])%string
  else if (s =? "{}")%string then Ok (JObj [])
  else Throw (Error "Unexpected end of JSON input").

Definition finalReply : AssistantMessage :=
  {| am_content := Some "One event could not be created."%string; tool_calls := None |}.

Definition zeroKey : string :=
  "0000000000000000000000000000000000000000000000000000000000000000".

Definition testEnv (failure : string) (firstReply : AssistantMessage) : Env nat :=
  {| calendarList_list := fun w => (Ok (Some []), w);
     events_list := fun _ w => (Ok (Some []), w);
     events_insert := fun _ requestBody w =>
       (match w with O => Throw (Error failure) | S _ => Ok requestBody end, S w);
     events_patch := fun _ _ requestBody w => (Ok requestBody, w);
     events_delete := fun _ _ w => (Ok tt, w);
     refreshAccessToken := fun w =>
       (Ok {| access_token := Some "ya29.new"%string;
              refresh_token := Some "1//r"%string;
              expiry_date := Some 1700003600000%Z |}, w);
     graph_get_calendars := fun _ w => (Throw (Error failure), w);
     graph_get_events := fun _ _ w => (Throw (Error failure), w);
     graph_post := fun _ _ _ w => (Throw (Error failure), w);
     graph_patch := fun _ _ _ w => (Throw (Error failure), w);
     graph_delete := fun _ _ w => (Throw (Error failure), w);
     acquireTokenByRefreshToken := fun _ w =>
       (Ok {| accessToken := Some "eyJ.new"%string;
              refreshToken := None;
              expiresOn := Some 1700003600000%Z |}, w);
     chat_completions_create := fun req w =>
       (Ok [if with_tools req then firstReply else finalReply], w);
     Date_now := fun w => (1700000000000%Z, w);
     Date_toISOString := fun w => ("2023-11-14T22:13:20.000Z"%string, w);
     JSON_parse := parseFixture;
     String_trim := fun s => s;
     ENCRYPTION_KEY := Some zeroKey;
     randomBytes := fun n w => (repeat x00 n, w);
     cipher := fun _ _ p => Ok (x01 :: p);
     decipher := fun _ _ c =>
       match c with
       | _ :: p => Ok p
       | [] => Throw (Error "bad decrypt")
       end;
     systemPromptContent := fun _ _ w => (Ok "You are a helpful AI calendar assistant."%string, w)
  |}.

Definition twoCreates : AssistantMessage :=
  {| am_content := None;
     tool_calls := Some [ {| tc_id := "call_1"; fn_name := "create_calendar_event";
                             fn_arguments := "create:standup" |};
                          {| tc_id := "call_2"; fn_name := "create_calendar_event";
                             fn_arguments := "create:retro" |} ]%string |}.

Definition unknownTool : ToolCall :=
  {| tc_id := "call_9"; fn_name := "get_weather"; fn_arguments := "{}" |}.

(** A tool call whose arguments are cut short, followed by a sound one. *)
Definition cutShortThenCreate : list ToolCall :=
  [ {| tc_id := "call_1"; fn_name := "create_calendar_event";
       fn_arguments := "{events:" |};
    {| tc_id := "call_2"; fn_name := "create_calendar_event";
       fn_arguments := "create:retro" |} ]%string.

(** A Google provider whose credentials carry the expiry 0. *)
Definition expiryZero : GoogleCalendarProvider :=
  Google.new {| access_token := Some "ya29.old"%string;
                refresh_token := Some "1//r"%string;
                expiry_date := Some 0%Z |}.

Definition plainReply : AssistantMessage :=
  {| am_content := Some "You are free on Friday."%string; tool_calls := Some [] |}.

Definition someTokens : GoogleTokens :=
  {| access_token := Some "ya29.old"%string;
     refresh_token := Some "1//r"%string;
     expiry_date := Some 1700000030000%Z |}.

(** One user with a stored key (the hex of the bytes 01 41), one without. *)
Definition testDb : DB :=
  {| users :=
       [ {| u_id := 1; google_id := Some "g-1"%string; outlook_id := None;
            provider := "google"; u_email := "a@example.com";
            u_name := Some "Ann"%string; u_created_at := 10; u_updated_at := 10 |};
         {| u_id := 2; google_id := Some "g-2"%string; outlook_id := None;
            provider := "google"; u_email := "b@example.com";
            u_name := None; u_created_at := 20; u_updated_at := 20 |} ];
     user_settings :=
       [ {| s_id := 1; user_id := 1;
            openrouter_api_key_encrypted := Some "0141"%string;
            openrouter_model := None;
            encryption_iv := Some "00000000000000000000000000000000"%string;
            s_created_at := 10; s_updated_at := 11 |};
         {| s_id := 2; user_id := 2;
            openrouter_api_key_encrypted := None;
            openrouter_model := None;
            encryption_iv := None;
            s_created_at := 20; s_updated_at := 20 |} ];
     users_id_seq := 2;
     user_settings_id_seq := 2 |}.

(** The database after the same new user has signed in twice. *)
Definition signedInTwice : DB :=
  db_after
    (findOrCreateUser (Some "g-3") (Some "c@example.com") (Some "Cy") 31
       (db_after
          (findOrCreateUser (Some "g-3") (Some "c@example.com") (Some "Cy") 30
             testDb)))%string.

Definition chatRequest (userId : nat) : ChatRequest :=
  {| chat_session := {| session_tokens := Some someTokens;
                        session_userId := Some userId |};
     req_messages := Some [JObj [("role", JStr "user");
                                 ("content", JStr "Plan my week")]]%string;
     req_events := Some (JArr []);
     req_timeZone := Some "Europe/Paris"%string |}.

(** ** utils/encryption.js and db/schema.sql: shapes and constraints *)

(** A digit as [Buffer.toString('hex')] writes it. *)
Definition isLowerHex (c : ascii) : bool :=
  let n := N_of_ascii c in
  ((48 <=? n) && (n <=? 57) || (97 <=? n) && (n <=? 102))%N.

Fixpoint allChars (f : ascii -> bool) (s : string) : bool :=
  match s with
  | EmptyString => true
  | String c rest => f c && allChars f rest
  end.

(** The PRIMARY KEY and UNIQUE constraints of schema.sql. *)
Record UniqueKeys (db : DB) : Prop := mkUniqueKeys {
  users_pkey : NoDup (map u_id (users db));
  users_google_id_key : forall g, countUsers g db <= 1;
  user_settings_pkey : NoDup (map s_id (user_settings db));
  user_settings_user_id_key : NoDup (map user_id (user_settings db))
}.

(** The last statement a function sent. *)
Definition lastStatement (l : list Statement) : option Statement :=
  hd_error (rev l).

(** ** server.js: start-up *)

(** The first lines of the server: it goes on to listen, or prints two
    lines and leaves with [process.exit(1)].  A [console.error] of one
    string is a [ConsoleErrorText] with nothing after the label. *)
Inductive Startup :=
| Listening
| Exit (code : nat).

Section Startup.
Context {W : Type} (env : Env W).

Definition startup : M W Startup :=
  valid <- validateEncryptionKey env ;;
  if valid then ret Listening
  else
    emit (ConsoleErrorText
            "ERROR: Invalid or missing ENCRYPTION_KEY in environment variables" "") ;;;
    emit (ConsoleErrorText "Generate a key with: openssl rand -hex 32" "") ;;;
    ret (Exit 1).

End Startup.

(** ** server.js: what a chat turn may leave in its trace *)

Definition isCompletion (ev : Event) : bool :=
  match ev with
  | Call_chat_completions_create _ => true
  | _ => false
  end.

Definition isConsole (ev : Event) : bool :=
  match ev with
  | ConsoleError _ _ | ConsoleErrorText _ _ => true
  | _ => false
  end.

(** An insert, a patch or a delete on the calendar 'primary'. *)
Definition isPrimaryWrite (ev : Event) : bool :=
  match ev with
  | Call_events_insert c _ | Call_events_patch c _ _ | Call_events_delete c _ =>
      (c =? "primary")%string
  | _ => false
  end.

Definition completions (evs : list Event) : nat :=
  List.length (filter isCompletion evs).

(** The three lines of the outer [catch] of POST /api/chat. *)
Definition chatErrorLog (error : JsError) : list Event :=
  [ConsoleError "Error in chat:" error;
   ConsoleErrorText "Error details:" (error_message error);
   ConsoleError "Error stack:" error].

(** The requests of [insertEach], had they all been sent. *)
Definition insertCalls (items : list JSON) : list Event :=
  map (Call_events_insert "primary") items.

(** ** server.js: GET /api/user/settings *)

(** [s.slice(-n)]: the last [n] characters, all of [s] when it is shorter. *)
Definition sliceLast (n : nat) (s : string) : string :=
  substring (String.length s - n) n s.

(** The three answers of the route: an error, [{hasApiKey: false, model:
    null}] for a user without a settings row, and the masked status. *)
Inductive SettingsReply :=
| SettingsError (status : nat) (error : string)
| NoSettings
| SettingsInfo (hasApiKey : bool) (modelName : option string)
               (apiKeyPreview : option string).

(** The lookup cannot fail in this model of the database, so the [catch]
    of the route has nothing to catch. *)
Definition getSettings (db : DB) (s : Session) : SettingsReply :=
  match session_tokens s with
  | None => SettingsError 401 "Not authenticated"
  | Some _ =>
      match session_userId s with
      | None | Some O => SettingsError 401 "User not found in session"
      | Some userId =>
          match getUserSettings userId db with
          | None => NoSettings
          | Some settings =>
              SettingsInfo
                (truthy (openrouter_api_key_encrypted settings))
                (or_else (openrouter_model settings) None)
                (if truthy (openrouter_api_key_encrypted settings)
                 then Some ("sk-..."
                            ++ sliceLast 4 (template (openrouter_api_key_encrypted settings)))%string
                 else None)
          end
      end
  end.

(** ** server.js: the calendar routes *)

Inductive CalendarReply :=
| CalendarError (status : nat) (error : string)
| CalendarsBody (calendars : option (list JSON))
| EventsBody (events : option (list JSON))
| EventBody (event : JSON)
| DeletedBody.

Section CalendarRoutes.
Context {W : Type} (env : Env W).

(** [parseInt] of a query parameter; [None] is NaN. *)
Variable parseInt : option string -> option Z.

(** [requireAuth], then [try { m } catch (error) { console.error(label,
    error); res.status(500).json({ error: fixed }) }]. *)
Definition calendarRoute (s : Session) (label fixed : string)
    (m : M W CalendarReply) : M W CalendarReply :=
  match session_tokens s with
  | None => ret (CalendarError 401 "Not authenticated")
  | Some _ =>
      try_catch m (fun error =>
        emit (ConsoleError label error) ;;;
        ret (CalendarError 500 fixed))
  end.

(** GET /api/calendar/list *)
Definition calendarList (s : Session) : M W CalendarReply :=
  calendarRoute s "Error fetching calendars:" "Failed to fetch calendars"
    (items <- call Call_calendarList_list (calendarList_list env) ;;
     ret (CalendarsBody items)).

(** The parameters of [events.list] built from the query string. *)
Definition eventsQuery (calendarId : option string) (tmin : string)
    (timeMax maxResults : option string) : EventsListParams :=
  {| l_calendarId := or_lit calendarId "primary";
     l_timeMin := tmin;
     l_timeMax := timeMax;
     l_maxResults := if truthy_num (parseInt maxResults)
                     then match parseInt maxResults with Some n => n | None => 100%Z end
                     else 100%Z;
     singleEvents := true;
     orderBy := "startTime" |}.

(** GET /api/calendar/events *)
Definition calendarEvents (s : Session)
    (timeMin timeMax maxResults calendarId : option string) : M W CalendarReply :=
  calendarRoute s "Error fetching events:" "Failed to fetch events"
    (tmin <- Google.timeMinOrNow env timeMin ;;
     let params := eventsQuery calendarId tmin timeMax maxResults in
     items <- call (Call_events_list params) (events_list env params) ;;
     ret (EventsBody items)).

(** POST /api/calendar/events *)
Definition calendarCreate (s : Session) (eventData : JSON) : M W CalendarReply :=
  calendarRoute s "Error creating event:" "Failed to create event"
    (data <- call (Call_events_insert "primary" eventData)
                  (events_insert env "primary" eventData) ;;
     ret (EventBody data)).

(** PATCH /api/calendar/events/:eventId *)
Definition calendarUpdate (s : Session) (eventId : string) (eventData : JSON)
  : M W CalendarReply :=
  calendarRoute s "Error updating event:" "Failed to update event"
    (data <- call (Call_events_patch "primary" (Some (JStr eventId)) eventData)
                  (events_patch env "primary" (Some (JStr eventId)) eventData) ;;
     ret (EventBody data)).

(** DELETE /api/calendar/events/:eventId *)
Definition calendarDelete (s : Session) (eventId : string) : M W CalendarReply :=
  calendarRoute s "Error deleting event:" "Failed to delete event"
    (call (Call_events_delete "primary" (Some (JStr eventId)))
          (events_delete env "primary" (Some (JStr eventId))) ;;;
     ret DeletedBody).

End CalendarRoutes.

(** ** server.js: signing in *)

(** The tokens of [oauth2Client.getToken]: the fields the later routes
    read, and the ID token. *)
Record OAuthTokens := mkOAuthTokens {
  oauth : GoogleTokens;
  id_token : option string
}.

(** [ticket.getPayload()] *)
Record IdTokenPayload := mkIdTokenPayload {
  sub : option string;
  payload_email : option string;
  payload_name : option string;
  given_name : option string
}.

(** [userInfo.data] of the userinfo endpoint. *)
Record UserInfo := mkUserInfo {
  ui_id : option string;
  ui_email : option string;
  ui_name : option string
}.

(** google-auth-library and the userinfo endpoint; these calls leave no
    record in the trace. *)
Record GoogleAuth (W : Type) := mkGoogleAuth {
  oauth2_getToken : option string -> W -> Result (option OAuthTokens) * W;
  oauth2_verifyIdToken : option string -> W -> Result (option IdTokenPayload) * W;
  userinfo_get : W -> Result (option UserInfo) * W
}.

(** [req.session] during sign-in. *)
Record AuthSession := mkAuthSession {
  oauthState : option string;
  login : Session
}.

Inductive AuthReply :=
| AuthError (status : nat) (error : string)
| Redirect (url : string).

(** [googleId], [email] and [name] of the callback. *)
Record Identity := mkIdentity {
  i_googleId : option string;
  i_email : option string;
  i_name : option string
}.

Definition noIdentity : Identity :=
  {| i_googleId := None; i_email := None; i_name := None |}.

Definition identified (i : Identity) : bool :=
  truthy (i_googleId i) && truthy (i_email i).

Section SignIn.
Context {W : Type} (env : Env W) (auth : GoogleAuth W).

(** [process.env.FRONTEND_URL] *)
Variable FRONTEND_URL : option string.

(** GET /api/auth/google: the state that goes into the session and into
    the URL. *)
Definition authGoogle (s : AuthSession) : M W (string * AuthSession) :=
  bytes <- peek (randomBytes env 16) ;;
  let state := hex_encode bytes in
  ret (state, {| oauthState := Some state; login := login s |}).

(** [if (tokens.id_token) { try { ... } catch (verifyErr) { console.warn } }] *)
Definition identityFromIdToken (tokens : OAuthTokens) : M W Identity :=
  if truthy (id_token tokens) then
    try_catch
      (payload <- effect (oauth2_verifyIdToken auth (id_token tokens)) ;;
       ret (match payload with
            | Some p =>
                {| i_googleId := sub p;
                   i_email := payload_email p;
                   i_name :=
                     Some (or_lit (or_else (payload_name p) (given_name p)) "") |}
            | None =>
                {| i_googleId := None; i_email := None;
                   i_name := Some ""%string |}
            end))
      (fun verifyErr => ret noIdentity)
  else ret noIdentity.

(** [if (!googleId || !email) { ... userinfo.get() ... }] *)
Definition identityFromUserinfo (i : Identity) : M W Identity :=
  if identified i then ret i
  else
    data <- effect (userinfo_get auth) ;;
    ret (match data with
         | Some d => {| i_googleId := ui_id d; i_email := ui_email d;
                        i_name := ui_name d |}
         | None => noIdentity
         end).

(** The [catch] of the callback. *)
Definition authFailed {A} (error : JsError) (a : A) : M W (AuthReply * A) :=
  emit (ConsoleError "Error during OAuth callback:" error) ;;;
  ret (AuthError 500 "Authentication failed", a).

(** GET /api/auth/callback.  A rejection of [findOrCreateUser] lands in
    the same [catch] as the others; the database is then as the rollback
    left it. *)
Definition callback (db : DB) (s : AuthSession) (code state : option string)
    (now : Z) : M W (AuthReply * (AuthSession * DB)) :=
  if truthy (oauthState s) && negb (optStringEqb state (oauthState s)) then
    emit (ConsoleErrorText "OAuth callback state mismatch" "") ;;;
    ret (AuthError 400 "Invalid state parameter", (s, db))
  else
    let cleared := {| oauthState := None; login := login s |} in
    try_catch
      (tokens <- effect (oauth2_getToken auth code) ;;
       match tokens with
       | None =>
           emit (ConsoleErrorText "OAuth callback: getToken returned no tokens" "") ;;;
           ret (AuthError 500 "Authentication failed", (cleared, db))
       | Some tokens =>
           fromToken <- identityFromIdToken tokens ;;
           identity <- identityFromUserinfo fromToken ;;
           if negb (identified identity) then
             emit (ConsoleErrorText "Failed to retrieve user identity from Google" "") ;;;
             ret (AuthError 500 "Authentication failed", (cleared, db))
           else
             let o := findOrCreateUser (i_googleId identity) (i_email identity)
                        (i_name identity) now db in
             match db_result o with
             | Ok (Some user) =>
                 ret (Redirect (or_lit FRONTEND_URL "http://localhost:5173"),
                      ({| oauthState := None;
                          login := {| session_tokens := Some (oauth tokens);
                                      session_userId := Some (u_id user) |} |},
                       db_after o))
             | Ok None =>
                 authFailed
                   (Error "Cannot read properties of undefined (reading 'email')")
                   (cleared, db_after o)
             | Throw error => authFailed error (cleared, db_after o)
             end
       end)
      (fun error => authFailed error (cleared, db)).

(** GET /api/auth/status *)
Definition authStatus (s : Session) : bool :=
  match session_tokens s with
  | Some _ => true
  | None => false
  end.

(** POST /api/auth/logout: the session is destroyed. *)
Definition logout (s : Session) : Session :=
  {| session_tokens := None; session_userId := None |}.

End SignIn.

(** ** GoogleCalendarProvider.js: the user profile *)

Record Profile := mkProfile {
  profile_id : option string;
  profile_email : option string;
  profile_name : option string
}.

Module GoogleUser.
Section WithAuth.
Context {W : Type} (auth : GoogleAuth W).

(** [response.data.id] throws when the answer carries no data. *)
Definition getUserProfile : M W Profile :=
  Google.guarded "Google Calendar: Error fetching user profile:"
                 "Failed to fetch user profile from Google"
    (data <- effect (userinfo_get auth) ;;
     match data with
     | Some d => ret {| profile_id := ui_id d; profile_email := ui_email d;
                        profile_name := ui_name d |}
     | None => throw (Error "Cannot read properties of undefined (reading 'id')")
     end).

(** [verifyIdToken(idToken, clientId)]: null on any failure. *)
Definition verifyIdToken (idToken : option string) : M W (option Profile) :=
  try_catch
    (payload <- effect (oauth2_verifyIdToken auth idToken) ;;
     match payload with
     | Some p =>
         ret (Some {| profile_id := sub p; profile_email := payload_email p;
                      profile_name :=
                        Some (or_lit (or_else (payload_name p) (given_name p)) "") |})
     | None => throw (Error "Cannot read properties of undefined (reading 'sub')")
     end)
    (fun error =>
       emit (ConsoleError "Google Calendar: Error verifying ID token:" error) ;;;
       ret None).

End WithAuth.
End GoogleUser.

(** ** ProviderFactory.js *)

(** The token object handed to the factory, with the fields that either
    class reads from it. *)
Record Tokens := mkTokens {
  tk_access_token : option string;
  tk_refresh_token : option string;
  tk_expiry_date : option Z;
  tk_expires_at : option Z
}.

Definition googleTokens (t : Tokens) : GoogleTokens :=
  {| access_token := tk_access_token t;
     refresh_token := tk_refresh_token t;
     expiry_date := tk_expiry_date t |}.

Definition outlookTokens (t : Tokens) : OutlookTokens :=
  {| o_access_token := tk_access_token t;
     o_refresh_token := tk_refresh_token t;
     expires_at := tk_expires_at t |}.

Inductive Provider :=
| GoogleProvider (p : GoogleCalendarProvider)
| OutlookProvider (p : OutlookCalendarProvider).

(** [provider.getProviderName()] *)
Definition providerName (p : Provider) : string :=
  match p with
  | GoogleProvider _ => Google.getProviderName
  | OutlookProvider _ => Outlook.getProviderName
  end.

Module ProviderFactory.
Section WithLowerCase.

(** [String.prototype.toLowerCase] *)
Variable toLowerCase : string -> string.

Definition createProvider (providerType : option string) (tokens : Tokens)
  : Result Provider :=
  match providerType with
  | None => Throw (Error "Cannot read properties of undefined (reading 'toLowerCase')")
  | Some t =>
      if (toLowerCase t =? "google")%string then
        Ok (GoogleProvider (Google.new (googleTokens tokens)))
      else if (toLowerCase t =? "outlook")%string then
        Ok (OutlookProvider (Outlook.new (outlookTokens tokens)))
      else Throw (Error ("Unsupported calendar provider: " ++ t))
  end.

Definition getSupportedProviders : list string := ["google"; "outlook"]%string.

Definition isProviderSupported (providerType : option string) : Result bool :=
  match providerType with
  | None => Throw (Error "Cannot read properties of undefined (reading 'toLowerCase')")
  | Some t => Ok (existsb (String.eqb (toLowerCase t)) getSupportedProviders)
  end.

End WithLowerCase.
End ProviderFactory.

(** ** Fixtures for the routes above *)

(** Google answers the code "4/abc" with tokens that carry an ID token,
    and verifies that token as the user g-1. *)
Definition testAuth : GoogleAuth nat :=
  {| oauth2_getToken := fun code w =>
       (if optStringEqb code (Some "4/abc"%string)
        then Ok (Some {| oauth := someTokens; id_token := Some "eyJ.id"%string |})
        else Throw (Error "invalid_grant"), w);
     oauth2_verifyIdToken := fun _ w =>
       (Ok (Some {| sub := Some "g-1"%string;
                    payload_email := Some "ann@example.com"%string;
                    payload_name := None;
                    given_name := Some "Ann"%string |}), w);
     userinfo_get := fun w => (Throw (Error "insufficient scope"), w) |}.

Definition signedOut : AuthSession :=
  {| oauthState := Some "5f2a"%string;
     login := {| session_tokens := None; session_userId := None |} |}.

Definition asciiLower (s : string) : string :=
  string_of_list_ascii
    (map (fun c =>
            let n := N_of_ascii c in
            if ((65 <=? n) && (n <=? 90))%N then ascii_of_N (n + 32) else c)
         (list_ascii_of_string s)).

(** ** db/connection.js: the rows that findOrCreateUser writes *)

(** The row that the INSERT into users adds. *)
Definition newUser (g e : string) (name : option string) (now : Z) (db : DB) : UserRow :=
  {| u_id := S (users_id_seq db); google_id := Some g; outlook_id := None;
     provider := "google"; u_email := e; u_name := name;
     u_created_at := now; u_updated_at := now |}.

(** The row that the INSERT into user_settings adds for that user. *)
Definition newSettings (now : Z) (db : DB) : SettingsRow :=
  {| s_id := S (user_settings_id_seq db); user_id := S (users_id_seq db);
     openrouter_api_key_encrypted := None; openrouter_model := None;
     encryption_iv := None; s_created_at := now; s_updated_at := now |}.

(** The users table after the UPDATE of email and name. *)
Definition updatedUsers (googleId : option string) (e : string) (name : option string)
    (now : Z) (db : DB) : list UserRow :=
  map (fun u => if hasGoogleId googleId u then setProfile e name now u else u)
      (users db).

(** The second database has the users, the sequences and the keys of the
    settings rows of the first. *)
Definition SameKeys (db db' : DB) : Prop :=
  users db' = users db
  /\ users_id_seq db' = users_id_seq db
  /\ user_settings_id_seq db' = user_settings_id_seq db
  /\ map s_id (user_settings db') = map s_id (user_settings db)
  /\ map user_id (user_settings db') = map user_id (user_settings db).

(** ** server.js: what a handler may do *)

(** Every event that [m] leaves, from any world, passes [P]. *)
Definition leaves {W A} (P : Event -> bool) (m : M W A) : Prop :=
  forall w, forallb P (events (m w)) = true.

(** [m] asks the language model at most [n] times. *)
Definition asksAtMost {W A} (n : nat) (m : M W A) : Prop :=
  forall w, completions (events (m w)) <= n.

(** Whatever [m] returns satisfies [P]. *)
Definition returns {W A} (P : A -> Prop) (m : M W A) : Prop :=
  forall w a, result (m w) = Ok a -> P a.

(** What the tool loop may leave in the trace, and what the whole of
    POST /api/chat may. *)
Definition loopEvent (ev : Event) : bool :=
  isConsole ev || isPrimaryWrite ev.

Definition chatEvent (ev : Event) : bool :=
  isCompletion ev || loopEvent ev.

(** The first event that is not a console line, if there is one, is a
    completion request. *)
Fixpoint modelFirst (evs : list Event) : bool :=
  match evs with
  | [] => true
  | ev :: rest => if isConsole ev then modelFirst rest else isCompletion ev
  end.

(** The answers of POST /api/chat: 200 with a message, or 401, 403 or 500
    with an error. *)
Definition chatAnswer (r : Response) : Prop :=
  match res_body r with
  | ChatReply _ _ => res_status r = 200
  | ErrorBody _ _ => res_status r = 401 \/ res_status r = 403 \/ res_status r = 500
  | SuccessBody _ => False
  end.

Definition decryptFailed : Response :=
  {| res_status := 500;
     res_body := ErrorBody "Failed to decrypt API key"
                   (Some "Please re-configure your API key in Settings."%string) |}.

(** The answer of the outer [catch] of POST /api/chat. *)
Definition chatFailed (error : JsError) : Response :=
  {| res_status := 500;
     res_body := ErrorBody ("Failed to process chat request: " ++ error_message error)
                   None |}.

Section ChatStatements.
Context {W : Type} (env : Env W).

(** The request is authenticated, the user has a settings row with a
    key. *)
Definition HasKey (db : DB) (req : ChatRequest) (settings : SettingsRow) : Prop :=
  exists tokens n,
    session_tokens (chat_session req) = Some tokens /\
    session_userId (chat_session req) = Some (S n) /\
    getUserSettings (S n) db = Some settings /\
    truthy (openrouter_api_key_encrypted settings) = true.

(** Moreover the key decrypts to [userApiKey] and the prompt is composed,
    which leaves world [w1]: the first completion is about to be asked. *)
Definition ReadyToAsk (db : DB) (req : ChatRequest) (w : W)
    (userApiKey userModel : string) (history : list Message) (w1 : W) : Prop :=
  exists settings prompt msgs,
    HasKey db req settings /\
    result (decryptApiKey env (openrouter_api_key_encrypted settings)
              (encryption_iv settings) w) = Ok userApiKey /\
    userModel = or_lit (openrouter_model settings) "anthropic/claude-3.5-sonnet" /\
    systemPromptContent env (req_events req) (req_timeZone req) w = (Ok prompt, w1) /\
    req_messages req = Some msgs /\
    history = SystemMessage prompt :: map ClientMessage msgs.

End ChatStatements.

(** A first reply whose second tool call carries arguments that do not
    parse. *)
Definition brokenSecondCall : AssistantMessage :=
  {| am_content := None;
     tool_calls := Some [ {| tc_id := "call_1"; fn_name := "create_calendar_event";
                             fn_arguments := "create:standup" |};
                          {| tc_id := "call_2"; fn_name := "create_calendar_event";
                             fn_arguments := "{events:" |} ]%string |}.

(** [env] with another calendar insert and another language model. *)
Definition withServices {W : Type}
    (insert : string -> JSON -> W -> Result JSON * W)
    (completions_create : LLMRequest -> W -> Result (list AssistantMessage) * W)
    (env : Env W) : Env W :=
  {| calendarList_list := calendarList_list env;
     events_list := events_list env;
     events_insert := insert;
     events_patch := events_patch env;
     events_delete := events_delete env;
     refreshAccessToken := refreshAccessToken env;
     graph_get_calendars := graph_get_calendars env;
     graph_get_events := graph_get_events env;
     graph_post := graph_post env;
     graph_patch := graph_patch env;
     graph_delete := graph_delete env;
     acquireTokenByRefreshToken := acquireTokenByRefreshToken env;
     chat_completions_create := completions_create;
     Date_now := Date_now env;
     Date_toISOString := Date_toISOString env;
     JSON_parse := JSON_parse env;
     String_trim := String_trim env;
     ENCRYPTION_KEY := ENCRYPTION_KEY env;
     randomBytes := randomBytes env;
     cipher := cipher env;
     decipher := decipher env;
     systemPromptContent := systemPromptContent env |}.

(** The language model refuses every request. *)
Definition llmDown : Env nat :=
  withServices (events_insert (testEnv "quota exceeded" plainReply))
    (fun _ w => (Throw (Error "429 Too Many Requests"), w))
    (testEnv "quota exceeded" plainReply).

(** Google accepts the first insert and refuses the second. *)
Definition quotaAfterOne : Env nat :=
  withServices
    (fun _ requestBody w =>
       (match w with
        | 1 => Throw (Error "quota exceeded")
        | _ => Ok requestBody
        end, S w))
    (chat_completions_create (testEnv "quota exceeded" plainReply))
    (testEnv "quota exceeded" plainReply).

(** User 2 of [testDb] with a key stored without its IV. *)
Definition keyWithoutIv : DB :=
  db_after (updateUserSettings 2 (Some "0141"%string) None None 40 testDb).

(** ** server.js: what the callback answers *)

(** Past the state check: the answer is the redirect or the fixed 500,
    the stored state is cleared, and a failure leaves the login and both
    tables as they were. *)
Definition callbackAnswer (FRONTEND_URL : option string) (db : DB) (s : AuthSession)
    (x : AuthReply * (AuthSession * DB)) : Prop :=
  let '(reply, (s', db')) := x in
  (reply = AuthError 500 "Authentication failed"
   \/ reply = Redirect (or_lit FRONTEND_URL "http://localhost:5173"))
  /\ oauthState s' = None
  /\ (forall status error, reply = AuthError status error ->
      login s' = login s
      /\ users db' = users db /\ user_settings db' = user_settings db).

(** Whom the callback has logged in when it redirects. *)
Definition loggedIn (now : Z) (x : AuthReply * (AuthSession * DB)) : Prop :=
  let '(reply, (s', db')) := x in
  forall url, reply = Redirect url ->
  exists tokens u g,
    session_tokens (login s') = Some tokens
    /\ session_userId (login s') = Some (u_id u)
    /\ In u (users db')
    /\ google_id u = Some g /\ g <> ""%string /\ u_email u <> ""%string
    /\ u_updated_at u = now.

(** The answer to a wrong state, or one of the above. *)
Definition callbackOutcome (FRONTEND_URL : option string) (db : DB) (s : AuthSession)
    (now : Z) (x : AuthReply * (AuthSession * DB)) : Prop :=
  (fst x = AuthError 400 "Invalid state parameter" /\ snd x = (s, db))
  \/ (callbackAnswer FRONTEND_URL db s x /\ loggedIn now x).

(* ================================================================== *)
(** * Part II.  Theorems                                               *)
(* ================================================================== *)

Lemma or_lit_nonempty s d : s <> ""%string -> or_lit (Some s) d = s.
Proof.
  intros H. unfold or_lit. destruct (String.eqb_spec s ""); congruence.
Qed.

Lemma or_lit_idem a : or_lit (Some (or_lit a "")) "" = or_lit a "".
Proof.
  destruct a as [s|]; cbn; [|reflexivity].
  destruct (String.eqb_spec s ""); cbn.
  - reflexivity.
  - destruct (String.eqb_spec s ""); congruence.
Qed.

Lemma timed_roundtrip t :
  timed t -> Some (outlookTimeToGoogle (Some (googleTimeToOutlook t))) = t.
Proof.
  intros (dt & tz & -> & Hdt & Htz).
  unfold outlookTimeToGoogle, googleTimeToOutlook, or_else, opt_field, truthy.
  cbn [o_dateTime o_timeZone dateTime date timeZone].
  rewrite !(or_lit_nonempty _ Htz).
  now destruct (String.eqb_spec dt "").
Qed.

(** The summary always survives the round trip. *)
Lemma roundtrip_summary e : summary (outlookRoundTrip e) = summary e.
Proof. reflexivity. Qed.

Lemma roundtrip_description e :
  description (outlookRoundTrip e) = Some (or_lit (description e) "").
Proof.
  change (description (outlookRoundTrip e))
    with (Some (or_lit (Some (or_lit (description e) "")) "")).
  now rewrite or_lit_idem.
Qed.

Lemma roundtrip_location e :
  location (outlookRoundTrip e) = Some (or_lit (location e) "").
Proof.
  cbn. destruct (location e) as [l|]; cbn; [|reflexivity].
  destruct (String.eqb_spec l ""); cbn; [reflexivity|].
  now destruct (String.eqb_spec l "").
Qed.

Lemma roundtrip_attendees e :
  attendees (outlookRoundTrip e)
  = Some (map lossyAttendee (match attendees e with Some l => l | None => [] end)).
Proof.
  unfold outlookRoundTrip, _transformOutlookEventToGoogle, _transformGoogleEventToOutlook.
  cbn [attendees o_attendees].
  destruct (attendees e) as [[|a l]|]; [reflexivity| |reflexivity].
  now rewrite map_map.
Qed.

(** C1 (as amended): for a canonical event whose description and location
    are present strings and whose start and end are timed values with a
    non-empty dateTime and timeZone, the canonical -> Outlook -> canonical
    round trip returns the same summary, description, start, end and
    location.  Of each attendee the email and the display name come back
    (the email standing in for a missing name), the response status comes
    back as 'needsAction'. *)
Theorem outlook_roundtrip_timed (e : GoogleEvent) d l :
  description e = Some d ->
  location e = Some l ->
  timed (start e) ->
  timed (end_ e) ->
  sameCoreFields (outlookRoundTrip e) e
  /\ attendees (outlookRoundTrip e)
     = Some (map lossyAttendee (match attendees e with Some a => a | None => [] end)).
Proof.
  intros Hd Hl Hs He. split; [|apply roundtrip_attendees].
  unfold sameCoreFields.
  rewrite roundtrip_summary, roundtrip_description, roundtrip_location.
  rewrite Hd, Hl. repeat split.
  - cbn. now destruct (String.eqb_spec d ""); subst.
  - apply (timed_roundtrip Hs).
  - apply (timed_roundtrip He).
  - cbn. now destruct (String.eqb_spec l ""); subst.
Qed.

Lemma outlook_roundtrip_timed_witness :
  sameCoreFields (outlookRoundTrip timedEvent) timedEvent
  /\ attendees (outlookRoundTrip timedEvent)
     = Some [ {| email := Some "a@example.com"%string;
                 displayName := Some "a@example.com"%string;
                 responseStatus := Some (Text "needsAction") |} ].
Proof.
  apply (@outlook_roundtrip_timed timedEvent "Daily sync" "Room 4");
    try reflexivity.
  - exists "2024-01-01T09:00:00"%string, "Europe/Paris"%string.
    repeat split; discriminate.
  - exists "2024-01-01T09:15:00"%string, "Europe/Paris"%string.
    repeat split; discriminate.
Defined.

(** C1 as stated fails on an all-day event: [{date}] comes back as
    [{dateTime, timeZone: 'UTC'}]. *)
Lemma outlook_roundtrip_allday_changes_start :
  ~ (forall e, sameCoreFields (outlookRoundTrip e) e).
Proof.
  intros H. destruct (H allDayEvent) as (_ & _ & Hs & _).
  discriminate Hs.
Qed.

(** The two tables on a key of theirs, on an unknown key, on no key, and
    on a key that every object inherits: only the last gives no string. *)
Remark tables_on_inherited_keys :
  _convertOutlookResponseStatus (Some "organizer"%string) = Text "accepted"
  /\ _convertOutlookResponseStatus (Some "maybe"%string) = Text "needsAction"
  /\ _convertOutlookResponseStatus None = Text "needsAction"
  /\ _convertOutlookResponseStatus (Some "toString"%string) = Inherited "toString"
  /\ _convertOutlookColor (Some "lightRed"%string) = Text "#D50000"
  /\ _convertOutlookColor (Some "constructor"%string) = Inherited "constructor".
Proof. repeat split. Qed.

(** ** Running computations *)

Section MonadFacts.
Context {W : Type}.

Lemma bind_ok {A B} (m : M W A) (k : A -> M W B) w a :
  result (m w) = Ok a ->
  bind m k w =
  mkOutcome (result (k a (world (m w)))) (world (k a (world (m w))))
            (events (m w) ++ events (k a (world (m w)))).
Proof. intros H. unfold bind. now rewrite H. Qed.

Lemma bind_throw {A B} (m : M W A) (k : A -> M W B) w e :
  result (m w) = Throw e ->
  bind m k w = mkOutcome (Throw e) (world (m w)) (events (m w)).
Proof. intros H. unfold bind. now rewrite H. Qed.

Lemma try_catch_ok {A} (m : M W A) h w a :
  result (m w) = Ok a -> try_catch m h w = m w.
Proof. intros H. unfold try_catch. now rewrite H. Qed.

Lemma try_catch_throw {A} (m : M W A) h w e :
  result (m w) = Throw e ->
  try_catch m h w =
  mkOutcome (result (h e (world (m w)))) (world (h e (world (m w))))
            (events (m w) ++ events (h e (world (m w)))).
Proof. intros H. unfold try_catch. now rewrite H. Qed.

Lemma outcome_eta {A} (o : Outcome W A) :
  o = mkOutcome (result o) (world o) (events o).
Proof. now destruct o. Qed.

Lemma bind_lift_ok {A B} (a : A) (k : A -> M W B) w :
  bind (lift (Ok a)) k w = k a w.
Proof. unfold bind, lift. cbn. now destruct (k a w). Qed.

Lemma bind_lift_throw {A B} e (k : A -> M W B) w :
  bind (lift (Throw e)) k w = mkOutcome (Throw e) w [].
Proof. reflexivity. Qed.

Lemma bind_ret {A B} (a : A) (k : A -> M W B) w :
  bind (ret a) k w = k a w.
Proof. unfold bind, ret. cbn. now destruct (k a w). Qed.

Lemma call_run {A} ev (f : W -> Result A * W) w :
  call ev f w = mkOutcome (fst (f w)) (snd (f w)) [ev].
Proof. unfold call. now destruct (f w). Qed.

Lemma peek_run {A} (f : W -> A * W) w :
  peek f w = mkOutcome (Ok (fst (f w))) (snd (f w)) [].
Proof. unfold peek. now destruct (f w). Qed.

Lemma bind_peek {A B} (f : W -> A * W) (k : A -> M W B) w :
  bind (peek f) k w = k (fst (f w)) (snd (f w)).
Proof. unfold bind. rewrite peek_run. cbn. now destruct (k _ _). Qed.

Lemma bind_call_throw {A B} ev (f : W -> Result A * W) (k : A -> M W B) w e :
  fst (f w) = Throw e ->
  bind (call ev f) k w = mkOutcome (Throw e) (snd (f w)) [ev].
Proof. intros H. unfold bind. rewrite call_run. cbn. now rewrite H. Qed.

Lemma bind_call_ok {A B} ev (f : W -> Result A * W) (k : A -> M W B) w a :
  fst (f w) = Ok a ->
  bind (call ev f) k w =
  mkOutcome (result (k a (snd (f w)))) (world (k a (snd (f w))))
            (ev :: events (k a (snd (f w)))).
Proof. intros H. unfold bind. rewrite call_run. cbn. now rewrite H. Qed.

End MonadFacts.

(** ** The chat handler *)

Section ChatFacts.
Context {W : Type} (env : Env W).

(** A successful decryption touches nothing. *)
Lemma decryptApiKey_ok a b (w : W) k :
  result (decryptApiKey env a b w) = Ok k ->
  decryptApiKey env a b w = mkOutcome (Ok k) w [].
Proof.
  unfold decryptApiKey.
  destruct (truthy a && truthy b); [|discriminate].
  unfold try_catch, bind, lift, ret, throw, emit; cbn.
  destruct (getEncryptionKey env); cbn; [|discriminate].
  destruct (decipher env _ _ _); cbn; [|discriminate].
  now intros [= ->].
Qed.

(** Up to the first completion, a turn only asks the language model. *)
Lemma chatTry_first_turn db req (w : W) k userModel history m w' :
  FirstTurn env db req w k userModel history m w' ->
  chatTry env db req w =
  let o := respond env k userModel history m w' in
  mkOutcome (result o) (world o)
    (Call_chat_completions_create (firstRequest k userModel history) :: events o).
Proof.
  intros (tokens & n & settings & prompt & msgs & w1 & others &
          Htok & Huser & Hset & Hkey & Hdec & -> & Hprompt & Hmsgs & -> & Hllm).
  unfold chatTry. rewrite Huser, Hset, Hkey. cbn [negb].
  apply decryptApiKey_ok in Hdec.
  unfold bind, try_catch, effect, call, lift, ret. cbv beta.
  rewrite Hdec. cbn [result world events app].
  rewrite Hprompt. cbn [result world events app]. rewrite Hmsgs.
  rewrite Hllm. cbn [result world events app firstChoice].
  reflexivity.
Qed.

Lemma chat_first_turn db req (w : W) k userModel history m w' r :
  FirstTurn env db req w k userModel history m w' ->
  result (respond env k userModel history m w') = Ok r ->
  chat env db req w =
  let o := respond env k userModel history m w' in
  mkOutcome (Ok r) (world o)
    (Call_chat_completions_create (firstRequest k userModel history) :: events o).
Proof.
  intros Hft Hr. pose proof (chatTry_first_turn Hft) as Htry.
  destruct Hft as (tokens & _ & _ & _ & _ & _ & _ & Htok & _).
  unfold chat. rewrite Htok.
  rewrite (@try_catch_ok _ _ _ _ _ r); rewrite Htry; cbn; now rewrite ?Hr.
Qed.

(** What escapes the [try] block is answered with status 500 and the
    message of the error. *)
Lemma chat_outer_catch db req (w : W) tokens e :
  session_tokens (chat_session req) = Some tokens ->
  result (chatTry env db req w) = Throw e ->
  result (chat env db req w) =
  Ok {| res_status := 500;
        res_body := ErrorBody ("Failed to process chat request: " ++ error_message e)
                      None |}.
Proof.
  intros Htok Hthrow. unfold chat. rewrite Htok.
  now rewrite (try_catch_throw _ _ _ Hthrow).
Qed.

(** [JSON.parse] stands before the [try] of the loop: arguments that do
    not parse end the loop, and the request with it. *)
Lemma chat_unparsable_arguments db req (w : W) k userModel history m w' tc rest e :
  FirstTurn env db req w k userModel history m w' ->
  tool_calls m = Some (tc :: rest) ->
  JSON_parse env (fn_arguments tc) = Throw e ->
  result (chat env db req w) =
  Ok {| res_status := 500;
        res_body := ErrorBody ("Failed to process chat request: " ++ error_message e)
                      None |}.
Proof.
  intros Hft Hcalls Hparse.
  pose proof (chatTry_first_turn Hft) as Htry.
  destruct Hft as (tokens & _ & _ & _ & _ & _ & _ & Htok & _).
  apply (chat_outer_catch _ _ _ Htok). rewrite Htry. cbn [result].
  unfold respond. rewrite Hcalls. cbn [dispatch]. unfold dispatchOne.
  rewrite Hparse. reflexivity.
Qed.

(** C7: an authenticated user with no settings row, or with a row that
    holds no encrypted key, gets the 403 answer, and the turn makes no call
    at all: no completion request, no calendar request. *)
Theorem chat_without_key_is_forbidden db req (w : W) tokens n :
  session_tokens (chat_session req) = Some tokens ->
  session_userId (chat_session req) = Some (S n) ->
  noApiKey (S n) db ->
  chat env db req w =
  mkOutcome
    (Ok {| res_status := 403;
           res_body := ErrorBody "OpenRouter API key not configured"
             (Some "Please configure your OpenRouter API key in Settings before using the chat feature."%string) |})
    w [].
Proof.
  intros Htok Huser Hkey. unfold chat, chatTry, noApiKey in *.
  rewrite Htok, Huser.
  destruct (getUserSettings (S n) db) as [settings|].
  - rewrite Hkey. reflexivity.
  - reflexivity.
Qed.

(** C5: when the first completion carries no tool calls, or an empty
    list of them, the handler answers 200 with that very message; the
    completion request is the only call of the turn. *)
Theorem chat_without_tool_calls_is_verbatim db req (w : W) k userModel history m w' :
  FirstTurn env db req w k userModel history m w' ->
  tool_calls m = None \/ tool_calls m = Some [] ->
  chat env db req w =
  mkOutcome (Ok {| res_status := 200; res_body := ChatReply m false |}) w'
    [Call_chat_completions_create (firstRequest k userModel history)].
Proof.
  intros Hft Hnone.
  assert (Hr : respond env k userModel history m w' =
               mkOutcome (Ok {| res_status := 200; res_body := ChatReply m false |}) w' []).
  { unfold respond. now destruct Hnone as [-> | ->]. }
  rewrite (@chat_first_turn _ _ _ _ _ _ _ _ {| res_status := 200; res_body := ChatReply m false |} Hft).
  - now rewrite Hr.
  - now rewrite Hr.
Qed.

(** *** The dispatch loop *)

Lemma insertEach_length items : forall (w : W) created,
  result (insertEach env items w) = Ok created ->
  List.length created = List.length items.
Proof.
  induction items as [|event rest IH]; intros w created.
  - cbn. now intros [= <-].
  - cbn [insertEach].
    set (c := call (Call_events_insert "primary" event)
                   (events_insert env "primary" event)).
    destruct (result (c w)) as [data|e] eqn:Hc.
    + rewrite (bind_ok _ _ _ Hc). cbn [result].
      destruct (result (insertEach env rest (world (c w)))) as [l|e] eqn:Hrest.
      * rewrite (bind_ok _ _ _ Hrest). cbn [result ret].
        intros [= <-]. cbn. f_equal. eapply IH, Hrest.
      * now rewrite (bind_throw _ _ _ Hrest).
    + now rewrite (bind_throw _ _ _ Hc).
Qed.

(** Once its arguments are parsed, a tool call always ends in a tool
    message with its id: whatever is thrown inside is caught. *)
Lemma dispatchOne_total tc args (w : W) :
  JSON_parse env (fn_arguments tc) = Ok args ->
  exists c, result (dispatchOne env tc w) = Ok (ToolMessage (tc_id tc) c).
Proof.
  intros Hparse. unfold dispatchOne, bind, lift, try_catch, emit, ret. cbv beta.
  rewrite Hparse. cbn [result world events].
  destruct (result (executeTool env (fn_name tc) args w)) eqn:He;
    cbn [result world events]; rewrite ?He; cbn [result world events]; eauto.
Qed.

Lemma dispatch_total tcs : forall (w : W),
  Forall (fun tc => exists args, JSON_parse env (fn_arguments tc) = Ok args) tcs ->
  exists ms, result (dispatch env tcs w) = Ok ms /\
             map toolCallId ms = map (fun tc => Some (tc_id tc)) tcs.
Proof.
  induction tcs as [|tc rest IH]; intros w Hall.
  - exists []. split; reflexivity.
  - inversion Hall as [|? ? [args Hparse] Hrest]; subst.
    destruct (dispatchOne_total tc w Hparse) as [c Hc].
    destruct (IH (world (dispatchOne env tc w)) Hrest) as (ms & Hms & Hids).
    exists (ToolMessage (tc_id tc) c :: ms). split.
    + cbn [dispatch]. rewrite (bind_ok _ _ _ Hc). cbn [result].
      rewrite (bind_ok _ _ _ Hms). reflexivity.
    + cbn. now rewrite Hids.
Qed.

Lemma executeTool_create tc args items (w : W) :
  fn_name tc = "create_calendar_event"%string ->
  JSON_parse env (fn_arguments tc) = Ok args ->
  createItems env tc = Ok items ->
  executeTool env (fn_name tc) args w =
  (createdEvents <- insertEach env items ;;
   ret (Some (toolSuccess "created" (Z.of_nat (List.length createdEvents))))) w.
Proof.
  intros Hname Hparse Hitems. unfold createItems in Hitems. rewrite Hparse in Hitems.
  unfold executeTool. rewrite Hname. cbn [String.eqb Ascii.eqb Bool.eqb].
  destruct (getProp args "events") as [evs|]; [|discriminate].
  rewrite bind_lift_ok, Hitems, bind_lift_ok. reflexivity.
Qed.

(** A [create_calendar_event] call whose inserts all succeed. *)
Lemma dispatchOne_create_ok tc items created (w : W) :
  fn_name tc = "create_calendar_event"%string ->
  createItems env tc = Ok items ->
  result (insertEach env items w) = Ok created ->
  dispatchOne env tc w =
  mkOutcome
    (Ok (ToolMessage (tc_id tc)
           (Some (toolSuccess "created" (Z.of_nat (List.length items))))))
    (world (insertEach env items w))
    (events (insertEach env items w)).
Proof.
  intros Hname Hitems Hok.
  assert (exists args, JSON_parse env (fn_arguments tc) = Ok args) as [args Hparse].
  { unfold createItems in Hitems. destruct (JSON_parse env _); [eauto|discriminate]. }
  assert (Hrun : result (executeTool env (fn_name tc) args w)
                 = Ok (Some (toolSuccess "created" (Z.of_nat (List.length items))))).
  { rewrite (executeTool_create _ w Hname Hparse Hitems), (bind_ok _ _ _ Hok).
    cbn [result ret]. now rewrite (insertEach_length _ _ Hok). }
  unfold dispatchOne. rewrite Hparse, bind_lift_ok.
  erewrite bind_ok by (erewrite try_catch_ok; exact Hrun).
  erewrite try_catch_ok by exact Hrun.
  rewrite (executeTool_create _ w Hname Hparse Hitems), (bind_ok _ _ _ Hok).
  cbn [result world events ret]. now rewrite !app_nil_r.
Qed.

(** A [create_calendar_event] call one of whose inserts throws. *)
Lemma dispatchOne_create_throw tc items e (w : W) :
  fn_name tc = "create_calendar_event"%string ->
  createItems env tc = Ok items ->
  result (insertEach env items w) = Throw e ->
  dispatchOne env tc w =
  mkOutcome
    (Ok (ToolMessage (tc_id tc) (Some (toolFailure e))))
    (world (insertEach env items w))
    (events (insertEach env items w)
       ++ [ConsoleError "Error executing create_calendar_event:" e]).
Proof.
  intros Hname Hitems Hthrow.
  assert (exists args, JSON_parse env (fn_arguments tc) = Ok args) as [args Hparse].
  { unfold createItems in Hitems. destruct (JSON_parse env _); [eauto|discriminate]. }
  assert (Hrun : executeTool env (fn_name tc) args w
                 = mkOutcome (Throw e) (world (insertEach env items w))
                     (events (insertEach env items w))).
  { now rewrite (executeTool_create _ w Hname Hparse Hitems), (bind_throw _ _ _ Hthrow). }
  unfold dispatchOne. rewrite Hparse, bind_lift_ok.
  unfold bind at 1. erewrite try_catch_throw by (rewrite Hrun; reflexivity).
  rewrite Hrun, Hname. cbn [result world events].
  unfold bind, emit, ret. cbn [result world events app].
  now rewrite !app_nil_r.
Qed.

Lemma executeTool_unknown functionName args (w : W) :
  knownTool functionName = false ->
  executeTool env functionName args w = mkOutcome (Ok None) w [].
Proof.
  unfold knownTool, executeTool. intros H.
  destruct (functionName =? "create_calendar_event")%string; [discriminate|].
  destruct (functionName =? "update_calendar_event")%string; [discriminate|].
  destruct (functionName =? "delete_calendar_events")%string; [discriminate|].
  reflexivity.
Qed.

(** [JSON.parse] stands before the [try]: a tool call whose arguments do
    not parse ends the loop there, whatever its name. *)
Lemma dispatchOne_unparsable tc (w : W) e :
  JSON_parse env (fn_arguments tc) = Throw e ->
  dispatchOne env tc w = mkOutcome (Throw e) w [].
Proof. intros Hparse. unfold dispatchOne. now rewrite Hparse. Qed.

(** C4 (as amended): a tool call whose name is none of the three makes no
    provider request and leaves nothing on the console.  When its
    arguments parse, the loop still pushes a tool message with its
    [tool_call_id], whose content is left undefined; the remaining tool
    calls are then processed from the same world, and their messages
    follow that one.  When they do not parse, [JSON.parse] throws before
    the name is looked at: no message is pushed, the remaining tool calls
    are not processed, and the loop ends with that error. *)
Theorem unknown_tool_call_outcome tc rest (w : W) :
  knownTool (fn_name tc) = false ->
  dispatchOne env tc w =
  match JSON_parse env (fn_arguments tc) with
  | Ok _ => mkOutcome (Ok (ToolMessage (tc_id tc) None)) w []
  | Throw e => mkOutcome (Throw e) w []
  end
  /\ dispatch env (tc :: rest) w =
     match JSON_parse env (fn_arguments tc) with
     | Ok _ =>
         let o := dispatch env rest w in
         mkOutcome
           (match result o with
            | Ok ms => Ok (ToolMessage (tc_id tc) None :: ms)
            | Throw e => Throw e
            end)
           (world o) (events o)
     | Throw e => mkOutcome (Throw e) w []
     end.
Proof.
  intros Hname.
  destruct (JSON_parse env (fn_arguments tc)) as [args|e] eqn:Hparse.
  - assert (H1 : dispatchOne env tc w
                 = mkOutcome (Ok (ToolMessage (tc_id tc) None)) w []).
    { unfold dispatchOne. rewrite Hparse, bind_lift_ok.
      unfold bind, try_catch. rewrite (executeTool_unknown _ args w Hname).
      reflexivity. }
    split; [exact H1|].
    cbn [dispatch]. unfold bind at 1. rewrite H1. cbn [result world events app].
    unfold bind, ret.
    destruct (result (dispatch env rest w)); cbn [result world events];
      now rewrite ?app_nil_r.
  - pose proof (dispatchOne_unparsable tc w Hparse) as H1.
    split; [exact H1|].
    cbn [dispatch]. unfold bind at 1. now rewrite H1.
Qed.

(** One turn of the loop, and the loop over two lists in a row. *)
Lemma dispatch_cons tc rest (w : W) :
  dispatch env (tc :: rest) w =
  let o1 := dispatchOne env tc w in
  match result o1 with
  | Ok m =>
      let o := dispatch env rest (world o1) in
      mkOutcome
        (match result o with
         | Ok ms => Ok (m :: ms)
         | Throw e => Throw e
         end)
        (world o) (events o1 ++ events o)
  | Throw e => mkOutcome (Throw e) (world o1) (events o1)
  end.
Proof.
  cbn [dispatch]. unfold bind at 1. cbv zeta.
  destruct (result (dispatchOne env tc w)) as [m|e]; [|reflexivity].
  unfold bind, ret.
  destruct (result (dispatch env rest _)); cbn [result world events];
    now rewrite ?app_nil_r.
Qed.

Lemma dispatch_app pre : forall post (w : W) msPre,
  result (dispatch env pre w) = Ok msPre ->
  dispatch env (pre ++ post) w =
  let o := dispatch env post (world (dispatch env pre w)) in
  mkOutcome
    (match result o with
     | Ok ms => Ok (msPre ++ ms)
     | Throw e => Throw e
     end)
    (world o) (events (dispatch env pre w) ++ events o).
Proof.
  induction pre as [|tc pre IH]; intros post w msPre Hpre.
  - cbn in Hpre. injection Hpre as <-. cbn [app dispatch ret world events].
    cbv zeta. destruct (dispatch env post w) as [[ms|e] w' evs]; reflexivity.
  - cbn [app].
    pose proof (dispatch_cons tc pre w) as Hc. cbv zeta in Hc.
    destruct (result (dispatchOne env tc w)) as [m|e] eqn:H1;
      [|rewrite Hc in Hpre; discriminate].
    destruct (result (dispatch env pre (world (dispatchOne env tc w))))
      as [ms|e] eqn:Hms; [|rewrite Hc in Hpre; discriminate].
    rewrite Hc in Hpre. injection Hpre as <-.
    rewrite dispatch_cons. cbv zeta. rewrite H1, (IH post _ ms Hms), Hc.
    cbn [result world events app]. rewrite <- app_assoc.
    now destruct (result (dispatch env post _)).
Qed.

(** The loop stops at arguments that do not parse: what was done for the
    tool calls before stays done, nothing is done for those after. *)
Lemma dispatch_stops_at_unparsable pre tc post (w : W) e :
  Forall (fun tc => exists args, JSON_parse env (fn_arguments tc) = Ok args) pre ->
  JSON_parse env (fn_arguments tc) = Throw e ->
  dispatch env (pre ++ tc :: post) w
  = mkOutcome (Throw e) (world (dispatch env pre w)) (events (dispatch env pre w)).
Proof.
  intros Hpre Hparse.
  destruct (dispatch_total w Hpre) as (ms & Hms & _).
  rewrite (dispatch_app pre (tc :: post) w Hms). cbv zeta.
  rewrite dispatch_cons, (dispatchOne_unparsable tc _ Hparse).
  cbn [result world events]. now rewrite app_nil_r.
Qed.

(** What follows the loop: the second completion request, and the answer
    made of its first choice. *)
Lemma respond_after_dispatch k userModel history m tcs (w : W) results :
  tool_calls m = Some tcs -> tcs <> [] ->
  result (dispatch env tcs w) = Ok results ->
  let second :=
    {| apiKey := k; model := userModel;
       messages := history ++ AssistantMsg m :: results;
       with_tools := false |} in
  let w' := world (dispatch env tcs w) in
  respond env k userModel history m w =
  mkOutcome
    (match fst (chat_completions_create env second w') with
     | Ok choices =>
         match firstChoice choices with
         | Ok final => Ok {| res_status := 200; res_body := ChatReply final true |}
         | Throw e => Throw e
         end
     | Throw e => Throw e
     end)
    (snd (chat_completions_create env second w'))
    (events (dispatch env tcs w) ++ [Call_chat_completions_create second]).
Proof.
  intros Hcalls Hne Hd second w'. unfold respond. rewrite Hcalls.
  destruct tcs as [|tc rest]; [congruence|].
  rewrite (bind_ok _ _ _ Hd). cbn [result world events].
  fold w'. change (secondRequest k userModel history m results) with second.
  unfold bind. rewrite call_run. cbn [result world events].
  destruct (fst (chat_completions_create env second w')) as [choices|e];
    [|reflexivity].
  unfold lift, ret. cbn [result world events].
  destruct (firstChoice choices); cbn [result world events]; reflexivity.
Qed.

(** The trace of the handler is that of its [try] block, followed by the
    three lines of the outer [catch] when the block throws. *)
Lemma chat_events db req (w : W) tokens :
  session_tokens (chat_session req) = Some tokens ->
  exists tail,
    events (chat env db req w) = events (chatTry env db req w) ++ tail
    /\ (tail = []
        \/ exists e', tail = [ConsoleError "Error in chat:" e';
                              ConsoleErrorText "Error details:" (error_message e');
                              ConsoleError "Error stack:" e']).
Proof.
  intros Htok. unfold chat. rewrite Htok.
  destruct (result (chatTry env db req w)) as [r|e'] eqn:Hr.
  - exists []. rewrite (try_catch_ok _ _ _ Hr), app_nil_r. split; [reflexivity|now left].
  - eexists. rewrite (try_catch_throw _ _ _ Hr). cbn [events].
    split; [reflexivity|]. right. exists e'. reflexivity.
Qed.

(** C3 (as amended): two [create_calendar_event] calls whose arguments
    parse, an insert of the first throws [e], the inserts of the second
    succeed.  The loop turns the failure into the tool result
    [{success: false, error: e.message}], goes on to run the second call,
    and the messages of the second completion request are the history,
    the assistant message, that failure and [{success: true, created: n}]
    for the second call; the handler answers 200 with the final message.
    More generally, no tool call whose arguments parse stops the loop,
    whatever is thrown while it runs: every tool call gets its tool
    message, in order.  Arguments that do not parse do stop it:
    [JSON.parse] stands before the [try], the tool calls that follow are
    not executed, no second completion is asked for, and the request is
    answered with status 500 and the message of the parse error. *)
Theorem chat_two_creates_partial_failure db req (w : W) k userModel history m w1
    tc1 tc2 items1 items2 e created final others w4 :
  FirstTurn env db req w k userModel history m w1 ->
  tool_calls m = Some [tc1; tc2] ->
  fn_name tc1 = "create_calendar_event"%string ->
  fn_name tc2 = "create_calendar_event"%string ->
  createItems env tc1 = Ok items1 ->
  createItems env tc2 = Ok items2 ->
  result (insertEach env items1 w1) = Throw e ->
  result (insertEach env items2 (world (insertEach env items1 w1))) = Ok created ->
  let second :=
    {| apiKey := k; model := userModel;
       messages :=
         history ++
         [AssistantMsg m;
          ToolMessage (tc_id tc1)
            (Some (JObj [("success"%string, JBool false);
                         ("error"%string, JStr (error_message e))]));
          ToolMessage (tc_id tc2)
            (Some (JObj [("success"%string, JBool true);
                         ("created"%string, JNum (Z.of_nat (List.length items2)))]))];
       with_tools := false |} in
  chat_completions_create env second
    (world (insertEach env items2 (world (insertEach env items1 w1))))
    = (Ok (final :: others), w4) ->
  chat env db req w =
  mkOutcome (Ok {| res_status := 200; res_body := ChatReply final true |}) w4
    (Call_chat_completions_create
       {| apiKey := k; model := userModel; messages := history; with_tools := true |}
       :: events (insertEach env items1 w1)
       ++ [ConsoleError "Error executing create_calendar_event:" e]
       ++ events (insertEach env items2 (world (insertEach env items1 w1)))
       ++ [Call_chat_completions_create second])
  /\ (forall tcs w0,
        Forall (fun tc => exists args, JSON_parse env (fn_arguments tc) = Ok args) tcs ->
        exists ms, result (dispatch env tcs w0) = Ok ms /\
                   map toolCallId ms = map (fun tc => Some (tc_id tc)) tcs)
  /\ (forall pre tc post w0 e0,
        Forall (fun tc => exists args, JSON_parse env (fn_arguments tc) = Ok args) pre ->
        JSON_parse env (fn_arguments tc) = Throw e0 ->
        dispatch env (pre ++ tc :: post) w0
        = mkOutcome (Throw e0) (world (dispatch env pre w0))
            (events (dispatch env pre w0)))
  /\ (forall db0 req0 w0 k0 userModel0 history0 m0 w2 pre tc post e0,
        FirstTurn env db0 req0 w0 k0 userModel0 history0 m0 w2 ->
        tool_calls m0 = Some (pre ++ tc :: post) ->
        Forall (fun tc => exists args, JSON_parse env (fn_arguments tc) = Ok args) pre ->
        JSON_parse env (fn_arguments tc) = Throw e0 ->
        chat env db0 req0 w0 =
        mkOutcome
          (Ok {| res_status := 500;
                 res_body := ErrorBody
                   ("Failed to process chat request: " ++ error_message e0) None |})
          (world (dispatch env pre w2))
          (Call_chat_completions_create
             {| apiKey := k0; model := userModel0; messages := history0;
                with_tools := true |}
             :: events (dispatch env pre w2)
             ++ [ConsoleError "Error in chat:" e0;
                 ConsoleErrorText "Error details:" (error_message e0);
                 ConsoleError "Error stack:" e0])).
Proof.
  intros Hft Hcalls Hn1 Hn2 Hi1 Hi2 Hthrow Hok second Hllm.
  split; [|split; [intros tcs w0; apply dispatch_total|split]].
  2: { intros pre tc post w0 e0. apply dispatch_stops_at_unparsable. }
  2: { intros db0 req0 w0 k0 userModel0 history0 m0 w2 pre tc post e0
              Hft0 Hcalls0 Hpre Hparse.
       pose proof (chatTry_first_turn Hft0) as Htry. cbv zeta in Htry.
       destruct Hft0 as (tokens & _ & _ & _ & _ & _ & _ & Htok & _).
       assert (Hr : respond env k0 userModel0 history0 m0 w2
                    = mkOutcome (Throw e0) (world (dispatch env pre w2))
                        (events (dispatch env pre w2))).
       { unfold respond. rewrite Hcalls0.
         pose proof (@dispatch_stops_at_unparsable pre tc post w2 e0 Hpre Hparse) as Hd.
         destruct (pre ++ tc :: post) as [|tc0 rest] eqn:Hl;
           [destruct pre; discriminate|].
         now rewrite (bind_throw _ _ _ (e := e0)) by (now rewrite Hd); rewrite Hd. }
       rewrite Hr in Htry. cbn [result world events] in Htry.
       unfold chat. rewrite Htok.
       rewrite (try_catch_throw _ _ _ (e := e0)) by (now rewrite Htry).
       rewrite Htry. cbn [result world events bind emit ret app].
       reflexivity. }
  pose proof (dispatchOne_create_throw tc1 w1 Hn1 Hi1 Hthrow) as H1.
  set (results :=
         [ToolMessage (tc_id tc1) (Some (toolFailure e));
          ToolMessage (tc_id tc2)
            (Some (toolSuccess "created" (Z.of_nat (List.length items2))))]).
  change second with (secondRequest k userModel history m results) in Hllm |- *.
  clear second.
  set (second := secondRequest k userModel history m results) in *.
  pose proof (dispatchOne_create_ok tc2 _ Hn2 Hi2 Hok) as H2.
  set (w2 := world (insertEach env items1 w1)) in *.
  set (w3 := world (insertEach env items2 w2)) in *.
  assert (Hd : dispatch env [tc1; tc2] w1 =
               mkOutcome (Ok results) w3
                 (events (insertEach env items1 w1)
                    ++ [ConsoleError "Error executing create_calendar_event:" e]
                    ++ events (insertEach env items2 w2))).
  { cbn [dispatch]. unfold bind. rewrite H1. cbn [result world events].
    rewrite H2. cbn [result world events ret].
    now rewrite !app_nil_r, <- !app_assoc. }
  assert (Hr : respond env k userModel history m w1 =
               mkOutcome (Ok {| res_status := 200; res_body := ChatReply final true |}) w4
                 ((events (insertEach env items1 w1)
                     ++ [ConsoleError "Error executing create_calendar_event:" e]
                     ++ events (insertEach env items2 w2))
                    ++ [Call_chat_completions_create second])).
  { unfold respond. rewrite Hcalls. unfold bind at 1. rewrite Hd.
    cbn [result world events]. fold results. fold second.
    unfold bind, call, lift, ret. rewrite Hllm.
    cbn [result world events firstChoice app]. now rewrite ?app_nil_r. }
  rewrite (chat_first_turn Hft (r := {| res_status := 200; res_body := ChatReply final true |}));
    rewrite Hr; [|reflexivity].
  cbn [result world events]. now rewrite <- ?app_assoc.
Qed.

End ChatFacts.

Lemma unknown_tool_call_outcome_witness :
  dispatch (testEnv "quota exceeded" plainReply)
    [unknownTool;
     {| tc_id := "call_2"; fn_name := "create_calendar_event";
        fn_arguments := "create:retro" |}]%string 1
  = mkOutcome
      (Ok [ToolMessage "call_9" None;
           ToolMessage "call_2"
             (Some (JObj [("success", JBool true); ("created", JNum 2)]))])%string
      3
      [Call_events_insert "primary" (JObj [("summary", JStr "Retro")]);
       Call_events_insert "primary" (JObj [("summary", JStr "Demo")])]%string
  /\ dispatch (testEnv "quota exceeded" plainReply)
       [ {| tc_id := "call_8"; fn_name := "get_weather"; fn_arguments := "{city:" |};
         {| tc_id := "call_2"; fn_name := "create_calendar_event";
            fn_arguments := "create:retro" |} ]%string 1
     = mkOutcome (Throw (Error "Unexpected end of JSON input")) 1 [].
Proof.
  split.
  - rewrite (proj2 (@unknown_tool_call_outcome nat
                      (testEnv "quota exceeded" plainReply) unknownTool
                      [{| tc_id := "call_2"; fn_name := "create_calendar_event";
                          fn_arguments := "create:retro" |}]%string
                      1 eq_refl)).
    reflexivity.
  - rewrite (proj2 (@unknown_tool_call_outcome nat
                      (testEnv "quota exceeded" plainReply)
                      {| tc_id := "call_8"; fn_name := "get_weather";
                         fn_arguments := "{city:" |}%string
                      [{| tc_id := "call_2"; fn_name := "create_calendar_event";
                          fn_arguments := "create:retro" |}]%string
                      1 eq_refl)).
    reflexivity.
Defined.

(** C4 as stated fails: the unknown tool call does get a tool message. *)
Lemma unknown_tool_message_is_emitted : ~ UnknownToolsLeaveNoMessage.
Proof.
  intros H.
  apply (H nat (testEnv "quota exceeded" plainReply) [unknownTool] 0
           [ToolMessage "call_9" None] eq_refl unknownTool).
  - now left.
  - reflexivity.
  - now left.
Qed.

(** C3 as stated fails in its last clause: a tool call whose arguments
    are cut short ends the loop, and the sound call after it is never
    run. *)
Lemma unparsable_arguments_abort_the_remaining_calls : ~ NoToolCallFailureAborts.
Proof.
  intros H.
  destruct (H nat (testEnv "quota exceeded" plainReply) cutShortThenCreate 1)
    as (ms & Hms & _).
  discriminate Hms.
Qed.

(** The first turn of the test request, for any first reply. *)
Lemma testEnv_first_turn failure reply :
  FirstTurn (testEnv failure reply) testDb (chatRequest 1) 0
    "A" "anthropic/claude-3.5-sonnet"
    [SystemMessage "You are a helpful AI calendar assistant.";
     ClientMessage (JObj [("role", JStr "user"); ("content", JStr "Plan my week")])]%string
    reply 0.
Proof.
  exists someTokens, 0.
  eexists. eexists. eexists. exists 0, [].
  repeat split; reflexivity.
Defined.

Lemma chat_two_creates_partial_failure_witness :
  result (chat (testEnv "quota exceeded" twoCreates) testDb (chatRequest 1) 0)
  = Ok {| res_status := 200; res_body := ChatReply finalReply true |}
  /\ In (Call_chat_completions_create
           {| apiKey := "A"; model := "anthropic/claude-3.5-sonnet";
              messages :=
                [SystemMessage "You are a helpful AI calendar assistant.";
                 ClientMessage (JObj [("role", JStr "user");
                                      ("content", JStr "Plan my week")]);
                 AssistantMsg twoCreates;
                 ToolMessage "call_1"
                   (Some (JObj [("success", JBool false);
                                ("error", JStr "quota exceeded")]));
                 ToolMessage "call_2"
                   (Some (JObj [("success", JBool true); ("created", JNum 2)]))];
              with_tools := false |})%string
        (events (chat (testEnv "quota exceeded" twoCreates) testDb (chatRequest 1) 0)).
Proof.
  destruct (@chat_two_creates_partial_failure nat
              (testEnv "quota exceeded" twoCreates) testDb (chatRequest 1) 0
              "A" "anthropic/claude-3.5-sonnet" _ twoCreates 0
              {| tc_id := "call_1"; fn_name := "create_calendar_event";
                 fn_arguments := "create:standup" |}
              {| tc_id := "call_2"; fn_name := "create_calendar_event";
                 fn_arguments := "create:retro" |}
              [JObj [("summary", JStr "Standup")]]
              [JObj [("summary", JStr "Retro")]; JObj [("summary", JStr "Demo")]]
              (Error "quota exceeded")
              [JObj [("summary", JStr "Retro")]; JObj [("summary", JStr "Demo")]]
              finalReply [] 3
              (testEnv_first_turn "quota exceeded" twoCreates)
              eq_refl eq_refl eq_refl eq_refl eq_refl eq_refl eq_refl eq_refl)%string
    as [Hrun _].
  rewrite Hrun. split; [reflexivity|].
  cbn. right. right. right. right. right. left. reflexivity.
Defined.

Lemma chat_without_key_is_forbidden_witness :
  chat (testEnv "quota exceeded" twoCreates) testDb (chatRequest 2) 0 =
  mkOutcome
    (Ok {| res_status := 403;
           res_body := ErrorBody "OpenRouter API key not configured"
             (Some "Please configure your OpenRouter API key in Settings before using the chat feature."%string) |})
    0 [].
Proof.
  apply (@chat_without_key_is_forbidden nat (testEnv "quota exceeded" twoCreates)
           testDb (chatRequest 2) 0 someTokens 1); reflexivity.
Defined.

Lemma chat_without_tool_calls_is_verbatim_witness :
  chat (testEnv "quota exceeded" plainReply) testDb (chatRequest 1) 0 =
  mkOutcome (Ok {| res_status := 200; res_body := ChatReply plainReply false |}) 0
    [Call_chat_completions_create
       (firstRequest "A" "anthropic/claude-3.5-sonnet"
          [SystemMessage "You are a helpful AI calendar assistant.";
           ClientMessage (JObj [("role", JStr "user"); ("content", JStr "Plan my week")])]%string)].
Proof.
  apply (chat_without_tool_calls_is_verbatim
           (testEnv_first_turn "quota exceeded" plainReply)).
  right. reflexivity.
Defined.

(** ** The users and user_settings tables *)

Lemma existsb_filter_nil {A} (f : A -> bool) l : filter f l = [] -> existsb f l = false.
Proof.
  induction l as [|a l IH]; [reflexivity|]. cbn.
  destruct (f a); [discriminate|]. exact IH.
Qed.

Lemma filter_nil_existsb {A} (f : A -> bool) l : existsb f l = false -> filter f l = [].
Proof.
  induction l as [|a l IH]; [reflexivity|]. cbn.
  destruct (f a); [discriminate|]. exact IH.
Qed.

Lemma fresh_user_id db :
  Forall (fun u => u_id u <= users_id_seq db) (users db) ->
  existsb (fun u => Nat.eqb (u_id u) (S (users_id_seq db))) (users db) = false.
Proof.
  intros H. induction H as [|u l Hu _ IH]; [reflexivity|]. cbn.
  rewrite IH, orb_false_r. apply Nat.eqb_neq. lia.
Qed.

Lemma fresh_settings_id db :
  Forall (fun s => s_id s <= user_settings_id_seq db) (user_settings db) ->
  existsb (fun s => Nat.eqb (s_id s) (S (user_settings_id_seq db))) (user_settings db)
  = false.
Proof.
  intros H. induction H as [|s l Hs _ IH]; [reflexivity|]. cbn.
  rewrite IH, orb_false_r. apply Nat.eqb_neq. lia.
Qed.

(** No settings row can point at an id that the sequence has not issued. *)
Lemma no_settings_of_fresh_user db :
  SchemaOk db ->
  existsb (fun s => Nat.eqb (user_id s) (S (users_id_seq db))) (user_settings db) = false.
Proof.
  intros [Hu _ Hfk]. rewrite Forall_forall in Hu.
  induction Hfk as [|s l (u & Hin & Hid) _ IH]; [reflexivity|]. cbn.
  rewrite IH, orb_false_r. apply Nat.eqb_neq.
  specialize (Hu u Hin). cbv beta in Hu. lia.
Qed.

Lemma hasGoogleId_setProfile gid gid' e name now u :
  hasGoogleId gid
    (if hasGoogleId gid' u then setProfile e name now u else u)
  = hasGoogleId gid u.
Proof. now destruct (hasGoogleId gid' u). Qed.

Lemma filter_setProfile gid e name now l :
  filter (hasGoogleId gid)
    (map (fun u => if hasGoogleId gid u then setProfile e name now u else u) l)
  = map (setProfile e name now) (filter (hasGoogleId gid) l).
Proof.
  induction l as [|u l IH]; [reflexivity|]. cbn [map filter].
  rewrite hasGoogleId_setProfile.
  destruct (hasGoogleId gid u) eqn:E; cbn [map]; now rewrite IH.
Qed.

Lemma optStringEqb_refl a : optStringEqb a a = true.
Proof. destruct a; [apply String.eqb_refl|reflexivity]. Qed.

(** The first call on a database that does not know the Google id. *)
Lemma findOrCreateUser_insert g e name now db :
  SchemaOk db ->
  selectUsers (Some g) db = [] ->
  fitsVarchar 255 (Some g) && fitsVarchar 255 (Some e) && fitsVarchar 255 name = true ->
  let u := {| u_id := S (users_id_seq db); google_id := Some g; outlook_id := None;
              provider := "google"; u_email := e; u_name := name;
              u_created_at := now; u_updated_at := now |} in
  let s := {| s_id := S (user_settings_id_seq db); user_id := S (users_id_seq db);
              openrouter_api_key_encrypted := None; openrouter_model := None;
              encryption_iv := None; s_created_at := now; s_updated_at := now |} in
  findOrCreateUser (Some g) (Some e) name now db =
  mkDbOutcome (Ok (Some u))
    {| users := users db ++ [u]; user_settings := user_settings db ++ [s];
       users_id_seq := S (users_id_seq db);
       user_settings_id_seq := S (user_settings_id_seq db) |}
    [BEGIN; SELECT_users (Some g); INSERT_users (Some g) (Some e) name;
     INSERT_user_settings (S (users_id_seq db)); COMMIT].
Proof.
  intros Hok Hnone Hfits u s. unfold findOrCreateUser. rewrite Hnone.
  unfold insertUser. rewrite Hfits. cbn [negb].
  rewrite (fresh_user_id _ (users_seq_above Hok)).
  unfold selectUsers in Hnone. rewrite (existsb_filter_nil _ _ Hnone). cbn [orb].
  unfold insertUserSettings.
  cbn [users user_settings users_id_seq user_settings_id_seq u_id].
  rewrite (fresh_settings_id _ (settings_seq_above Hok)).
  rewrite (no_settings_of_fresh_user Hok). cbn [orb].
  rewrite existsb_app. cbn [existsb u_id]. rewrite Nat.eqb_refl, orb_true_r.
  reflexivity.
Qed.

(** A call on a database that knows the Google id once. *)
Lemma findOrCreateUser_update g e name now db u :
  selectUsers (Some g) db = [u] ->
  fitsVarchar 255 (Some e) && fitsVarchar 255 name = true ->
  findOrCreateUser (Some g) (Some e) name now db =
  mkDbOutcome (Ok (Some (setProfile e name now u)))
    (withUsers
       (map (fun x => if hasGoogleId (Some g) x then setProfile e name now x else x)
            (users db)) db)
    [BEGIN; SELECT_users (Some g); UPDATE_users (Some e) name (Some g); COMMIT].
Proof.
  intros Hone Hfits. unfold findOrCreateUser, updateUsers. rewrite Hone, Hfits.
  cbn [negb]. rewrite filter_setProfile.
  unfold selectUsers in Hone. rewrite Hone. reflexivity.
Qed.

(** C8: on a database that satisfies the schema and does not know the
    Google id, with values that fit the columns, two calls of
    findOrCreateUser with the same arguments both return the user, under
    the same id.  The first sends BEGIN, the SELECT, the INSERT into users,
    the INSERT into user_settings and COMMIT; the second sends BEGIN, the
    SELECT, the UPDATE of email and name and COMMIT, and inserts nothing:
    the settings table is untouched and the users table keeps its length.
    Afterwards there is exactly one users row with that Google id and
    exactly one user_settings row of that user. *)
Theorem findOrCreateUser_twice_one_user_one_settings g e name now1 now2 db :
  SchemaOk db ->
  countUsers g db = 0 ->
  fitsVarchar 255 (Some g) && fitsVarchar 255 (Some e) && fitsVarchar 255 name = true ->
  let first := findOrCreateUser (Some g) (Some e) name now1 db in
  let second := findOrCreateUser (Some g) (Some e) name now2 (db_after first) in
  exists u u',
    db_result first = Ok (Some u) /\ db_result second = Ok (Some u')
    /\ google_id u = Some g /\ u_id u' = u_id u
    /\ statements first =
       [BEGIN; SELECT_users (Some g); INSERT_users (Some g) (Some e) name;
        INSERT_user_settings (u_id u); COMMIT]
    /\ statements second =
       [BEGIN; SELECT_users (Some g); UPDATE_users (Some e) name (Some g); COMMIT]
    /\ user_settings (db_after second) = user_settings (db_after first)
    /\ List.length (users (db_after second)) = List.length (users (db_after first))
    /\ countUsers g (db_after second) = 1
    /\ countSettings (u_id u) (db_after second) = 1.
Proof.
  intros Hok Hcount Hfits first second.
  assert (Hnone : selectUsers (Some g) db = []).
  { unfold countUsers in Hcount. now destruct (selectUsers (Some g) db). }
  pose proof (findOrCreateUser_insert g e name now1 Hok Hnone Hfits) as H1.
  cbv zeta in H1. fold first in H1.
  set (u := {| u_id := S (users_id_seq db); google_id := Some g |}) in H1.
  set (s := {| s_id := S (user_settings_id_seq db) |}) in H1.
  assert (Hsel : selectUsers (Some g) (db_after first) = [u]).
  { rewrite H1. unfold selectUsers in *. cbn [db_after users].
    rewrite filter_app, Hnone. cbn [filter app hasGoogleId google_id u optStringEqb].
    now rewrite String.eqb_refl. }
  assert (Hfits' : fitsVarchar 255 (Some e) && fitsVarchar 255 name = true).
  { apply andb_true_iff in Hfits as [Hge Hn]. apply andb_true_iff in Hge as [_ He].
    now rewrite He, Hn. }
  pose proof (findOrCreateUser_update g e name now2 (db_after first) Hsel Hfits') as H2.
  fold second in H2.
  exists u, (setProfile e name now2 u).
  rewrite H2. rewrite H1 at 1 2.
  cbn [db_result statements db_after withUsers users user_settings].
  repeat split.
  - now rewrite H1.
  - now rewrite length_map.
  - unfold countUsers, selectUsers, withUsers. cbn [users].
    rewrite filter_setProfile. unfold selectUsers in Hsel. rewrite Hsel. reflexivity.
  - unfold countSettings, withUsers. cbn [user_settings]. rewrite H1.
    cbn [db_after user_settings u_id u].
    rewrite filter_app, (filter_nil_existsb _ _ (no_settings_of_fresh_user Hok)).
    cbn [filter app user_id s]. now rewrite Nat.eqb_refl.
Qed.

(** A call that throws has rolled back: both tables are as before. *)
Lemma findOrCreateUser_rollback googleId email name now db error :
  db_result (findOrCreateUser googleId email name now db) = Throw error ->
  users (db_after (findOrCreateUser googleId email name now db)) = users db
  /\ user_settings (db_after (findOrCreateUser googleId email name now db))
     = user_settings db.
Proof.
  unfold findOrCreateUser.
  destruct (selectUsers googleId db).
  - destruct (insertUser googleId email name now db) as [[row|e] db1].
    + destruct (insertUserSettings (u_id row) now db1) as [[[]|e] db2];
        cbn; [discriminate|now split].
    + cbn. now split.
  - destruct (updateUsers email name googleId now db) as [[rows|e] db1];
      cbn; [discriminate|now split].
Qed.

(** *** The pairing of the key and its IV *)

Lemma keyIvPaired_map (f : SettingsRow -> SettingsRow) (test : SettingsRow -> bool) l :
  (forall s, keyIvPaired (f s)) ->
  Forall keyIvPaired l ->
  Forall keyIvPaired (map (fun s => if test s then f s else s) l).
Proof.
  intros Hf H. induction H as [|x xs Hx _ IH]; cbn; constructor; [|exact IH].
  destruct (test x); [apply Hf|exact Hx].
Qed.

Lemma updateUserSettings_paired userId key modelName ivHex now db :
  (key = None <-> ivHex = None) ->
  KeyIvInvariant db ->
  KeyIvInvariant
    (db_after (updateUserSettings userId key modelName ivHex now db)).
Proof.
  intros Hpair H. unfold updateUserSettings.
  destruct (filter (ofUser userId) (user_settings db)); [exact H|].
  destruct (negb _); [exact H|].
  unfold KeyIvInvariant. cbn [db_after withSettings user_settings].
  apply keyIvPaired_map; [|exact H].
  intros row. unfold keyIvPaired. cbn. exact Hpair.
Qed.

Lemma both_given (k ivHex : string) : Some k = None <-> Some ivHex = None.
Proof. split; discriminate. Qed.

Lemma hd_error_In {A} (l : list A) a : hd_error l = Some a -> In a l.
Proof. destruct l; cbn; [discriminate|]. intros [= ->]. now left. Qed.

Lemma deleteUserApiKey_paired userId now db :
  KeyIvInvariant db -> KeyIvInvariant (db_after (deleteUserApiKey userId now db)).
Proof.
  intros H. unfold deleteUserApiKey, KeyIvInvariant.
  cbn [db_after withSettings user_settings].
  apply keyIvPaired_map; [|exact H].
  intros s. unfold keyIvPaired. cbn. split; reflexivity.
Qed.

Lemma rows_of_user_after_map (f : SettingsRow -> SettingsRow) (P : SettingsRow -> Prop)
    userId l :
  (forall s, user_id (f s) = user_id s) ->
  (forall s, P (f s)) ->
  Forall (fun s => ofUser userId s = true -> P s)
    (map (fun s => if ofUser userId s then f s else s) l).
Proof.
  intros Hid HP. induction l as [|s l IH]; cbn; constructor; [|exact IH].
  destruct (ofUser userId s) eqn:E; [intros _; apply HP|congruence].
Qed.

Lemma findOrCreateUser_paired googleId email name now db :
  KeyIvInvariant db ->
  KeyIvInvariant (db_after (findOrCreateUser googleId email name now db)).
Proof.
  intros H. unfold findOrCreateUser.
  destruct (selectUsers googleId db).
  - unfold insertUser.
    destruct (negb _); [exact H|].
    destruct email; [|exact H]. destruct googleId; [|exact H].
    destruct (_ || _); [exact H|].
    unfold insertUserSettings.
    cbn [users user_settings users_id_seq user_settings_id_seq u_id].
    destruct (_ || _); [exact H|].
    destruct (negb _); [exact H|].
    unfold KeyIvInvariant. cbn [db_after user_settings].
    apply Forall_app. split; [exact H|].
    constructor; [|constructor]. unfold keyIvPaired. cbn. split; reflexivity.
  - unfold updateUsers. destruct (selectUsers googleId db); [exact H|].
    destruct (negb _); [exact H|]. destruct email; exact H.
Qed.

Section SettingsRoutes.
Context {W : Type} (env : Env W).

(** The save route leaves the database alone or applies
    [updateUserSettings] with three strings. *)
Lemma saveSettings_db db s apiKey modelName now (w : W) r db' :
  result (saveSettings env db s apiKey modelName now w) = Ok (r, db') ->
  db' = db \/
  exists userId k m ivHex,
    db' = db_after (updateUserSettings userId (Some k) (Some m) (Some ivHex) now db).
Proof.
  unfold saveSettings.
  destruct (session_tokens s); [|cbn; intros [= _ <-]; now left].
  match goal with |- context [try_catch ?m ?h] => set (body := m) end.
  destruct (result (body w)) as [[r0 db0]|error] eqn:Hbody.
  - rewrite (try_catch_ok _ _ _ Hbody), Hbody. intros [= -> ->].
    unfold body in Hbody. clear body.
    destruct (session_userId s) as [[|userId]|];
      try (cbn in Hbody; injection Hbody as _ <-; now left).
    destruct (_ || _); [cbn in Hbody; injection Hbody as _ <-; now left|].
    destruct (_ || _); [cbn in Hbody; injection Hbody as _ <-; now left|].
    match type of Hbody with
    | result (bind ?m ?k w) = _ => destruct (result (m w)) as [enc|e] eqn:Henc
    end.
    + rewrite (bind_ok _ _ _ Henc) in Hbody. cbn [result] in Hbody.
      match type of Hbody with
      | context [db_result ?o] => destruct (db_result o) eqn:Hupd
      end; cbn in Hbody; [|discriminate].
      injection Hbody as _ <-. right. eauto.
    + rewrite (bind_throw _ _ _ Henc) in Hbody. discriminate.
  - rewrite (try_catch_throw _ _ _ Hbody). cbn. intros [= _ <-]. now left.
Qed.

Lemma deleteApiKey_db db s now (w : W) r db' :
  result (deleteApiKey db s now w) = Ok (r, db') ->
  db' = db \/ exists userId, db' = db_after (deleteUserApiKey userId now db).
Proof.
  unfold deleteApiKey.
  destruct (session_tokens s); [|cbn; intros [= _ <-]; now left].
  destruct (session_userId s) as [[|userId]|]; cbn; intros [= _ <-]; eauto.
Qed.

(** C10 (as amended): on a database where every settings row has its key
    and its IV both NULL or both non-NULL, every mutation that the server
    performs keeps it so.  [updateUserSettings] writes the key and the IV
    it is given into the rows of the user, whatever they are: it keeps the
    pairing when it is given both or neither, and breaks it when it
    reaches a row with only one of them.  Its only caller, the save route,
    always passes the two strings that [encryptApiKey] returns, so
    whatever the two settings routes are sent, the database they leave is
    paired again.  [deleteUserApiKey] leaves every row of the user with
    both NULL, and the row that [findOrCreateUser] inserts has both
    NULL. *)
Theorem settings_mutations_keep_key_and_iv_paired db :
  KeyIvInvariant db ->
  (forall userId key modelName ivHex now,
     let o := updateUserSettings userId key modelName ivHex now db in
     (forall row, db_result o = Ok row ->
        Forall (fun s => ofUser userId s = true ->
                         openrouter_api_key_encrypted s = key
                         /\ encryption_iv s = ivHex)
               (user_settings (db_after o)))
     /\ ((key = None <-> ivHex = None) -> KeyIvInvariant (db_after o))
     /\ (forall row, db_result o = Ok (Some row) ->
         ~ (key = None <-> ivHex = None) -> ~ KeyIvInvariant (db_after o)))
  /\ (forall userId now,
        let o := deleteUserApiKey userId now db in
        KeyIvInvariant (db_after o)
        /\ Forall (fun s => ofUser userId s = true ->
                            openrouter_api_key_encrypted s = None
                            /\ encryption_iv s = None)
                  (user_settings (db_after o)))
  /\ (forall googleId email name now,
        KeyIvInvariant (db_after (findOrCreateUser googleId email name now db)))
  /\ (forall s apiKey modelName now (w : W) r db',
        result (saveSettings env db s apiKey modelName now w) = Ok (r, db') ->
        KeyIvInvariant db')
  /\ (forall s now (w : W) r db',
        result (deleteApiKey db s now w) = Ok (r, db') ->
        KeyIvInvariant db').
Proof.
  intros H. split; [|split; [|split; [|split]]].
  - intros userId key modelName ivHex now o.
    assert (Hrows : forall row, db_result o = Ok row ->
              Forall (fun s => ofUser userId s = true ->
                               openrouter_api_key_encrypted s = key
                               /\ encryption_iv s = ivHex)
                     (user_settings (db_after o))).
    { intros row. subst o. unfold updateUserSettings.
      destruct (filter (ofUser userId) (user_settings db)) eqn:Hnone.
      - intros _. cbn [db_after]. rewrite Forall_forall. intros s Hin Hs.
        assert (Hf : In s (filter (ofUser userId) (user_settings db)))
          by (apply filter_In; now split).
        rewrite Hnone in Hf. destruct Hf.
      - destruct (negb _); [discriminate|]. intros _.
        cbn [db_after withSettings user_settings].
        apply rows_of_user_after_map; [reflexivity|]. intros s0. now split. }
    split; [exact Hrows|]. split.
    + intros Hpair. now apply updateUserSettings_paired.
    + intros row Hrow Hunpaired Hinv.
      pose proof (Hrows _ Hrow) as Hall. rewrite Forall_forall in Hall.
      assert (Hin : In row (user_settings (db_after o))
                    /\ ofUser userId row = true).
      { subst o. unfold updateUserSettings in Hrow |- *.
        destruct (filter (ofUser userId) (user_settings db)); [discriminate|].
        destruct (negb _); [discriminate|].
        cbn [db_result db_after withSettings user_settings] in Hrow |- *.
        injection Hrow as Hrow. apply hd_error_In, filter_In in Hrow. exact Hrow. }
      destruct Hin as [Hin Hof]. destruct (Hall row Hin Hof) as [Hk Hi].
      unfold KeyIvInvariant in Hinv. rewrite Forall_forall in Hinv.
      specialize (Hinv row Hin). unfold keyIvPaired in Hinv.
      rewrite Hk, Hi in Hinv. exact (Hunpaired Hinv).
  - intros userId now o. split; [now apply deleteUserApiKey_paired|].
    subst o. unfold deleteUserApiKey. cbn [db_after withSettings user_settings].
    apply rows_of_user_after_map; [reflexivity|]. intros s0. now split.
  - intros. now apply findOrCreateUser_paired.
  - intros s apiKey modelName now w r db' Hrun.
    destruct (saveSettings_db _ _ _ _ _ _ Hrun) as [->|(u & k & m & i & ->)];
      [exact H|apply updateUserSettings_paired; [apply both_given|exact H]].
  - intros s now w r db' Hrun.
    destruct (deleteApiKey_db _ _ _ _ Hrun) as [->|(u & ->)];
      [exact H|now apply deleteUserApiKey_paired].
Qed.

End SettingsRoutes.

Lemma testDb_key_iv_paired : KeyIvInvariant testDb.
Proof.
  repeat constructor; unfold keyIvPaired; cbn; discriminate.
Defined.

Lemma settings_mutations_keep_key_and_iv_paired_witness :
  KeyIvInvariant
    (db_after (updateUserSettings 2 (Some "a1b2") (Some "openai/gpt-4o")
                 (Some "000102030405060708090a0b0c0d0e0f") 40 testDb))%string
  /\ KeyIvInvariant (db_after (deleteUserApiKey 1 41 testDb)).
Proof.
  destruct (@settings_mutations_keep_key_and_iv_paired nat
              (testEnv "rate limit" plainReply) testDb testDb_key_iv_paired)
    as (Hupd & Hdel & _).
  split.
  - exact (proj1 (proj2 (Hupd 2 (Some "a1b2") (Some "openai/gpt-4o")
                           (Some "000102030405060708090a0b0c0d0e0f") 40%Z))
             (both_given _ _))%string.
  - exact (proj1 (Hdel 1 41%Z)).
Defined.

(** C10 as stated fails for [updateUserSettings] on its own: given a key
    and no IV, it stores the key and a NULL IV. *)
Lemma update_with_key_and_no_iv_breaks_the_pairing : ~ UpdateKeepsKeyAndIvPaired.
Proof.
  intros H.
  specialize (H 2 (Some "0141"%string) None None 40%Z testDb testDb_key_iv_paired).
  unfold KeyIvInvariant in H. cbn in H.
  inversion H as [|row1 rest1 _ H2]. inversion H2 as [|row2 rest2 [_ Hp] _].
  discriminate (Hp eq_refl).
Qed.

Lemma testDb_schema_ok : SchemaOk testDb.
Proof.
  split.
  - repeat constructor.
  - repeat constructor.
  - constructor; [|constructor; [|constructor]].
    + eexists. split; [left; reflexivity|reflexivity].
    + eexists. split; [right; left; reflexivity|reflexivity].
Defined.

Lemma findOrCreateUser_twice_one_user_one_settings_witness :
  countUsers "g-3" signedInTwice = 1 /\ countSettings 3 signedInTwice = 1.
Proof.
  destruct (@findOrCreateUser_twice_one_user_one_settings
              "g-3" "c@example.com" (Some "Cy"%string) 30 31 testDb
              testDb_schema_ok eq_refl eq_refl)
    as (u & u' & H1 & _ & _ & _ & _ & _ & _ & _ & Hu & Hs).
  vm_compute in H1. injection H1 as <-.
  split; [exact Hu|exact Hs].
Defined.

(** ** API-key encryption *)

Lemma hex_decode_byte b s : hex_decode (byteToHex b ++ s) = b :: hex_decode s.
Proof. destruct b; reflexivity. Qed.

Lemma hex_decode_encode l : hex_decode (hex_encode l) = l.
Proof.
  induction l as [|b l IH]; [reflexivity|].
  cbn [hex_encode]. now rewrite hex_decode_byte, IH.
Qed.

Lemma hex_encode_truthy l : l <> [] -> truthy (Some (hex_encode l)) = true.
Proof. destruct l as [|b l]; [congruence|]. intros _. now destruct b. Qed.

(** *** UTF-8: well-formed text passes through unchanged *)

Lemma byteIn_true lo hi b : byteIn lo hi b = true -> (lo <= Byte.to_N b <= hi)%N.
Proof.
  unfold byteIn. intros H. apply andb_true_iff in H as [H1 H2].
  apply N.leb_le in H1. apply N.leb_le in H2. lia.
Qed.

Lemma byteIn_false lo hi b :
  byteIn lo hi b = false -> (Byte.to_N b < lo \/ hi < Byte.to_N b)%N.
Proof.
  unfold byteIn. intros H. apply andb_false_iff in H as [H|H];
    apply N.leb_gt in H; lia.
Qed.

Ltac ranges :=
  repeat match goal with
         | H : byteIn _ _ _ = true |- _ => apply byteIn_true in H
         | H : byteIn _ _ _ = false |- _ => apply byteIn_false in H
         end.

(** Settles the range tests of the goal from the ranges already known. *)
Ltac settle :=
  repeat match goal with
         | |- context [byteIn ?lo ?hi ?x] =>
             let E := fresh "E" in
             destruct (byteIn lo hi x) eqn:E;
             try (exfalso; ranges; lia)
         end.

Lemma threeBytes_cases a b :
  threeBytes a b = true ->
  byteIn 224 224 a = true /\ byteIn 160 191 b = true
  \/ byteIn 225 236 a = true /\ byteIn 128 191 b = true
  \/ byteIn 237 237 a = true /\ byteIn 128 159 b = true
  \/ byteIn 238 239 a = true /\ byteIn 128 191 b = true.
Proof.
  unfold threeBytes. intros H.
  apply orb_prop in H as [H|H];
    [apply orb_prop in H as [H|H]; [apply orb_prop in H as [H|H]|]|];
    apply andb_prop in H; tauto.
Qed.

Lemma fourBytes_cases a b :
  fourBytes a b = true ->
  byteIn 240 240 a = true /\ byteIn 144 191 b = true
  \/ byteIn 241 243 a = true /\ byteIn 128 191 b = true
  \/ byteIn 244 244 a = true /\ byteIn 128 143 b = true.
Proof.
  unfold fourBytes. intros H.
  apply orb_prop in H as [H|H]; [apply orb_prop in H as [H|H]|];
    apply andb_prop in H; tauto.
Qed.

(** The second byte of a sequence of three or four is a continuation
    byte, and after ED it lies below A0. *)
Lemma threeBytes_second a b :
  threeBytes a b = true ->
  byteIn 128 191 b = true
  /\ (byteIn 237 237 a = true -> byteIn 160 191 b = false).
Proof.
  intros H. apply threeBytes_cases in H.
  split.
  - destruct (byteIn 128 191 b) eqn:E; [reflexivity|]. exfalso.
    destruct H as [[? ?]|[[? ?]|[[? ?]|[? ?]]]]; ranges; lia.
  - intros Hed. destruct (byteIn 160 191 b) eqn:E; [|reflexivity]. exfalso.
    destruct H as [[? ?]|[[? ?]|[[? ?]|[? ?]]]]; ranges; lia.
Qed.

Lemma fourBytes_second a b :
  fourBytes a b = true ->
  byteIn 128 191 b = true /\ byteIn 237 237 a = false.
Proof.
  intros H. apply fourBytes_cases in H.
  split.
  - destruct (byteIn 128 191 b) eqn:E; [reflexivity|]. exfalso.
    destruct H as [[? ?]|[[? ?]|[? ?]]]; ranges; lia.
  - destruct (byteIn 237 237 a) eqn:E; [|reflexivity]. exfalso.
    destruct H as [[? ?]|[[? ?]|[? ?]]]; ranges; lia.
Qed.

Lemma threeBytes_lead a b :
  threeBytes a b = true ->
  exists lo hi,
    leadByte a = Some {| needed := 2; lower := lo; upper := hi; seen := [a] |}
    /\ byteIn lo hi b = true.
Proof.
  intros H. apply threeBytes_cases in H. unfold leadByte.
  destruct H as [[Hx Hy]|[[Hx Hy]|[[Hx Hy]|[Hx Hy]]]];
    pose proof (byteIn_true _ _ _ Hx) as Rx;
    settle; eexists; eexists; (split; [reflexivity|exact Hy]).
Qed.

Lemma fourBytes_lead a b :
  fourBytes a b = true ->
  exists lo hi,
    leadByte a = Some {| needed := 3; lower := lo; upper := hi; seen := [a] |}
    /\ byteIn lo hi b = true.
Proof.
  intros H. apply fourBytes_cases in H. unfold leadByte.
  destruct H as [[Hx Hy]|[[Hx Hy]|[Hx Hy]]];
    pose proof (byteIn_true _ _ _ Hx) as Rx;
    settle; eexists; eexists; (split; [reflexivity|exact Hy]).
Qed.

Lemma replaceSurrogates_other a tail :
  byteIn 237 237 a = false ->
  replaceSurrogates (a :: tail) = a :: replaceSurrogates tail.
Proof.
  intros H. destruct tail as [|b [|c rest]]; cbn [replaceSurrogates];
    rewrite ?H; reflexivity.
Qed.

Lemma replaceSurrogates_low a b tail :
  byteIn 160 191 b = false ->
  replaceSurrogates (a :: b :: tail) = a :: replaceSurrogates (b :: tail).
Proof.
  intros H. destruct tail as [|c rest]; [reflexivity|].
  cbn [replaceSurrogates]. rewrite H, andb_false_r. reflexivity.
Qed.

Lemma continuation_other lo hi b :
  byteIn lo hi b = true -> (hi <= 236)%N -> byteIn 237 237 b = false.
Proof.
  intros H Hhi. destruct (byteIn 237 237 b) eqn:E; [|reflexivity].
  exfalso. ranges. lia.
Qed.

Lemma wellFormed_no_surrogate n : forall l,
  List.length l < n -> wellFormedBytes l = true -> replaceSurrogates l = l.
Proof.
  assert (Hcont : forall x t, byteIn 128 191 x = true ->
                    replaceSurrogates (x :: t) = x :: replaceSurrogates t).
  { intros x t Hx. apply replaceSurrogates_other.
    eapply continuation_other; [exact Hx|lia]. }
  induction n as [|n IH]; intros l Hlen Hwf; [lia|].
  destruct l as [|a l1]; [reflexivity|]. cbn [wellFormedBytes] in Hwf.
  cbn [List.length] in Hlen.
  destruct (byteIn 0 127 a) eqn:Ha.
  { rewrite replaceSurrogates_other by (eapply continuation_other; [exact Ha|lia]).
    f_equal. apply IH; [lia|exact Hwf]. }
  destruct l1 as [|b l2]; [discriminate|]. cbn [List.length] in Hlen.
  destruct (byteIn 194 223 a && byteIn 128 191 b) eqn:H2.
  { apply andb_prop in H2 as [Ha2 Hb].
    rewrite replaceSurrogates_other by (eapply continuation_other; [exact Ha2|lia]).
    rewrite (Hcont _ _ Hb). do 2 f_equal. apply IH; [lia|exact Hwf]. }
  destruct l2 as [|c l3]; [discriminate|]. cbn [List.length] in Hlen.
  destruct (threeBytes a b && byteIn 128 191 c) eqn:H3.
  { apply andb_prop in H3 as [Hab Hc].
    destruct (threeBytes_second _ _ Hab) as [Hb Hlow].
    assert (Hfirst : replaceSurrogates (a :: b :: c :: l3)
                     = a :: replaceSurrogates (b :: c :: l3)).
    { destruct (byteIn 237 237 a) eqn:Hed.
      - apply replaceSurrogates_low. now apply Hlow.
      - now apply replaceSurrogates_other. }
    rewrite Hfirst, (Hcont _ _ Hb), (Hcont _ _ Hc).
    do 3 f_equal. apply IH; [lia|exact Hwf]. }
  destruct l3 as [|d l4]; [discriminate|]. cbn [List.length] in Hlen.
  apply andb_prop in Hwf as [Hwf Hrest].
  apply andb_prop in Hwf as [Hwf Hd].
  apply andb_prop in Hwf as [Hab Hc].
  destruct (fourBytes_second _ _ Hab) as [Hb Ha4].
  rewrite (@replaceSurrogates_other a _ Ha4), (Hcont _ _ Hb), (Hcont _ _ Hc),
    (Hcont _ _ Hd).
  do 4 f_equal. apply IH; [lia|exact Hrest].
Qed.

Lemma decodeFrom_ascii a l :
  byteIn 0 127 a = true ->
  decodeFrom utf8_start (a :: l) = a :: decodeFrom utf8_start l.
Proof.
  intros Ha. cbn [decodeFrom]. unfold decodeByte. cbn [needed utf8_start].
  unfold decodeFirst. rewrite Ha. reflexivity.
Qed.

Lemma decodeFrom_lead a st l :
  byteIn 0 127 a = false -> leadByte a = Some st ->
  decodeFrom utf8_start (a :: l) = decodeFrom st l.
Proof.
  intros Ha Hlead. cbn [decodeFrom]. unfold decodeByte. cbn [needed utf8_start].
  unfold decodeFirst. rewrite Ha, Hlead. reflexivity.
Qed.

Lemma decodeFrom_last lo hi pre b l :
  byteIn lo hi b = true ->
  decodeFrom {| needed := 1; lower := lo; upper := hi; seen := pre |} (b :: l)
  = pre ++ b :: decodeFrom utf8_start l.
Proof.
  intros Hb. cbn [decodeFrom]. unfold decodeByte. cbn [needed lower upper seen].
  rewrite Hb. cbn [fst snd]. now rewrite <- app_assoc.
Qed.

Lemma decodeFrom_more n lo hi pre b l :
  byteIn lo hi b = true ->
  decodeFrom {| needed := S (S n); lower := lo; upper := hi; seen := pre |} (b :: l)
  = decodeFrom {| needed := S n; lower := 128; upper := 191; seen := pre ++ [b] |} l.
Proof.
  intros Hb. cbn [decodeFrom]. unfold decodeByte. cbn [needed lower upper seen].
  rewrite Hb. reflexivity.
Qed.

Lemma wellFormed_decodes n : forall l,
  List.length l < n -> wellFormedBytes l = true -> decodeFrom utf8_start l = l.
Proof.
  induction n as [|n IH]; intros l Hlen Hwf; [lia|].
  destruct l as [|a l1]; [reflexivity|]. cbn [wellFormedBytes] in Hwf.
  cbn [List.length] in Hlen.
  destruct (byteIn 0 127 a) eqn:Ha.
  { rewrite (@decodeFrom_ascii a l1 Ha). f_equal. apply IH; [lia|exact Hwf]. }
  destruct l1 as [|b l2]; [discriminate|]. cbn [List.length] in Hlen.
  destruct (byteIn 194 223 a && byteIn 128 191 b) eqn:H2.
  { apply andb_prop in H2 as [Ha2 Hb].
    erewrite decodeFrom_lead; [|exact Ha|unfold leadByte; rewrite Ha2; reflexivity].
    rewrite (@decodeFrom_last _ _ _ b l2 Hb). cbn [app]. do 2 f_equal.
    apply IH; [lia|exact Hwf]. }
  destruct l2 as [|c l3]; [discriminate|]. cbn [List.length] in Hlen.
  destruct (threeBytes a b && byteIn 128 191 c) eqn:H3.
  { apply andb_prop in H3 as [Hab Hc].
    destruct (threeBytes_lead _ _ Hab) as (lo & hi & Hlead & Hb).
    erewrite decodeFrom_lead; [|exact Ha|exact Hlead].
    rewrite (@decodeFrom_more _ _ _ _ b _ Hb), (@decodeFrom_last _ _ _ c _ Hc).
    cbn [app]. do 3 f_equal. apply IH; [lia|exact Hwf]. }
  destruct l3 as [|d l4]; [discriminate|]. cbn [List.length] in Hlen.
  apply andb_prop in Hwf as [Hwf Hrest].
  apply andb_prop in Hwf as [Hwf Hd].
  apply andb_prop in Hwf as [Hab Hc].
  destruct (fourBytes_lead _ _ Hab) as (lo & hi & Hlead & Hb).
  erewrite decodeFrom_lead; [|exact Ha|exact Hlead].
  rewrite (@decodeFrom_more _ _ _ _ b _ Hb), (@decodeFrom_more _ _ _ _ c _ Hc),
    (@decodeFrom_last _ _ _ d _ Hd).
  cbn [app]. do 4 f_equal. apply IH; [lia|exact Hrest].
Qed.

Lemma utf8_roundtrip p : wellFormed p = true -> utf8_decode (utf8_encode p) = p.
Proof.
  intros H. unfold utf8_decode, utf8_encode, wellFormed in *.
  rewrite (wellFormed_no_surrogate (n := S (List.length (list_byte_of_string p))))
    by (try lia; exact H).
  rewrite (wellFormed_decodes (n := S (List.length (list_byte_of_string p))))
    by (try lia; exact H).
  apply string_of_list_byte_of_string.
Qed.

Lemma ascii_wellFormedBytes l :
  forallb (byteIn 0 127) l = true -> wellFormedBytes l = true.
Proof.
  induction l as [|a l IH]; [reflexivity|]. cbn [forallb wellFormedBytes].
  intros H. apply andb_true_iff in H as [Ha Hl]. rewrite Ha. now apply IH.
Qed.

Lemma ascii_wellFormed p : asciiOnly p = true -> wellFormed p = true.
Proof. apply ascii_wellFormedBytes. Qed.

Section EncryptionFacts.
Context {W : Type} (env : Env W).

Lemma getEncryptionKey_valid key :
  ENCRYPTION_KEY env = Some key ->
  List.length (hex_decode key) = 32 ->
  getEncryptionKey env = Ok (hex_decode key).
Proof.
  intros Hkey Hlen. unfold getEncryptionKey. rewrite Hkey.
  destruct (String.eqb_spec key "") as [->|_]; [discriminate Hlen|].
  rewrite Hlen. reflexivity.
Qed.

(** C9 (as amended): with the AES-256-CBC pair of Node's crypto behaving
    as promised and a valid 32-byte ENCRYPTION_KEY, every non-empty
    plaintext is encrypted to an [{encrypted, iv}] from which
    [decryptApiKey] returns the text that the UTF-8 bytes of the
    plaintext decode to.  That text is the plaintext itself whenever the
    plaintext is well-formed, which every ASCII text is; a surrogate
    without its partner does not come back. *)
Theorem decrypt_encrypt_roundtrip (w : W) (p key : string) :
  CryptoContract env ->
  p <> ""%string ->
  ENCRYPTION_KEY env = Some key ->
  List.length (hex_decode key) = 32 ->
  exists enc,
    result (encryptApiKey env (Some p) w) = Ok enc
    /\ (forall w', decryptApiKey env (Some (encrypted enc)) (Some (iv enc)) w'
                   = mkOutcome (Ok (utf8_decode (utf8_encode p))) w' [])
    /\ (wellFormed p = true ->
        forall w', decryptApiKey env (Some (encrypted enc)) (Some (iv enc)) w'
                   = mkOutcome (Ok p) w' [])
    /\ (asciiOnly p = true -> wellFormed p = true).
Proof.
  intros [Hrand Hpair] Hp Hkey Hlen.
  pose proof (getEncryptionKey_valid Hkey Hlen) as Hget.
  pose proof (Hrand IV_LENGTH w) as Hiv.
  set (ivBytes := fst (randomBytes env IV_LENGTH w)) in *.
  destruct (Hpair (hex_decode key) ivBytes (utf8_encode p) Hlen Hiv)
    as (c & Henc & Hc & Hdec).
  assert (Hback : forall w',
            decryptApiKey env (Some (hex_encode c)) (Some (hex_encode ivBytes)) w'
            = mkOutcome (Ok (utf8_decode (utf8_encode p))) w' []).
  { intros w'. unfold decryptApiKey. cbn [template].
    rewrite (hex_encode_truthy Hc).
    rewrite hex_encode_truthy
      by (intros E; rewrite E in Hiv; discriminate Hiv).
    cbn [andb]. unfold try_catch.
    rewrite Hget, bind_lift_ok, !hex_decode_encode, Hdec, bind_lift_ok.
    reflexivity. }
  exists {| encrypted := hex_encode c; iv := hex_encode ivBytes |}.
  cbn [encrypted iv]. split; [|split; [exact Hback|split]].
  - unfold encryptApiKey. cbn [truthy template].
    destruct (String.eqb_spec p ""); [congruence|]. cbn [negb].
    unfold try_catch. rewrite bind_peek. fold ivBytes.
    rewrite Hget, bind_lift_ok, Henc, bind_lift_ok. reflexivity.
  - intros Hwf w'. now rewrite Hback, (utf8_roundtrip _ Hwf).
  - apply ascii_wellFormed.
Qed.

End EncryptionFacts.

Lemma testEnv_crypto_contract failure reply : CryptoContract (testEnv failure reply).
Proof.
  split.
  - intros n w. cbn. apply repeat_length.
  - intros key ivBytes p _ _. exists (x01 :: p). cbn. repeat split. discriminate.
Defined.

Lemma decrypt_encrypt_roundtrip_witness :
  exists enc,
    result (encryptApiKey (testEnv "rate limit" plainReply) (Some "sk-or-v1-abc"%string) 0)
      = Ok enc
    /\ (forall w', decryptApiKey (testEnv "rate limit" plainReply)
                     (Some (encrypted enc)) (Some (iv enc)) w'
                   = mkOutcome (Ok "sk-or-v1-abc"%string) w' [])
    /\ result (encryptApiKey (testEnv "rate limit" plainReply) (Some loneSurrogate) 0)
       = Ok {| encrypted := "01efbfbd";
               iv := "00000000000000000000000000000000" |}
    /\ decryptApiKey (testEnv "rate limit" plainReply)
         (Some "01efbfbd"%string) (Some "00000000000000000000000000000000"%string) 0
       = mkOutcome (Ok (string_of_list_byte [xef; xbf; xbd])) 0 [].
Proof.
  destruct (@decrypt_encrypt_roundtrip nat (testEnv "rate limit" plainReply) 0
              "sk-or-v1-abc" zeroKey (testEnv_crypto_contract _ _)
              ltac:(discriminate) eq_refl eq_refl)
    as (enc & Henc & _ & Hback & _).
  exists enc. split; [exact Henc|]. split; [apply Hback; reflexivity|].
  destruct (@decrypt_encrypt_roundtrip nat (testEnv "rate limit" plainReply) 0
              loneSurrogate zeroKey (testEnv_crypto_contract _ _)
              ltac:(discriminate) eq_refl eq_refl)
    as (enc' & Henc' & Hback' & _).
  vm_compute in Henc'. injection Henc' as <-.
  split; [reflexivity|]. exact (Hback' 0).
Defined.

(** C9 as stated fails on a plaintext that holds a surrogate without its
    partner: Node encrypts U+FFFD in its place, and that is what
    decryption returns. *)
Lemma lone_surrogate_does_not_round_trip : ~ EncryptDecryptRoundTrips.
Proof.
  intros H.
  destruct (H nat (testEnv "rate limit" plainReply) 0 loneSurrogate zeroKey
              (testEnv_crypto_contract _ _) ltac:(discriminate) eq_refl eq_refl)
    as (enc & Henc & Hback).
  vm_compute in Henc. injection Henc as <-.
  specialize (Hback 0). vm_compute in Hback. discriminate Hback.
Qed.

(** ** Provider operations: failures and token refresh *)

Section ProviderFacts.
Context {W : Type} (env : Env W).

Lemma google_guarded_throw {A} label fixed (m : M W A) (w : W) e calls :
  result (m w) = Throw e ->
  events (m w) = calls ->
  RethrownAs (Google.guarded label fixed m w) label fixed e calls.
Proof.
  intros H <-. unfold RethrownAs, Google.guarded.
  rewrite (try_catch_throw _ _ _ H). unfold bind, emit, throw.
  cbn [result world events]. now rewrite app_nil_r.
Qed.

Lemma outlook_guarded_throw {A} label fixed (m : M W A) (w : W) e calls :
  result (m w) = Throw e ->
  events (m w) = calls ->
  RethrownAs (Outlook.guarded label fixed m w) label fixed e calls.
Proof. apply google_guarded_throw. Qed.

(** Whatever a guarded block throws, the caller only sees the fixed
    message. *)
Lemma guarded_only_throws_fixed {A} label fixed (m : M W A) (w : W) e' :
  result (Google.guarded label fixed m w) = Throw e' -> e' = Error fixed.
Proof.
  intros H. unfold Google.guarded in H.
  destruct (result (m w)) eqn:Hm.
  - rewrite (try_catch_ok _ _ _ Hm) in H. congruence.
  - rewrite (try_catch_throw _ _ _ Hm) in H. cbn in H. congruence.
Qed.

Lemma timeMinOrNow_events timeMin (w : W) :
  events (Google.timeMinOrNow env timeMin w) = [].
Proof.
  unfold Google.timeMinOrNow. destruct (truthy timeMin); [reflexivity|].
  now rewrite peek_run.
Qed.

Lemma withinLead_ltb lead expiry now :
  withinLead lead expiry now ->
  (match expiry with Some e => e | None => 0 end <? now + lead)%Z = true.
Proof. intros (e & -> & H). now apply Z.ltb_lt. Qed.

Lemma google_failures_are_fixed (w : W) e : GoogleFailuresAreFixed env w e.
Proof.
  unfold GoogleFailuresAreFixed. cbv zeta. repeat apply conj.
  - intros H. apply google_guarded_throw;
      erewrite bind_call_throw by exact H; reflexivity.
  - intros calendarId timeMin timeMax maxResults tmin Ht H.
    apply google_guarded_throw; rewrite (bind_ok _ _ _ Ht);
      cbn [result events]; cbv zeta;
      erewrite bind_call_throw by exact H; cbn [result events].
    + reflexivity.
    + now rewrite timeMinOrNow_events.
  - intros calendarId event H.
    apply google_guarded_throw; cbv zeta; rewrite call_run; [exact H|reflexivity].
  - intros calendarId eventId event H.
    apply google_guarded_throw; cbv zeta; rewrite call_run; [exact H|reflexivity].
  - intros calendarId eventId H.
    apply google_guarded_throw; cbv zeta; rewrite call_run; [exact H|reflexivity].
  - intros p Htruthy Hlead H. unfold Google.refreshTokenIfNeeded.
    rewrite Htruthy.
    apply google_guarded_throw;
      rewrite bind_peek, (withinLead_ltb Hlead);
      erewrite bind_call_throw by exact H; reflexivity.
Qed.

Lemma outlook_failures_are_fixed p (w : W) e : OutlookFailuresAreFixed env p w e.
Proof.
  unfold OutlookFailuresAreFixed. cbv zeta. repeat apply conj.
  - intros H. apply outlook_guarded_throw;
      erewrite bind_call_throw by exact H; reflexivity.
  - intros calendarId timeMin timeMax maxResults q -> H.
    apply outlook_guarded_throw; cbv zeta;
      erewrite bind_call_throw by exact H; reflexivity.
  - intros calendarId event H.
    apply outlook_guarded_throw; cbv zeta;
      erewrite bind_call_throw by exact H; reflexivity.
  - intros calendarId eventId event H.
    apply outlook_guarded_throw; cbv zeta;
      erewrite bind_call_throw by exact H; reflexivity.
  - intros calendarId eventId H.
    apply outlook_guarded_throw; rewrite call_run; [exact H|reflexivity].
  - intros Htruthy Hlead H. unfold Outlook.refreshTokenIfNeeded.
    rewrite Htruthy.
    apply outlook_guarded_throw; cbv zeta;
      rewrite bind_peek, (withinLead_ltb Hlead);
      erewrite bind_call_throw by exact H; reflexivity.
Qed.

(** A tool call that throws while it runs: the error is printed and its
    message becomes the tool result. *)
Lemma dispatchOne_failure tc args (w : W) e :
  JSON_parse env (fn_arguments tc) = Ok args ->
  result (executeTool env (fn_name tc) args w) = Throw e ->
  dispatchOne env tc w =
  mkOutcome
    (Ok (ToolMessage (tc_id tc)
           (Some (JObj [("success"%string, JBool false);
                        ("error"%string, JStr (error_message e))]))))
    (world (executeTool env (fn_name tc) args w))
    (events (executeTool env (fn_name tc) args w)
       ++ [ConsoleError ("Error executing " ++ fn_name tc ++ ":") e]).
Proof.
  intros Hparse Hthrow.
  unfold dispatchOne. rewrite Hparse, bind_lift_ok.
  match goal with
  | |- context [try_catch ?m ?h] =>
      assert (Hcatch : try_catch m h w =
                mkOutcome (Ok (Some (toolFailure e)))
                  (world (executeTool env (fn_name tc) args w))
                  (events (executeTool env (fn_name tc) args w)
                     ++ [ConsoleError ("Error executing " ++ fn_name tc ++ ":") e]))
  end.
  { rewrite (try_catch_throw _ _ _ Hthrow). unfold bind, emit, ret.
    cbn [result world events]. now rewrite app_nil_r. }
  rewrite (bind_ok _ _ w (a := Some (toolFailure e))) by now rewrite Hcatch.
  rewrite Hcatch. cbn [result world events ret]. now rewrite app_nil_r.
Qed.

(** One turn of each of the three loops over calendar requests. *)
Lemma insertEach_cons event rest (w : W) :
  insertEach env (event :: rest) w =
  let c := events_insert env "primary" event w in
  match fst c with
  | Ok data =>
      let o := insertEach env rest (snd c) in
      mkOutcome
        (match result o with
         | Ok created => Ok (data :: created)
         | Throw e => Throw e
         end)
        (world o) (Call_events_insert "primary" event :: events o)
  | Throw e => mkOutcome (Throw e) (snd c) [Call_events_insert "primary" event]
  end.
Proof.
  cbn [insertEach]. cbv zeta.
  destruct (fst (events_insert env "primary" event w)) as [data|e] eqn:Hc.
  - rewrite (bind_call_ok _ _ _ _ Hc). unfold bind, ret.
    destruct (result (insertEach env rest _)); cbn [result world events];
      now rewrite ?app_nil_r.
  - now rewrite (bind_call_throw _ _ _ _ Hc).
Qed.

Lemma patchEach_cons update rest (w : W) eventId eventData :
  splitUpdate update = Ok (eventId, eventData) ->
  patchEach env (update :: rest) w =
  let c := events_patch env "primary" eventId eventData w in
  match fst c with
  | Ok data =>
      let o := patchEach env rest (snd c) in
      mkOutcome
        (match result o with
         | Ok updated => Ok (data :: updated)
         | Throw e => Throw e
         end)
        (world o) (Call_events_patch "primary" eventId eventData :: events o)
  | Throw e =>
      mkOutcome (Throw e) (snd c) [Call_events_patch "primary" eventId eventData]
  end.
Proof.
  intros Hsplit. cbn [patchEach]. rewrite Hsplit, bind_lift_ok. cbn [fst snd].
  cbv zeta.
  destruct (fst (events_patch env "primary" eventId eventData w)) as [data|e] eqn:Hc.
  - rewrite (bind_call_ok _ _ _ _ Hc). unfold bind, ret.
    destruct (result (patchEach env rest _)); cbn [result world events];
      now rewrite ?app_nil_r.
  - now rewrite (bind_call_throw _ _ _ _ Hc).
Qed.

Lemma deleteEach_cons eventId rest (w : W) :
  deleteEach env (eventId :: rest) w =
  let c := events_delete env "primary" (Some eventId) w in
  match fst c with
  | Ok _ =>
      let o := deleteEach env rest (snd c) in
      mkOutcome (result o) (world o)
        (Call_events_delete "primary" (Some eventId) :: events o)
  | Throw e =>
      mkOutcome (Throw e) (snd c) [Call_events_delete "primary" (Some eventId)]
  end.
Proof.
  cbn [deleteEach]. cbv zeta.
  destruct (fst (events_delete env "primary" (Some eventId) w)) as [u|e] eqn:Hc.
  - now rewrite (bind_call_ok _ _ _ _ Hc).
  - now rewrite (bind_call_throw _ _ _ _ Hc).
Qed.

(** A request that Google refuses ends its loop with the error, wherever
    it stands in the list. *)
Lemma insertEach_throws pre : forall event rest (w : W) created e,
  result (insertEach env pre w) = Ok created ->
  fst (events_insert env "primary" event (world (insertEach env pre w))) = Throw e ->
  result (insertEach env (pre ++ event :: rest) w) = Throw e.
Proof.
  induction pre as [|a pre IH]; intros event rest w created e Hpre Hfail.
  - cbn [insertEach ret world] in Hfail. cbn [app].
    rewrite insertEach_cons. cbv zeta. now rewrite Hfail.
  - cbn [app]. rewrite insertEach_cons in Hpre, Hfail |- *. cbv zeta in *.
    destruct (fst (events_insert env "primary" a w)) as [data|e0]; [|discriminate].
    cbn [result world] in Hpre, Hfail |- *.
    destruct (result (insertEach env pre (snd (events_insert env "primary" a w))))
      as [l|e0] eqn:Hl; [|discriminate].
    now rewrite (IH event rest _ l e Hl Hfail).
Qed.

Lemma patchEach_throws pre : forall update rest (w : W) updated eventId eventData e,
  result (patchEach env pre w) = Ok updated ->
  splitUpdate update = Ok (eventId, eventData) ->
  fst (events_patch env "primary" eventId eventData (world (patchEach env pre w)))
    = Throw e ->
  result (patchEach env (pre ++ update :: rest) w) = Throw e.
Proof.
  induction pre as [|a pre IH];
    intros update rest w updated eventId eventData e Hpre Hsplit Hfail.
  - cbn [patchEach ret world] in Hfail. cbn [app].
    rewrite (@patchEach_cons update rest w _ _ Hsplit). cbv zeta. now rewrite Hfail.
  - cbn [app]. destruct (splitUpdate a) as [[aId aData]|e0] eqn:Ha.
    + rewrite (@patchEach_cons a pre w _ _ Ha) in Hpre, Hfail.
      rewrite (@patchEach_cons a (pre ++ update :: rest) w _ _ Ha). cbv zeta in *.
      destruct (fst (events_patch env "primary" aId aData w)) as [data|e0];
        [|discriminate].
      cbn [result world] in Hpre, Hfail |- *.
      destruct (result (patchEach env pre (snd (events_patch env "primary" aId aData w))))
        as [l|e0] eqn:Hl; [|discriminate].
      now rewrite (IH update rest _ l eventId eventData e Hl Hsplit Hfail).
    + cbn [patchEach] in Hpre. rewrite Ha in Hpre. discriminate.
Qed.

Lemma deleteEach_throws pre : forall eventId rest (w : W) e,
  result (deleteEach env pre w) = Ok tt ->
  fst (events_delete env "primary" (Some eventId) (world (deleteEach env pre w)))
    = Throw e ->
  result (deleteEach env (pre ++ eventId :: rest) w) = Throw e.
Proof.
  induction pre as [|a pre IH]; intros eventId rest w e Hpre Hfail.
  - cbn [deleteEach ret world] in Hfail. cbn [app].
    rewrite deleteEach_cons. cbv zeta. now rewrite Hfail.
  - cbn [app]. rewrite deleteEach_cons in Hpre, Hfail |- *. cbv zeta in *.
    destruct (fst (events_delete env "primary" (Some a) w)) as [u|e0]; [|discriminate].
    cbn [result world] in Hpre, Hfail |- *.
    now apply IH.
Qed.

Lemma dispatch_reports_the_original_message :
  DispatchReportsTheOriginalMessage env.
Proof.
  split; [|split].
  2: { intros args w e. split; [|split].
       - intros evs pre event rest created Hprop Hiter Hpre Hfail.
         unfold executeTool. cbn [String.eqb Ascii.eqb Bool.eqb].
         rewrite Hprop, bind_lift_ok, Hiter, bind_lift_ok.
         now rewrite (bind_throw _ _ _ (insertEach_throws pre event rest w Hpre Hfail)).
       - intros ups pre update rest updated eventId eventData
                Hprop Hiter Hpre Hsplit Hfail.
         unfold executeTool. cbn [String.eqb Ascii.eqb Bool.eqb].
         rewrite Hprop, bind_lift_ok, Hiter, bind_lift_ok.
         now rewrite (bind_throw _ _ _
                        (patchEach_throws pre update rest w Hpre Hsplit Hfail)).
       - intros ids pre eventId rest Hprop Hiter Hpre Hfail.
         unfold executeTool. cbn [String.eqb Ascii.eqb Bool.eqb].
         rewrite Hprop, bind_lift_ok, Hiter, bind_lift_ok.
         now rewrite (bind_throw _ _ _
                        (deleteEach_throws pre eventId rest w Hpre Hfail)). }
  - intros tc args w e Hparse Hthrow.
    rewrite (dispatchOne_failure tc w Hparse Hthrow). cbn [result events].
    split; [reflexivity|]. apply in_or_app. right. now left.
  - intros db req w k userModel history m w1 pre tc post args e msPre msPost
           Hft Hcalls Hpre w2 Hparse Hthrow w3 Hpost report.
    pose proof (dispatchOne_failure tc w2 Hparse Hthrow) as H1.
    fold w3 in H1. fold report in H1.
    assert (Hd : dispatch env (pre ++ tc :: post) w1 =
                 mkOutcome (Ok (msPre ++ report :: msPost))
                   (world (dispatch env post w3))
                   (events (dispatch env pre w1)
                      ++ (events (executeTool env (fn_name tc) args w2)
                            ++ [ConsoleError ("Error executing " ++ fn_name tc ++ ":") e])
                      ++ events (dispatch env post w3))).
    { rewrite (dispatch_app env pre (tc :: post) w1 Hpre). cbv zeta. fold w2.
      rewrite dispatch_cons. cbv zeta. rewrite H1. cbn [result world events].
      now rewrite Hpost. }
    assert (Hne : pre ++ tc :: post <> []) by (destruct pre; discriminate).
    pose proof (@respond_after_dispatch W env k userModel history m
                  (pre ++ tc :: post) w1 (msPre ++ report :: msPost) Hcalls Hne
                  ltac:(now rewrite Hd)) as Hr.
    cbv zeta in Hr.
    pose proof (chatTry_first_turn Hft) as Htry. cbv zeta in Htry.
    destruct Hft as (tokens & _ & _ & _ & _ & _ & _ & Htok & _).
    destruct (chat_events env db req w Htok) as (tail & Hev & Htail).
    exists tail. split; [|exact Htail].
    rewrite Hev, Htry. cbn [events]. rewrite Hr. cbn [events]. rewrite Hd.
    cbn [events app]. unfold firstRequest. f_equal.
    now rewrite <- !app_assoc.
Qed.

(** C2 (as amended): every operation of the two provider classes
    (listCalendars, getEvents, createEvent, updateEvent, deleteEvent,
    refreshTokenIfNeeded), when the request it sends fails with any error
    [e], logs [e] on the server console and throws an error whose message
    is a fixed string of that operation, so nothing of [e] reaches its
    caller.  The dispatch loop of the chat handler is different: it logs
    the error and reports it as the tool result
    [{success: false, error: e.message}].  When the loop reaches its end,
    the second completion request is sent, and its messages are the
    history, the assistant message and the tool results in the order of
    the tool calls, so that it carries the message of the original error
    to the language model. *)
Theorem provider_failures_fixed_dispatch_reports_message
    (p : OutlookCalendarProvider) (w : W) (e : JsError) :
  GoogleFailuresAreFixed env w e
  /\ OutlookFailuresAreFixed env p w e
  /\ DispatchReportsTheOriginalMessage env.
Proof.
  split; [apply google_failures_are_fixed|].
  split; [apply outlook_failures_are_fixed|].
  apply dispatch_reports_the_original_message.
Qed.

(** The guard [expiry && ...] reads a missing expiry, and the number 0, as
    no expiry: nothing is asked and the held tokens are returned. *)
Remark refresh_skipped_without_expiry (w : W)
    (g : GoogleCalendarProvider) (o : OutlookCalendarProvider) :
  truthy_num (expiry_date (credentials g)) = false ->
  truthy_num (expires_at (o_tokens o)) = false ->
  Google.refreshTokenIfNeeded env g w = mkOutcome (Ok (credentials g, g)) w []
  /\ Outlook.refreshTokenIfNeeded env o w = mkOutcome (Ok (o_tokens o, o)) w [].
Proof.
  intros Hg Ho. unfold Google.refreshTokenIfNeeded, Outlook.refreshTokenIfNeeded.
  rewrite Hg, Ho. split; reflexivity.
Qed.

Lemma refresh_call_recorded {A B} label fixed ev (r : W -> Result A * W)
    (k : A -> M W B) (w : W) :
  isRefreshRequest ev = true ->
  existsb isRefreshRequest
    (events (Google.guarded label fixed (bind (call ev r) k) w)) = true.
Proof.
  intros H. unfold Google.guarded, try_catch.
  destruct (fst (r w)) as [a|e] eqn:Hr.
  - rewrite (bind_call_ok _ _ _ _ Hr). cbn [result].
    destruct (result (k a (snd (r w)))); cbn [events existsb app]; now rewrite H.
  - rewrite (bind_call_throw _ _ _ _ Hr). cbn [result events existsb app].
    now rewrite H.
Qed.

(** The guard of both providers, [expiry && expiry < Date.now() + lead]. *)
Lemma dueForRefresh_guard lead expiry n :
  truthy_num expiry
  && (match expiry with Some e => e | None => 0 end <? n + lead)%Z = true
  <-> dueForRefresh lead expiry n.
Proof.
  destruct expiry as [e|]; cbn [truthy_num].
  - destruct (Z.eqb_spec e 0) as [->|Hnz]; cbn [negb andb].
    + split; [discriminate|]. intros (e' & [= <-] & Hnz & _). congruence.
    + rewrite Z.ltb_lt. split.
      * intros H. exists e. now repeat split.
      * now intros (e' & [= <-] & _ & H).
  - split; [discriminate|]. now intros (e' & [=] & _).
Qed.

(** C6 (as amended): each provider asks for new tokens exactly when a
    stored expiry other than 0 lies before the current time plus its
    lead, 60000 ms for Google and 300000 ms for Outlook; the guard reads
    the number 0 like a missing expiry.  Otherwise it returns the token
    set it holds, stays as it is, and sends nothing.  A refresh that is
    answered returns the new token set, which the provider holds from
    then on: Google's credentials as they come; for Outlook the access
    token of the answer, its refresh token or else the old one, and the
    expiry recomputed from the clock.  A refresh that is refused, or an
    answer of MSAL without an expiry date, is printed and thrown on as
    the fixed message of the operation. *)
Theorem refresh_exactly_within_lead_window (w : W)
    (g : GoogleCalendarProvider) (o : OutlookCalendarProvider) :
  let now := fst (Date_now env w) in
  let w1 := snd (Date_now env w) in
  let rg := Google.refreshTokenIfNeeded env g w in
  let ro := Outlook.refreshTokenIfNeeded env o w in
  let tokenRequest :=
    {| scopes := ["Calendars.ReadWrite"; "User.Read"]%string;
       req_refreshToken := o_refresh_token (o_tokens o) |} in
  (existsb isRefreshRequest (events rg) = true
     <-> dueForRefresh 60000 (expiry_date (credentials g)) now)
  /\ (~ dueForRefresh 60000 (expiry_date (credentials g)) now ->
      result rg = Ok (credentials g, g) /\ events rg = [])
  /\ (dueForRefresh 60000 (expiry_date (credentials g)) now ->
      forall creds w',
        refreshAccessToken env w1 = (Ok creds, w') ->
        rg = mkOutcome
               (Ok (creds, {| g_tokens := g_tokens g; credentials := creds |}))
               w' [Call_refreshAccessToken])
  /\ (existsb isRefreshRequest (events ro) = true
        <-> dueForRefresh 300000 (expires_at (o_tokens o)) now)
  /\ (~ dueForRefresh 300000 (expires_at (o_tokens o)) now ->
      result ro = Ok (o_tokens o, o) /\ events ro = [])
  /\ (dueForRefresh 300000 (expires_at (o_tokens o)) now ->
      forall response w' expires,
        acquireTokenByRefreshToken env tokenRequest w1 = (Ok response, w') ->
        expiresOn response = Some expires ->
        let now1 := fst (Date_now env w') in
        let now2 := fst (Date_now env (snd (Date_now env w'))) in
        let tokens' :=
          {| o_access_token := accessToken response;
             o_refresh_token :=
               if truthy (refreshToken response) then refreshToken response
               else o_refresh_token (o_tokens o);
             expires_at := Some (now1 + (expires - now2))%Z |} in
        ro = mkOutcome
               (Ok (tokens', {| o_tokens := tokens';
                                client_token := accessToken response |}))
               (snd (Date_now env (snd (Date_now env w'))))
               [Call_acquireTokenByRefreshToken tokenRequest])
  /\ (dueForRefresh 300000 (expires_at (o_tokens o)) now ->
      forall response w',
        acquireTokenByRefreshToken env tokenRequest w1 = (Ok response, w') ->
        expiresOn response = None ->
        ro = mkOutcome (Throw (Error "Failed to refresh Outlook OAuth token"))
               (snd (Date_now env w'))
               [Call_acquireTokenByRefreshToken tokenRequest;
                ConsoleError "Outlook Calendar: Error refreshing token:"
                  (Error "Cannot read properties of null (reading 'getTime')")])
  /\ (dueForRefresh 60000 (expiry_date (credentials g)) now ->
      forall e w',
        refreshAccessToken env w1 = (Throw e, w') ->
        rg = mkOutcome (Throw (Error "Failed to refresh Google OAuth token")) w'
               [Call_refreshAccessToken;
                ConsoleError "Google Calendar: Error refreshing token:" e])
  /\ (dueForRefresh 300000 (expires_at (o_tokens o)) now ->
      forall e w',
        acquireTokenByRefreshToken env tokenRequest w1 = (Throw e, w') ->
        ro = mkOutcome (Throw (Error "Failed to refresh Outlook OAuth token")) w'
               [Call_acquireTokenByRefreshToken tokenRequest;
                ConsoleError "Outlook Calendar: Error refreshing token:" e]).
Proof.
  intros now w1 rg ro tokenRequest. subst now w1 rg ro.
  split; [|split; [|split; [|split; [|split; [|split; [|split; [|split]]]]]]].
  7: { intros Hdue response w' Hanswer Hexpires.
       apply dueForRefresh_guard, andb_true_iff in Hdue as [Htruthy Hlt].
       unfold Outlook.refreshTokenIfNeeded, Outlook.guarded, try_catch. cbv zeta.
       rewrite Htruthy, bind_peek, Hlt. fold tokenRequest.
       rewrite (bind_call_ok _ _ _ _ (a := response)) by now rewrite Hanswer.
       rewrite Hanswer. cbn [snd result world events].
       rewrite !bind_peek, Hexpires. reflexivity. }
  7: { intros Hdue e w' Hanswer.
       apply dueForRefresh_guard, andb_true_iff in Hdue as [Htruthy Hlt].
       unfold Google.refreshTokenIfNeeded, Google.guarded, try_catch.
       rewrite Htruthy, bind_peek, Hlt.
       rewrite (bind_call_throw _ _ _ _ (e := e)) by now rewrite Hanswer.
       rewrite Hanswer. reflexivity. }
  7: { intros Hdue e w' Hanswer.
       apply dueForRefresh_guard, andb_true_iff in Hdue as [Htruthy Hlt].
       unfold Outlook.refreshTokenIfNeeded, Outlook.guarded, try_catch. cbv zeta.
       rewrite Htruthy, bind_peek, Hlt. fold tokenRequest.
       rewrite (bind_call_throw _ _ _ _ (e := e)) by now rewrite Hanswer.
       rewrite Hanswer. reflexivity. }
  - rewrite <- dueForRefresh_guard.
    unfold Google.refreshTokenIfNeeded, Google.guarded, try_catch.
    destruct (truthy_num (expiry_date (credentials g))); [|now cbn].
    rewrite bind_peek. cbn [andb].
    destruct (_ <? _)%Z; [|now cbn].
    split; [reflexivity|]. intros _. now apply refresh_call_recorded.
  - intros Hn.
    assert (Hb : truthy_num (expiry_date (credentials g))
                 && (match expiry_date (credentials g) with Some e => e | None => 0 end
                     <? fst (Date_now env w) + 60000)%Z = false).
    { destruct (_ && _) eqn:E; [|reflexivity]. exfalso. apply Hn.
      now apply dueForRefresh_guard. }
    unfold Google.refreshTokenIfNeeded, Google.guarded, try_catch.
    destruct (truthy_num (expiry_date (credentials g))); [|now cbn].
    rewrite bind_peek. cbn [andb] in Hb. rewrite Hb. now cbn.
  - intros Hdue creds w' Hanswer.
    apply dueForRefresh_guard, andb_true_iff in Hdue as [Htruthy Hlt].
    unfold Google.refreshTokenIfNeeded, Google.guarded, try_catch.
    rewrite Htruthy, bind_peek, Hlt.
    rewrite (bind_call_ok _ _ _ _ (a := creds)) by now rewrite Hanswer.
    rewrite Hanswer. reflexivity.
  - rewrite <- dueForRefresh_guard.
    unfold Outlook.refreshTokenIfNeeded, Outlook.guarded, try_catch.
    destruct (truthy_num (expires_at (o_tokens o))); [|now cbn].
    rewrite bind_peek. cbn [andb].
    destruct (_ <? _)%Z; [|now cbn].
    split; [reflexivity|]. intros _. cbv zeta. now apply refresh_call_recorded.
  - intros Hn.
    assert (Hb : truthy_num (expires_at (o_tokens o))
                 && (match expires_at (o_tokens o) with Some e => e | None => 0 end
                     <? fst (Date_now env w) + 300000)%Z = false).
    { destruct (_ && _) eqn:E; [|reflexivity]. exfalso. apply Hn.
      now apply dueForRefresh_guard. }
    unfold Outlook.refreshTokenIfNeeded, Outlook.guarded, try_catch.
    destruct (truthy_num (expires_at (o_tokens o))); [|now cbn].
    rewrite bind_peek. cbn [andb] in Hb. rewrite Hb. now cbn.
  - intros Hdue response w' expires Hanswer Hexpires now1 now2 tokens'.
    apply dueForRefresh_guard, andb_true_iff in Hdue as [Htruthy Hlt].
    unfold Outlook.refreshTokenIfNeeded, Outlook.guarded, try_catch. cbv zeta.
    rewrite Htruthy, bind_peek, Hlt. fold tokenRequest.
    rewrite (bind_call_ok _ _ _ _ (a := response)) by now rewrite Hanswer.
    rewrite Hanswer. cbn [snd result world events].
    rewrite !bind_peek, Hexpires, !bind_peek. reflexivity.
Qed.

End ProviderFacts.

Lemma provider_failures_fixed_dispatch_reports_message_witness :
  RethrownAs
    (Outlook.listCalendars (testEnv "token eyJ.old has expired" plainReply)
       outlookProvider 0)
    "Outlook Calendar: Error listing calendars:"
    "Failed to fetch calendars from Outlook"
    (Error "token eyJ.old has expired")
    [Call_graph_get_calendars (Some "eyJ.old"%string)]
  /\ In (Call_chat_completions_create
           {| apiKey := "A"; model := "anthropic/claude-3.5-sonnet";
              messages :=
                [SystemMessage "You are a helpful AI calendar assistant.";
                 ClientMessage (JObj [("role", JStr "user");
                                      ("content", JStr "Plan my week")]);
                 AssistantMsg twoCreates;
                 ToolMessage "call_1"
                   (Some (JObj [("success", JBool false);
                                ("error", JStr "quota exceeded for a@example.com")]));
                 ToolMessage "call_2"
                   (Some (JObj [("success", JBool true); ("created", JNum 2)]))];
              with_tools := false |})%string
        (events (chat (testEnv "quota exceeded for a@example.com" twoCreates)
                   testDb (chatRequest 1) 0)).
Proof.
  split.
  - apply (proj1 (proj1 (proj2
             (provider_failures_fixed_dispatch_reports_message
                (testEnv "token eyJ.old has expired" plainReply)
                outlookProvider 0 (Error "token eyJ.old has expired"))))).
    reflexivity.
  - destruct (proj2 (proj2 (proj2 (proj2
               (provider_failures_fixed_dispatch_reports_message
                  (testEnv "quota exceeded for a@example.com" twoCreates)
                  outlookProvider 0 (Error "quota exceeded for a@example.com")))))
               testDb (chatRequest 1) 0 "A" "anthropic/claude-3.5-sonnet"
               [SystemMessage "You are a helpful AI calendar assistant.";
                ClientMessage (JObj [("role", JStr "user");
                                     ("content", JStr "Plan my week")])]
               twoCreates 0 []
               {| tc_id := "call_1"; fn_name := "create_calendar_event";
                  fn_arguments := "create:standup" |}
               [{| tc_id := "call_2"; fn_name := "create_calendar_event";
                   fn_arguments := "create:retro" |}]
               (JObj [("events", JArr [JObj [("summary", JStr "Standup")]])])
               (Error "quota exceeded for a@example.com") []
               [ToolMessage "call_2"
                  (Some (JObj [("success", JBool true); ("created", JNum 2)]))]
               (testEnv_first_turn "quota exceeded for a@example.com" twoCreates)
               eq_refl eq_refl eq_refl eq_refl eq_refl)%string
      as (tail & Hev & _).
    rewrite Hev. cbn. right. right. right. right. right. left. reflexivity.
Defined.

(** C2 as stated fails on the dispatch loop: the same tool call reports
    two different results under two different provider errors. *)
Lemma dispatch_failure_carries_error_message : ~ DispatchReportsFixedMessage.
Proof.
  intros [fixed H].
  set (tc := {| tc_id := "call_1"; fn_name := "create_calendar_event";
                fn_arguments := "create:standup" |}%string).
  set (args := JObj [("events", JArr [JObj [("summary", JStr "Standup")]])]%string).
  pose proof (H nat (testEnv "rate limit" plainReply) tc args 0
                (Error "rate limit") eq_refl eq_refl) as Ha.
  pose proof (H nat (testEnv "invalid_grant for a@example.com" plainReply) tc args 0
                (Error "invalid_grant for a@example.com") eq_refl eq_refl) as Hb.
  vm_compute in Ha, Hb.
  injection Ha as Ha. injection Hb as Hb. rewrite <- Ha in Hb. discriminate Hb.
Qed.

Lemma refresh_exactly_within_lead_window_witness :
  Google.refreshTokenIfNeeded (testEnv "rate limit" plainReply)
    (Google.new someTokens) 0
  = mkOutcome
      (Ok ({| access_token := Some "ya29.new"%string;
              refresh_token := Some "1//r"%string;
              expiry_date := Some 1700003600000%Z |},
           {| g_tokens := someTokens;
              credentials := {| access_token := Some "ya29.new"%string;
                                refresh_token := Some "1//r"%string;
                                expiry_date := Some 1700003600000%Z |} |}))
      0 [Call_refreshAccessToken]
  /\ Outlook.refreshTokenIfNeeded (testEnv "rate limit" plainReply) outlookProvider 0
     = mkOutcome
         (Ok ({| o_access_token := Some "eyJ.new"%string;
                 o_refresh_token := Some "0.AAA"%string;
                 expires_at := Some 1700003600000%Z |},
              {| o_tokens := {| o_access_token := Some "eyJ.new"%string;
                                o_refresh_token := Some "0.AAA"%string;
                                expires_at := Some 1700003600000%Z |};
                 client_token := Some "eyJ.new"%string |}))
         0
         [Call_acquireTokenByRefreshToken
            {| scopes := ["Calendars.ReadWrite"; "User.Read"]%string;
               req_refreshToken := Some "0.AAA"%string |}].
Proof.
  pose proof (@refresh_exactly_within_lead_window nat
                (testEnv "rate limit" plainReply) 0
                (Google.new someTokens) outlookProvider) as H.
  cbv zeta in H.
  destruct H as (_ & _ & Hg & _ & _ & Ho & _).
  split.
  - apply Hg; [|reflexivity].
    exists 1700000030000%Z. split; [reflexivity|split; [discriminate|reflexivity]].
  - apply (Ho ltac:(exists 1700000200000%Z;
                    split; [reflexivity|split; [discriminate|reflexivity]])
              {| accessToken := Some "eyJ.new"%string; refreshToken := None;
                 expiresOn := Some 1700003600000%Z |} 0 1700003600000%Z);
      reflexivity.
Defined.

(** C6 as stated fails on the expiry 0: it lies before the current time
    plus the lead, and yet nothing is asked. *)
Lemma refresh_skipped_at_expiry_zero : ~ RefreshesExactlyWithinLead.
Proof.
  intros H.
  destruct (H nat (testEnv "rate limit" plainReply) 0 expiryZero outlookProvider)
    as [[_ Hg] _].
  assert (Hasked : existsb isRefreshRequest
                     (events (Google.refreshTokenIfNeeded
                                (testEnv "rate limit" plainReply) expiryZero 0))
                   = true).
  { apply Hg. exists 0%Z. split; reflexivity. }
  discriminate Hasked.
Qed.


(* ================================================================== *)
(** * Part III.  Further properties of the backend                     *)
(* ================================================================== *)

(** Beyond the statements of Part II: the key handling of
    [utils/encryption.js] and the start-up check, the invariants of
    [db/connection.js] over [db/schema.sql], the chat handler as a whole,
    the settings and calendar routes and the sign-in flow of [server.js],
    [ProviderFactory.js], and the profile functions of
    [GoogleCalendarProvider.js]. *)

(** ** utils/encryption.js *)

Lemma hex_encode_length l : String.length (hex_encode l) = 2 * List.length l.
Proof.
  induction l as [|b l IH]; [reflexivity|].
  cbn [hex_encode List.length]. unfold byteToHex. cbv zeta.
  cbn [append String.length]. rewrite IH. lia.
Qed.

Lemma allChars_byteToHex b s :
  allChars isLowerHex (byteToHex b ++ s) = allChars isLowerHex s.
Proof. destruct b; reflexivity. Qed.

Lemma hex_encode_lower l : allChars isLowerHex (hex_encode l) = true.
Proof.
  induction l as [|b l IH]; [reflexivity|].
  cbn [hex_encode]. now rewrite allChars_byteToHex.
Qed.

Lemma hex_decode_length_bound n : forall s,
  String.length s < n -> 2 * List.length (hex_decode s) <= String.length s.
Proof.
  induction n as [|n IH]; intros s Hn; [lia|].
  destruct s as [|a [|b rest]]; cbn [hex_decode List.length String.length]; try lia.
  destruct (hexValue a); cbn [List.length]; try lia.
  destruct (hexValue b); cbn [List.length]; try lia.
  destruct (Byte.of_N _); cbn [List.length]; try lia.
  cbn [String.length] in Hn. specialize (IH rest). lia.
Qed.

Lemma hex_decode_length s : 2 * List.length (hex_decode s) <= String.length s.
Proof. apply (hex_decode_length_bound (n := S (String.length s))). lia. Qed.

(** Decoding stops at a character that is no hexadecimal digit. *)
Lemma hex_decode_stops l c rest :
  hexValue c = None -> hex_decode (hex_encode l ++ String c rest) = l.
Proof.
  intros Hc. induction l as [|b l IH].
  - cbn [hex_encode append]. destruct rest; cbn [hex_decode]; [reflexivity|].
    now rewrite Hc.
  - cbn [hex_encode].
    change ((byteToHex b ++ hex_encode l) ++ String c rest)%string
      with (byteToHex b ++ (hex_encode l ++ String c rest))%string.
    now rewrite hex_decode_byte, IH.
Qed.

Lemma even_double n : Nat.even (2 * n) = true.
Proof. rewrite Nat.even_mul. reflexivity. Qed.

Section MoreEncryptionFacts.
Context {W : Type} (env : Env W).

Lemma getEncryptionKey_ok k :
  getEncryptionKey env = Ok k ->
  exists key, ENCRYPTION_KEY env = Some key /\ hex_decode key = k
              /\ List.length k = 32.
Proof.
  unfold getEncryptionKey. destruct (ENCRYPTION_KEY env) as [key|]; [|discriminate].
  destruct (key =? "")%string; [discriminate|].
  destruct (Nat.eqb_spec (List.length (hex_decode key)) KEY_LENGTH) as [Hlen|];
    [|discriminate].
  intros [= <-]. exists key. now repeat split.
Qed.

(** X1: the key is accepted exactly when [Buffer.from(key, 'hex')] has 32
    bytes.  An accepted key has at least 64 characters, but it need not be
    64 hexadecimal digits: what follows 64 digits is ignored as soon as it
    starts with a character that is no hexadecimal digit. *)
Theorem getEncryptionKey_accepts_32_decoded_bytes :
  (forall k, getEncryptionKey env = Ok k <->
             exists key, ENCRYPTION_KEY env = Some key /\ hex_decode key = k
                         /\ List.length k = 32)
  /\ (forall k key, getEncryptionKey env = Ok k -> ENCRYPTION_KEY env = Some key ->
        64 <= String.length key)
  /\ (forall l c rest,
        List.length l = 32 -> hexValue c = None ->
        ENCRYPTION_KEY env = Some (hex_encode l ++ String c rest)%string ->
        getEncryptionKey env = Ok l).
Proof.
  split; [|split].
  - intros k. split; [apply getEncryptionKey_ok|].
    intros (key & Hkey & <- & Hlen). now apply getEncryptionKey_valid.
  - intros k key Hok Hkey.
    destruct (getEncryptionKey_ok Hok) as (key' & Hkey' & <- & Hlen).
    assert (key' = key) as -> by congruence.
    pose proof (hex_decode_length key). lia.
  - intros l c rest Hlen Hc Hkey.
    pose proof (getEncryptionKey_valid _ Hkey) as H.
    rewrite (hex_decode_stops l c rest Hc) in H. now apply H.
Qed.

Lemma validateEncryptionKey_run (w : W) :
  validateEncryptionKey env w =
  match getEncryptionKey env with
  | Ok _ => mkOutcome (Ok true) w []
  | Throw error =>
      mkOutcome (Ok false) w
        [ConsoleErrorText "Encryption key validation failed:" (error_message error)]
  end.
Proof. unfold validateEncryptionKey. now destruct (getEncryptionKey env). Qed.

(** X2: the server goes on to listen exactly when ENCRYPTION_KEY decodes
    to 32 bytes; otherwise it exits with code 1, after printing why the
    key was refused.  Neither the validation nor the start-up throws, and
    neither touches the world. *)
Theorem startup_listens_iff_key_decodes_to_32_bytes (w : W) :
  (result (startup env w) = Ok Listening <->
   exists key, ENCRYPTION_KEY env = Some key
               /\ List.length (hex_decode key) = 32)
  /\ (result (startup env w) = Ok Listening \/ result (startup env w) = Ok (Exit 1))
  /\ world (startup env w) = w
  /\ (result (startup env w) = Ok Listening <->
      result (validateEncryptionKey env w) = Ok true)
  /\ (forall error, getEncryptionKey env = Throw error ->
        events (startup env w)
        = [ConsoleErrorText "Encryption key validation failed:" (error_message error);
           ConsoleErrorText
             "ERROR: Invalid or missing ENCRYPTION_KEY in environment variables" "";
           ConsoleErrorText "Generate a key with: openssl rand -hex 32" ""]).
Proof.
  unfold startup, bind. rewrite validateEncryptionKey_run.
  destruct (getEncryptionKey env) as [k|e] eqn:Hget; cbn.
  - destruct (getEncryptionKey_ok Hget) as (key & Hkey & <- & Hlen).
    split; [|split; [|split; [|split]]].
    + split; [eauto|reflexivity].
    + now left.
    + reflexivity.
    + split; reflexivity.
    + discriminate.
  - split; [|split; [|split; [|split]]].
    + split; [discriminate|]. intros (key & Hkey & Hlen).
      rewrite (getEncryptionKey_valid _ Hkey Hlen) in Hget. discriminate.
    + now right.
    + reflexivity.
    + split; discriminate.
    + now intros error [= <-].
Qed.

(** What [encryptApiKey] does, by cases on the key and the cipher. *)
Lemma encryptApiKey_run p (w : W) :
  truthy p = true ->
  encryptApiKey env p w =
  let ivBytes := fst (randomBytes env IV_LENGTH w) in
  let w' := snd (randomBytes env IV_LENGTH w) in
  match getEncryptionKey env with
  | Ok key =>
      match cipher env key ivBytes (utf8_encode (template p)) with
      | Ok bytes =>
          mkOutcome (Ok {| encrypted := hex_encode bytes; iv := hex_encode ivBytes |})
            w' []
      | Throw error =>
          mkOutcome (Throw (Error "Failed to encrypt API key")) w'
            [ConsoleErrorText "Encryption error:" (error_message error)]
      end
  | Throw error =>
      mkOutcome (Throw (Error "Failed to encrypt API key")) w'
        [ConsoleErrorText "Encryption error:" (error_message error)]
  end.
Proof.
  intros Hp. unfold encryptApiKey. rewrite Hp. unfold try_catch.
  rewrite bind_peek. cbv zeta.
  destruct (getEncryptionKey env) as [key|e]; [|reflexivity].
  rewrite bind_lift_ok.
  destruct (cipher env key _ _) as [bytes|e]; [|reflexivity].
  rewrite bind_lift_ok. reflexivity.
Qed.

Lemma decryptApiKey_run a b (w : W) :
  truthy a && truthy b = true ->
  decryptApiKey env a b w =
  match getEncryptionKey env with
  | Ok key =>
      match decipher env key (hex_decode (template b)) (hex_decode (template a)) with
      | Ok bytes => mkOutcome (Ok (utf8_decode bytes)) w []
      | Throw error =>
          mkOutcome (Throw (Error "Failed to decrypt API key")) w
            [ConsoleErrorText "Decryption error:" (error_message error)]
      end
  | Throw error =>
      mkOutcome (Throw (Error "Failed to decrypt API key")) w
        [ConsoleErrorText "Decryption error:" (error_message error)]
  end.
Proof.
  intros Hp. unfold decryptApiKey. rewrite Hp. unfold try_catch. cbv zeta.
  destruct (getEncryptionKey env) as [key|e]; [|reflexivity].
  rewrite bind_lift_ok.
  destruct (decipher env key _ _) as [bytes|e]; [|reflexivity].
  rewrite bind_lift_ok. reflexivity.
Qed.

(** X3: what [encryptApiKey] returns is made of lower-case hexadecimal
    digits only: an IV of exactly 32 of them, which fits the VARCHAR(32)
    column, and a ciphertext of even length.  A successful encryption
    prints nothing, and only a non-empty plaintext is ever encrypted. *)
Theorem encryptApiKey_returns_hex (w : W) p enc :
  (forall n w0, List.length (fst (randomBytes env n w0)) = n) ->
  result (encryptApiKey env p w) = Ok enc ->
  String.length (iv enc) = 32
  /\ allChars isLowerHex (iv enc) = true
  /\ fitsVarchar 32 (Some (iv enc)) = true
  /\ allChars isLowerHex (encrypted enc) = true
  /\ Nat.even (String.length (encrypted enc)) = true
  /\ events (encryptApiKey env p w) = []
  /\ truthy p = true.
Proof.
  intros Hrand Hok.
  destruct (truthy p) eqn:Hp; [|unfold encryptApiKey in Hok; now rewrite Hp in Hok].
  rewrite (encryptApiKey_run _ _ Hp) in *. cbv zeta in *.
  destruct (getEncryptionKey env) as [key|]; [|discriminate].
  destruct (cipher env key _ _) as [bytes|]; [|discriminate].
  cbn in Hok. injection Hok as <-. cbn [iv encrypted events fitsVarchar].
  rewrite !hex_encode_length, !hex_encode_lower, Hrand, even_double.
  repeat split; reflexivity.
Qed.

(** X4: the only errors that leave [encryptApiKey] and [decryptApiKey]
    are their own: 'Cannot encrypt empty value' and 'Cannot decrypt:
    missing encrypted data or IV' for a missing input, thrown before
    anything is done, and 'Failed to encrypt API key' and 'Failed to
    decrypt API key' for whatever went wrong inside, whose message is
    printed on the console and nowhere else.  Decryption never touches
    the world. *)
Theorem encryption_errors_are_fixed (w : W) :
  (forall p e,
     result (encryptApiKey env p w) = Throw e ->
     (truthy p = false
      /\ encryptApiKey env p w
         = mkOutcome (Throw (Error "Cannot encrypt empty value")) w [])
     \/ (truthy p = true
         /\ e = Error "Failed to encrypt API key"
         /\ exists cause,
              events (encryptApiKey env p w)
              = [ConsoleErrorText "Encryption error:" cause]))
  /\ (forall a b e,
        result (decryptApiKey env a b w) = Throw e ->
        (truthy a && truthy b = false
         /\ decryptApiKey env a b w
            = mkOutcome (Throw (Error "Cannot decrypt: missing encrypted data or IV")) w [])
        \/ (truthy a && truthy b = true
            /\ e = Error "Failed to decrypt API key"
            /\ exists cause,
                 decryptApiKey env a b w
                 = mkOutcome (Throw e) w [ConsoleErrorText "Decryption error:" cause]))
  /\ (forall a b, world (decryptApiKey env a b w) = w).
Proof.
  split; [|split].
  - intros p e Hthrow. destruct (truthy p) eqn:Hp.
    + right. split; [reflexivity|].
      rewrite (encryptApiKey_run _ _ Hp) in *. cbv zeta in *.
      destruct (getEncryptionKey env) as [key|e0].
      * destruct (cipher env key _ _) as [bytes|e0]; [discriminate|].
        cbn in *. split; [congruence|eauto].
      * cbn in *. split; [congruence|eauto].
    + left. split; [reflexivity|]. unfold encryptApiKey. now rewrite Hp.
  - intros a b e Hthrow. destruct (truthy a && truthy b) eqn:Hp.
    + right. split; [reflexivity|].
      rewrite (decryptApiKey_run _ _ _ Hp) in *.
      destruct (getEncryptionKey env) as [key|e0].
      * destruct (decipher env key _ _) as [bytes|e0]; [discriminate|].
        cbn in *. injection Hthrow as <-. split; [reflexivity|eauto].
      * cbn in *. injection Hthrow as <-. split; [reflexivity|eauto].
    + left. split; [reflexivity|]. unfold decryptApiKey. now rewrite Hp.
  - intros a b. destruct (truthy a && truthy b) eqn:Hp.
    + rewrite (decryptApiKey_run _ _ _ Hp).
      destruct (getEncryptionKey env) as [key|e0]; [|reflexivity].
      now destruct (decipher env key _ _).
    + unfold decryptApiKey. now rewrite Hp.
Qed.


End MoreEncryptionFacts.

Lemma encryptApiKey_returns_hex_witness :
  String.length "00000000000000000000000000000000" = 32
  /\ allChars isLowerHex "00000000000000000000000000000000" = true
  /\ fitsVarchar 32 (Some "00000000000000000000000000000000"%string) = true
  /\ allChars isLowerHex "01736b2d6f72" = true
  /\ Nat.even (String.length "01736b2d6f72") = true
  /\ events (encryptApiKey (testEnv "rate limit" plainReply) (Some "sk-or"%string) 0) = []
  /\ truthy (Some "sk-or"%string) = true.
Proof.
  apply (@encryptApiKey_returns_hex nat (testEnv "rate limit" plainReply) 0
           (Some "sk-or"%string)
           {| encrypted := "01736b2d6f72"; iv := "00000000000000000000000000000000" |}).
  - intros n w0. apply repeat_length.
  - reflexivity.
Defined.

(** ** db/connection.js *)

Lemma rollback_same db : rollback db db = db.
Proof. now destruct db. Qed.

Lemma existsb_eqb_not_in {A} (f : A -> nat) n l :
  existsb (fun x => Nat.eqb (f x) n) l = false -> ~ In n (map f l).
Proof.
  induction l as [|a l IH]; cbn; [tauto|].
  intros H. apply orb_false_iff in H as [Ha Hl]. apply Nat.eqb_neq in Ha.
  intros [E|Hin]; [congruence|now apply IH].
Qed.

Lemma NoDup_snoc {A} (l : list A) x : NoDup l -> ~ In x l -> NoDup (l ++ [x]).
Proof.
  intros Hl Hx. induction Hl as [|a l Ha Hl IH]; cbn.
  - constructor; [tauto|constructor].
  - constructor.
    + rewrite in_app_iff. cbn. intros [H|[H|[]]]; [tauto|].
      apply Hx. now left.
    + apply IH. intros H. apply Hx. now right.
Qed.

Ltac rolled_back :=
  left; eexists; cbn; rewrite ?rollback_same; cbn;
  repeat split; (reflexivity || lia || easy).

(** The three ways a call of findOrCreateUser ends: rolled back, with
    both tables as they were; the existing rows updated; or a user and
    its settings row inserted, past the uniqueness checks of the two
    tables. *)
Lemma findOrCreateUser_cases googleId email name now db :
  let o := findOrCreateUser googleId email name now db in
  (exists error,
      db_result o = Throw error
      /\ users (db_after o) = users db
      /\ user_settings (db_after o) = user_settings db
      /\ users_id_seq db <= users_id_seq (db_after o)
      /\ user_settings_id_seq db <= user_settings_id_seq (db_after o)
      /\ (selectUsers googleId db = [] ->
          users_id_seq (db_after o) = S (users_id_seq db))
      /\ hd_error (statements o) = Some BEGIN
      /\ lastStatement (statements o) = Some ROLLBACK)
  \/ (exists e u rest,
         email = Some e
         /\ selectUsers googleId db = u :: rest
         /\ db_result o = Ok (Some (setProfile e name now u))
         /\ db_after o = withUsers (updatedUsers googleId e name now db) db
         /\ statements o
            = [BEGIN; SELECT_users googleId; UPDATE_users email name googleId; COMMIT])
  \/ (exists g e,
         googleId = Some g /\ email = Some e
         /\ selectUsers googleId db = []
         /\ ~ In (S (users_id_seq db)) (map u_id (users db))
         /\ ~ In (S (user_settings_id_seq db)) (map s_id (user_settings db))
         /\ ~ In (S (users_id_seq db)) (map user_id (user_settings db))
         /\ db_result o = Ok (Some (newUser g e name now db))
         /\ db_after o
            = {| users := users db ++ [newUser g e name now db];
                 user_settings := user_settings db ++ [newSettings now db];
                 users_id_seq := S (users_id_seq db);
                 user_settings_id_seq := S (user_settings_id_seq db) |}
         /\ statements o
            = [BEGIN; SELECT_users googleId; INSERT_users googleId email name;
               INSERT_user_settings (S (users_id_seq db)); COMMIT]).
Proof.
  intros o. subst o. unfold findOrCreateUser.
  destruct (selectUsers googleId db) as [|u rest] eqn:Hsel.
  - unfold insertUser.
    destruct (negb (fitsVarchar _ _ && _ && _)); [rolled_back|].
    destruct email as [e|]; [|rolled_back].
    destruct googleId as [g|]; [|rolled_back].
    destruct (existsb _ (users db) || existsb _ (users db)) eqn:Huniq; [rolled_back|].
    unfold insertUserSettings.
    cbn [users user_settings users_id_seq user_settings_id_seq u_id].
    destruct (existsb _ (user_settings db) || existsb _ (user_settings db)) eqn:Hsuniq;
      [rolled_back|].
    destruct (negb (existsb _ _)); [rolled_back|].
    right. right. exists g, e.
    apply orb_false_iff in Huniq as [Hid _].
    apply orb_false_iff in Hsuniq as [Hsid Huid].
    repeat split; try reflexivity; now apply existsb_eqb_not_in.
  - unfold updateUsers. rewrite Hsel.
    destruct (negb (fitsVarchar _ _ && _)); [rolled_back|].
    destruct email as [e|]; [|rolled_back].
    right. left. exists e, u, rest.
    rewrite filter_setProfile. unfold selectUsers in Hsel. rewrite Hsel.
    repeat split; reflexivity.
Qed.

Lemma Forall_le_trans {A} (f : A -> nat) n m l :
  n <= m -> Forall (fun x => f x <= n) l -> Forall (fun x => f x <= m) l.
Proof. intros Hnm. apply Forall_impl. intros a Ha. lia. Qed.

Lemma updatedUsers_ids googleId e name now db :
  map u_id (updatedUsers googleId e name now db) = map u_id (users db).
Proof.
  unfold updatedUsers. rewrite map_map. apply map_ext.
  intros u. now destruct (hasGoogleId googleId u).
Qed.

Lemma updatedUsers_count g googleId e name now db :
  List.length (filter (hasGoogleId g) (updatedUsers googleId e name now db))
  = List.length (filter (hasGoogleId g) (users db)).
Proof.
  unfold updatedUsers. induction (users db) as [|u l IH]; [reflexivity|].
  cbn [map filter]. rewrite hasGoogleId_setProfile.
  destruct (hasGoogleId g u); cbn [List.length]; now rewrite IH.
Qed.

Lemma user_ids_in (l : list UserRow) n :
  In n (map u_id l) <-> exists u, In u l /\ u_id u = n.
Proof.
  rewrite in_map_iff. split; intros (u & A & B); exists u; tauto.
Qed.

Lemma settings_fk_by_ids (us : list UserRow) (ss : list SettingsRow) :
  Forall (fun s => exists u, In u us /\ u_id u = user_id s) ss
  <-> Forall (fun n => In n (map u_id us)) (map user_id ss).
Proof.
  rewrite Forall_map. split; apply Forall_impl; intros s; apply user_ids_in.
Qed.

(** Both invariants only look at the keys. *)
Lemma SchemaOk_same_keys db db' : SameKeys db db' -> SchemaOk db -> SchemaOk db'.
Proof.
  intros (Hu & Hseq & Hsseq & Hsid & Huid) [H1 H2 H3]. split.
  - now rewrite Hu, Hseq.
  - rewrite Hsseq.
    apply (proj1 (Forall_map s_id (fun n => n <= user_settings_id_seq db)
                    (user_settings db'))).
    rewrite Hsid.
    exact (proj2 (Forall_map s_id (fun n => n <= user_settings_id_seq db) _) H2).
  - apply settings_fk_by_ids. rewrite Hu, Huid. now apply settings_fk_by_ids.
Qed.

Lemma UniqueKeys_same_keys db db' : SameKeys db db' -> UniqueKeys db -> UniqueKeys db'.
Proof.
  intros (Hu & Hseq & Hsseq & Hsid & Huid) [H1 H2 H3 H4]. split.
  - now rewrite Hu.
  - intros g. unfold countUsers, selectUsers. rewrite Hu. apply H2.
  - now rewrite Hsid.
  - now rewrite Huid.
Qed.

Lemma settings_map_same_keys (f : SettingsRow -> SettingsRow)
    (test : SettingsRow -> bool) db :
  (forall s, s_id (f s) = s_id s) ->
  (forall s, user_id (f s) = user_id s) ->
  SameKeys db (withSettings (map (fun s => if test s then f s else s) (user_settings db)) db).
Proof.
  intros Hs Hu. unfold SameKeys, withSettings. cbn.
  repeat split; rewrite map_map; apply map_ext; intros s; now destruct (test s).
Qed.

Lemma SameKeys_refl db : SameKeys db db.
Proof. unfold SameKeys. tauto. Qed.

Lemma updateUserSettings_same_keys userId k m ivHex now db :
  SameKeys db (db_after (updateUserSettings userId k m ivHex now db)).
Proof.
  unfold updateUserSettings.
  destruct (filter _ _); [apply SameKeys_refl|].
  destruct (negb _); [apply SameKeys_refl|].
  now apply settings_map_same_keys.
Qed.

Lemma deleteUserApiKey_same_keys userId now db :
  SameKeys db (db_after (deleteUserApiKey userId now db)).
Proof. unfold deleteUserApiKey. now apply settings_map_same_keys. Qed.

Lemma findOrCreateUser_schema_ok googleId email name now db :
  SchemaOk db -> SchemaOk (db_after (findOrCreateUser googleId email name now db)).
Proof.
  intros [H1 H2 H3].
  destruct (findOrCreateUser_cases googleId email name now db)
    as [(error & _ & Hu & Hs & Hseq & Hsseq & _)
       |[(e & u & rest & _ & _ & _ & -> & _)
        |(g & e & _ & _ & _ & _ & _ & _ & _ & -> & _)]].
  - split.
    + rewrite Hu. now apply (Forall_le_trans _ Hseq).
    + rewrite Hs. now apply (Forall_le_trans _ Hsseq).
    + now rewrite Hu, Hs.
  - split; cbn [withUsers users user_settings users_id_seq user_settings_id_seq].
    + apply (proj1 (Forall_map u_id (fun n => n <= users_id_seq db)
                      (updatedUsers googleId e name now db))).
      rewrite updatedUsers_ids.
      exact (proj2 (Forall_map u_id (fun n => n <= users_id_seq db) _) H1).
    + exact H2.
    + apply settings_fk_by_ids. rewrite updatedUsers_ids. now apply settings_fk_by_ids.
  - split; cbn [users user_settings users_id_seq user_settings_id_seq].
    + apply Forall_app. split.
      * apply (Forall_le_trans _ (Nat.le_succ_diag_r _)), H1.
      * repeat constructor.
    + apply Forall_app. split.
      * apply (Forall_le_trans _ (Nat.le_succ_diag_r _)), H2.
      * repeat constructor.
    + apply Forall_app. split.
      * revert H3. apply Forall_impl. intros s (u & Hin & Hid).
        exists u. split; [|exact Hid]. apply in_or_app. now left.
      * constructor; [|constructor]. exists (newUser g e name now db).
        split; [|reflexivity]. apply in_or_app. right. now left.
Qed.

Lemma findOrCreateUser_unique_keys googleId email name now db :
  UniqueKeys db -> UniqueKeys (db_after (findOrCreateUser googleId email name now db)).
Proof.
  intros [H1 H2 H3 H4].
  destruct (findOrCreateUser_cases googleId email name now db)
    as [(error & _ & Hu & Hs & _)
       |[(e & u & rest & _ & _ & _ & -> & _)
        |(g & e & -> & _ & Hsel & Hid & Hsid & Huid & _ & -> & _)]].
  - split.
    + now rewrite Hu.
    + intros g. unfold countUsers, selectUsers. rewrite Hu. apply H2.
    + now rewrite Hs.
    + now rewrite Hs.
  - split; cbn [withUsers users user_settings].
    + now rewrite updatedUsers_ids.
    + intros g. unfold countUsers, selectUsers. cbn [withUsers users].
      rewrite updatedUsers_count. apply H2.
    + exact H3.
    + exact H4.
  - split; cbn [users user_settings].
    + rewrite map_app. now apply NoDup_snoc.
    + intros g'. unfold countUsers, selectUsers. cbn [users].
      rewrite filter_app, length_app. cbn [filter hasGoogleId newUser google_id optStringEqb].
      destruct (String.eqb_spec g g') as [<-|Hne]; cbn [List.length].
      * unfold selectUsers in Hsel. rewrite Hsel. cbn. lia.
      * specialize (H2 g'). unfold countUsers, selectUsers in H2. lia.
    + rewrite map_app. now apply NoDup_snoc.
    + rewrite map_app. now apply NoDup_snoc.
Qed.

(** X5: findOrCreateUser keeps the database within its schema, whatever
    it is called with and however it ends: ids stay at or below their
    sequences, every settings row belongs to a user, and ids, Google ids
    and the user of a settings row stay unique.  The uniqueness checks
    that the INSERTs make are enough for that. *)
Theorem findOrCreateUser_keeps_schema googleId email name now db :
  SchemaOk db ->
  UniqueKeys db ->
  SchemaOk (db_after (findOrCreateUser googleId email name now db))
  /\ UniqueKeys (db_after (findOrCreateUser googleId email name now db)).
Proof.
  intros Hs Hu. split.
  - now apply findOrCreateUser_schema_ok.
  - now apply findOrCreateUser_unique_keys.
Qed.

(** X6: updateUserSettings and deleteUserApiKey never touch the users
    table or a sequence, never add or remove a settings row, and never
    change the id or the user of one; so they keep the database within
    its schema, and the rows of the other users are exactly as before. *)
Theorem settings_updates_keep_keys userId k m ivHex now db :
  let upd := db_after (updateUserSettings userId k m ivHex now db) in
  let del := db_after (deleteUserApiKey userId now db) in
  SameKeys db upd /\ SameKeys db del
  /\ (SchemaOk db -> SchemaOk upd /\ SchemaOk del)
  /\ (UniqueKeys db -> UniqueKeys upd /\ UniqueKeys del)
  /\ filter (fun s => negb (ofUser userId s)) (user_settings upd)
     = filter (fun s => negb (ofUser userId s)) (user_settings db)
  /\ filter (fun s => negb (ofUser userId s)) (user_settings del)
     = filter (fun s => negb (ofUser userId s)) (user_settings db).
Proof.
  intros upd del.
  pose proof (updateUserSettings_same_keys userId k m ivHex now db) as Hupd.
  pose proof (deleteUserApiKey_same_keys userId now db) as Hdel.
  assert (Hothers : forall f : SettingsRow -> SettingsRow,
             (forall s, user_id (f s) = user_id s) ->
             forall l,
               filter (fun s => negb (ofUser userId s))
                 (map (fun s => if ofUser userId s then f s else s) l)
               = filter (fun s => negb (ofUser userId s)) l).
  { intros f Hf l. induction l as [|s l IH]; [reflexivity|]. cbn [map filter].
    destruct (ofUser userId s) eqn:E.
    - unfold ofUser in *. rewrite Hf, E. cbn [negb]. exact IH.
    - rewrite E. cbn [negb]. now rewrite IH. }
  split; [exact Hupd|]. split; [exact Hdel|].
  split; [intros H; split; eapply SchemaOk_same_keys; eassumption|].
  split; [intros H; split; eapply UniqueKeys_same_keys; eassumption|].
  split.
  - subst upd. unfold updateUserSettings.
    destruct (filter (ofUser userId) _); [reflexivity|].
    destruct (negb _); [reflexivity|].
    cbn [db_after withSettings user_settings]. now apply Hothers.
  - subst del. unfold deleteUserApiKey.
    cbn [db_after withSettings user_settings]. now apply Hothers.
Qed.


(** X8: when findOrCreateUser returns, it returns a row that is now in
    the users table and that carries the Google id, the email and the
    name it was called with, stamped with the time of the call. *)
Theorem findOrCreateUser_returns_the_stored_row googleId email name now db r :
  db_result (findOrCreateUser googleId email name now db) = Ok r ->
  exists u,
    r = Some u
    /\ In u (users (db_after (findOrCreateUser googleId email name now db)))
    /\ hasGoogleId googleId u = true
    /\ email = Some (u_email u)
    /\ u_name u = name
    /\ u_updated_at u = now.
Proof.
  destruct (findOrCreateUser_cases googleId email name now db)
    as [(error & Hr & _)
       |[(e & u & rest & -> & Hsel & Hr & Hdb & _)
        |(g & e & -> & -> & _ & _ & _ & _ & Hr & Hdb & _)]];
    rewrite Hr; [discriminate| |]; intros [= <-]; rewrite Hdb.
  - assert (Hin : In u (filter (hasGoogleId googleId) (users db))).
    { unfold selectUsers in Hsel. rewrite Hsel. now left. }
    apply filter_In in Hin as [Hin Hg].
    exists (setProfile e name now u). repeat split.
    + cbn [withUsers users]. unfold updatedUsers. apply in_map_iff.
      exists u. now rewrite Hg.
    + exact Hg.
  - exists (newUser g e name now db). repeat split.
    + cbn [users]. apply in_or_app. right. now left.
    + cbn. apply String.eqb_refl.
Qed.

Lemma hd_error_app_some {A} (l l' : list A) x :
  hd_error l = Some x -> hd_error (l ++ l') = Some x.
Proof. now destruct l. Qed.

(** X9: signing in never touches what is stored for any user: the
    settings rows that were there stay, in place and unchanged (the stored
    key of the user who signs in included), at most one empty row is
    added, no user is removed, and the rows of the users with another
    Google id are as before. *)
Theorem findOrCreateUser_keeps_stored_settings googleId email name now db :
  let db' := db_after (findOrCreateUser googleId email name now db) in
  (exists added,
      user_settings db' = user_settings db ++ added
      /\ (added = [] \/ added = [newSettings now db]))
  /\ (forall userId row,
        getUserSettings userId db = Some row -> getUserSettings userId db' = Some row)
  /\ List.length (users db) <= List.length (users db')
  /\ (forall u, In u (users db) -> hasGoogleId googleId u = false -> In u (users db')).
Proof.
  intros db'.
  destruct (findOrCreateUser_cases googleId email name now db)
    as [(error & _ & Hu & Hs & _)
       |[(e & u & rest & _ & _ & _ & Hdb & _)
        |(g & e & _ & _ & _ & _ & _ & _ & _ & Hdb & _)]]; fold db' in Hdb || idtac.
  - fold db' in Hu, Hs. unfold getUserSettings. rewrite Hu, Hs.
    split; [|split; [|split]]; try tauto.
    + exists []. rewrite app_nil_r. tauto.
    + lia.
  - unfold getUserSettings. rewrite Hdb. cbn [withUsers users user_settings].
    split; [|split; [|split]].
    + exists []. rewrite app_nil_r. tauto.
    + tauto.
    + unfold updatedUsers. now rewrite length_map.
    + intros u0 Hin Hg. unfold updatedUsers. apply in_map_iff.
      exists u0. now rewrite Hg.
  - unfold getUserSettings. rewrite Hdb. cbn [users user_settings].
    split; [|split; [|split]].
    + exists [newSettings now db]. tauto.
    + intros userId row. rewrite filter_app. apply hd_error_app_some.
    + rewrite length_app. lia.
    + intros u0 Hin _. apply in_or_app. now left.
Qed.

(** What [getUserSettings] finds after an UPDATE of the rows of a user. *)
Lemma getUserSettings_after_map (f : SettingsRow -> SettingsRow) userId userId' db :
  (forall s, user_id (f s) = user_id s) ->
  getUserSettings userId'
    (withSettings (map (fun s => if ofUser userId s then f s else s) (user_settings db)) db)
  = if Nat.eqb userId' userId
    then option_map f (getUserSettings userId db)
    else getUserSettings userId' db.
Proof.
  intros Hf. unfold getUserSettings, withSettings, ofUser. cbn [user_settings].
  induction (user_settings db) as [|s l IH].
  - cbn. now destruct (Nat.eqb userId' userId).
  - cbn [map filter].
    destruct (Nat.eqb (user_id s) userId) eqn:Es; rewrite ?Hf;
      destruct (Nat.eqb (user_id s) userId') eqn:Es';
      destruct (Nat.eqb userId' userId) eqn:E;
      cbn [hd_error option_map];
      first [ reflexivity
            | exact IH
            | exfalso;
              repeat match goal with
                     | H : Nat.eqb _ _ = true |- _ => apply Nat.eqb_eq in H
                     | H : Nat.eqb _ _ = false |- _ => apply Nat.eqb_neq in H
                     end; congruence ].
Qed.

Lemma getUserSettings_none userId db :
  getUserSettings userId db = None <-> filter (ofUser userId) (user_settings db) = [].
Proof.
  unfold getUserSettings.
  change (fun s => Nat.eqb (user_id s) userId) with (ofUser userId).
  destruct (filter (ofUser userId) (user_settings db)); cbn; split; congruence.
Qed.



(** X11: deleteUserApiKey returns the row that getUserSettings reads
    afterwards: the old row with the key and the IV cleared and the model
    preference kept.  What getUserSettings reads for any other user is
    unchanged, and deleting again changes nothing but the time stamp. *)
Theorem deleteUserApiKey_then_getUserSettings userId now db :
  let o := deleteUserApiKey userId now db in
  db_result o = Ok (getUserSettings userId (db_after o))
  /\ getUserSettings userId (db_after o)
     = option_map (clearKey now) (getUserSettings userId db)
  /\ (forall other, other <> userId ->
        getUserSettings other (db_after o) = getUserSettings other db)
  /\ (forall row, getUserSettings userId (db_after o) = Some row ->
        openrouter_api_key_encrypted row = None /\ encryption_iv row = None
        /\ exists old, getUserSettings userId db = Some old
                       /\ openrouter_model row = openrouter_model old)
  /\ (forall later,
        db_after (deleteUserApiKey userId later (db_after o))
        = db_after (deleteUserApiKey userId later db)).
Proof.
  intros o. subst o. unfold deleteUserApiKey. cbn [db_result db_after].
  pose proof (fun other =>
                getUserSettings_after_map (clearKey now) userId other db
                  (fun _ => eq_refl)) as H.
  split; [|split; [|split; [|split]]].
  - unfold getUserSettings, withSettings. cbn [user_settings]. reflexivity.
  - rewrite H, Nat.eqb_refl. reflexivity.
  - intros other Hne. rewrite H. now destruct (Nat.eqb_spec other userId).
  - intros row. rewrite H, Nat.eqb_refl.
    destruct (getUserSettings userId db) as [old|]; [|discriminate].
    cbn [option_map]. intros [= <-]. cbn. eauto.
  - intros later. unfold withSettings. cbn [users user_settings users_id_seq
                                            user_settings_id_seq].
    f_equal. rewrite map_map. apply map_ext. intros s.
    destruct (ofUser userId s) eqn:E.
    + unfold ofUser in *. cbn [clearKey user_id]. now rewrite E.
    + now rewrite E.
Qed.

Lemma testDb_unique_keys : UniqueKeys testDb.
Proof.
  split.
  - cbn. repeat constructor; cbn; intuition discriminate.
  - intros g. unfold countUsers, selectUsers, testDb.
    cbn [users filter hasGoogleId google_id optStringEqb].
    destruct (String.eqb_spec "g-1" g) as [E1|E1];
      destruct (String.eqb_spec "g-2" g) as [E2|E2]; cbn [List.length]; try lia.
    congruence.
  - cbn. repeat constructor; cbn; intuition discriminate.
  - cbn. repeat constructor; cbn; intuition discriminate.
Defined.

Lemma findOrCreateUser_keeps_schema_witness :
  SchemaOk signedInTwice /\ UniqueKeys signedInTwice.
Proof.
  apply findOrCreateUser_keeps_schema;
    apply findOrCreateUser_keeps_schema;
    [exact testDb_schema_ok|exact testDb_unique_keys
    |exact testDb_schema_ok|exact testDb_unique_keys].
Defined.

Lemma findOrCreateUser_returns_the_stored_row_witness :
  exists u,
    Some (setProfile "ann@example.com" (Some "Ann B."%string) 50
            {| u_id := 1; google_id := Some "g-1"%string; outlook_id := None;
               provider := "google"; u_email := "a@example.com";
               u_name := Some "Ann"%string; u_created_at := 10; u_updated_at := 10 |})
    = Some u
    /\ In u (users (db_after (findOrCreateUser (Some "g-1"%string)
                               (Some "ann@example.com"%string)
                               (Some "Ann B."%string) 50 testDb)))
    /\ hasGoogleId (Some "g-1"%string) u = true
    /\ Some "ann@example.com"%string = Some (u_email u)
    /\ u_name u = Some "Ann B."%string
    /\ u_updated_at u = 50%Z.
Proof.
  apply (@findOrCreateUser_returns_the_stored_row (Some "g-1"%string)
           (Some "ann@example.com"%string) (Some "Ann B."%string) 50 testDb).
  reflexivity.
Defined.


(** ** What a computation leaves, asks and returns *)

Lemma completions_app l l' : completions (l ++ l') = completions l + completions l'.
Proof. unfold completions. now rewrite filter_app, length_app. Qed.

Lemma modelFirst_app l l' :
  modelFirst l = true -> modelFirst l' = true -> modelFirst (l ++ l') = true.
Proof.
  intros Hl Hl'. induction l as [|ev l IH]; [exact Hl'|].
  cbn [app modelFirst] in *. destruct (isConsole ev); [now apply IH|exact Hl].
Qed.

Lemma modelFirst_console l : forallb isConsole l = true -> modelFirst l = true.
Proof.
  induction l as [|ev l IH]; [reflexivity|]. cbn.
  destruct (isConsole ev); [exact IH|discriminate].
Qed.

Lemma loopEvent_no_completion l :
  forallb loopEvent l = true -> completions l = 0.
Proof.
  induction l as [|ev l IH]; [reflexivity|]. cbn [forallb].
  intros H. apply andb_true_iff in H as [Hev Hl].
  unfold completions in *. cbn [filter].
  destruct ev; try discriminate Hev; cbn; now apply IH.
Qed.

Lemma forallb_weaken {A} (P Q : A -> bool) l :
  (forall a, P a = true -> Q a = true) ->
  forallb P l = true -> forallb Q l = true.
Proof.
  intros HPQ. induction l as [|a l IH]; [reflexivity|]. cbn.
  intros H. apply andb_true_iff in H as [Ha Hl]. now rewrite (HPQ _ Ha), IH.
Qed.

Lemma console_is_loopEvent ev : isConsole ev = true -> loopEvent ev = true.
Proof. unfold loopEvent. now intros ->. Qed.

Lemma loopEvent_is_chatEvent ev : loopEvent ev = true -> chatEvent ev = true.
Proof. unfold chatEvent. intros ->. apply orb_true_r. Qed.

Section EffectFacts.
Context {W : Type}.

Lemma events_bind {A B} (m : M W A) (k : A -> M W B) w :
  events (bind m k w)
  = events (m w) ++ match result (m w) with
                    | Ok a => events (k a (world (m w)))
                    | Throw _ => []
                    end.
Proof. unfold bind. destruct (result (m w)); cbn [events]; now rewrite ?app_nil_r. Qed.

Lemma events_try_catch {A} (m : M W A) h w :
  events (try_catch m h w)
  = events (m w) ++ match result (m w) with
                    | Ok _ => []
                    | Throw e => events (h e (world (m w)))
                    end.
Proof.
  unfold try_catch. destruct (result (m w)); cbn [events]; now rewrite ?app_nil_r.
Qed.

Lemma effect_run {A} (f : W -> Result A * W) w :
  effect f w = mkOutcome (fst (f w)) (snd (f w)) [].
Proof. unfold effect. now destruct (f w). Qed.

(** *** [leaves] *)

Lemma leaves_ret {A} P (a : A) : leaves P (@ret W A a).
Proof. intros w. reflexivity. Qed.

Lemma leaves_throw {A} P e : leaves P (@throw W A e).
Proof. intros w. reflexivity. Qed.

Lemma leaves_lift {A} P (r : Result A) : leaves P (@lift W A r).
Proof. intros w. reflexivity. Qed.

Lemma leaves_peek {A} P (f : W -> A * W) : leaves P (peek f).
Proof. intros w. now rewrite peek_run. Qed.

Lemma leaves_effect {A} P (f : W -> Result A * W) : leaves P (effect f).
Proof. intros w. now rewrite effect_run. Qed.

Lemma leaves_emit (P : Event -> bool) ev : P ev = true -> leaves P (@emit W ev).
Proof. intros H w. cbn. now rewrite H. Qed.

Lemma leaves_call {A} (P : Event -> bool) ev (f : W -> Result A * W) :
  P ev = true -> leaves P (call ev f).
Proof. intros H w. rewrite call_run. cbn. now rewrite H. Qed.

Lemma leaves_bind {A B} P (m : M W A) (k : A -> M W B) :
  leaves P m -> (forall a, leaves P (k a)) -> leaves P (bind m k).
Proof.
  intros Hm Hk w. rewrite events_bind, forallb_app, Hm.
  destruct (result (m w)); [apply Hk|reflexivity].
Qed.

Lemma leaves_try_catch {A} P (m : M W A) h :
  leaves P m -> (forall e, leaves P (h e)) -> leaves P (try_catch m h).
Proof.
  intros Hm Hh w. rewrite events_try_catch, forallb_app, Hm.
  destruct (result (m w)); [reflexivity|apply Hh].
Qed.

Lemma leaves_weaken {A} {P Q : Event -> bool} {m : M W A} :
  (forall ev, P ev = true -> Q ev = true) -> leaves P m -> leaves Q m.
Proof. intros HPQ Hm w. exact (forallb_weaken _ _ _ HPQ (Hm w)). Qed.

(** *** [asksAtMost] *)

Lemma asks_none {A} n (m : M W A) : leaves loopEvent m -> asksAtMost n m.
Proof. intros H w. rewrite (loopEvent_no_completion _ (H w)). lia. Qed.

Lemma asks_bind {A B} n (m : M W A) (k : A -> M W B) :
  leaves loopEvent m -> (forall a, asksAtMost n (k a)) -> asksAtMost n (bind m k).
Proof.
  intros Hm Hk w. rewrite events_bind, completions_app.
  rewrite (loopEvent_no_completion _ (Hm w)).
  destruct (result (m w)); [apply Hk|cbn; lia].
Qed.

Lemma asks_call_then {A B} n ev (f : W -> Result A * W) (k : A -> M W B) :
  (forall a, asksAtMost n (k a)) -> asksAtMost (S n) (bind (call ev f) k).
Proof.
  intros Hk w. rewrite events_bind, completions_app, call_run.
  cbn [events result world].
  assert (completions [ev] <= 1) by (unfold completions; cbn; destruct (isCompletion ev); cbn; lia).
  destruct (fst (f w)); [specialize (Hk a (snd (f w)))|change (completions []) with 0];
    lia.
Qed.

Lemma asks_try_catch {A} n (m : M W A) h :
  asksAtMost n m -> (forall e, leaves loopEvent (h e)) -> asksAtMost n (try_catch m h).
Proof.
  intros Hm Hh w. rewrite events_try_catch, completions_app.
  specialize (Hm w).
  destruct (result (m w)); [cbn; lia|].
  rewrite (loopEvent_no_completion _ (Hh _ _)). lia.
Qed.

(** *** [modelFirst] *)

Lemma first_console {A} (m : M W A) :
  leaves isConsole m -> forall w, modelFirst (events (m w)) = true.
Proof. intros H w. apply modelFirst_console, H. Qed.

Lemma first_bind {A B} (m : M W A) (k : A -> M W B) :
  (forall w, modelFirst (events (m w)) = true) ->
  (forall a w, modelFirst (events (k a w)) = true) ->
  forall w, modelFirst (events (bind m k w)) = true.
Proof.
  intros Hm Hk w. rewrite events_bind. apply modelFirst_app; [apply Hm|].
  destruct (result (m w)); [apply Hk|reflexivity].
Qed.

Lemma first_try_catch {A} (m : M W A) h :
  (forall w, modelFirst (events (m w)) = true) ->
  (forall e w, modelFirst (events (h e w)) = true) ->
  forall w, modelFirst (events (try_catch m h w)) = true.
Proof.
  intros Hm Hh w. rewrite events_try_catch. apply modelFirst_app; [apply Hm|].
  destruct (result (m w)); [reflexivity|apply Hh].
Qed.

Lemma first_completion {A B} req (f : W -> Result A * W) (k : A -> M W B) w :
  modelFirst (events (bind (call (Call_chat_completions_create req) f) k w)) = true.
Proof. rewrite events_bind, call_run. reflexivity. Qed.

(** *** [returns] *)

Lemma returns_ret {A} (P : A -> Prop) a : P a -> returns P (@ret W A a).
Proof. intros H w b [= <-]. exact H. Qed.

Lemma returns_throw {A} (P : A -> Prop) e : returns P (@throw W A e).
Proof. intros w b. discriminate. Qed.

Lemma returns_bind {A B} (Q : A -> Prop) (P : B -> Prop) (m : M W A) (k : A -> M W B) :
  returns Q m -> (forall a, Q a -> returns P (k a)) -> returns P (bind m k).
Proof.
  intros Hm Hk w b. unfold bind.
  destruct (result (m w)) eqn:E; cbn [result]; [|discriminate].
  intros H. exact (Hk _ (Hm _ _ E) _ _ H).
Qed.

Lemma returns_try_catch {A} (P : A -> Prop) (m : M W A) h :
  returns P m -> (forall e, returns P (h e)) -> returns P (try_catch m h).
Proof.
  intros Hm Hh w b. unfold try_catch.
  destruct (result (m w)) eqn:E; cbn [result].
  - intros H. apply (Hm w). congruence.
  - apply Hh.
Qed.

Lemma returns_anything {A} (m : M W A) : returns (fun _ => True) m.
Proof. intros w a _. exact I. Qed.

End EffectFacts.

Ltac leaves_tac :=
  repeat first
    [ assumption
    | match goal with H : forall _, leaves _ _ |- _ => apply H end
    | match goal with H : forall _ _, leaves _ _ |- _ => apply H end
    | match goal with H : forall _ _ _ _, leaves _ _ |- _ => apply H end
    | apply leaves_ret | apply leaves_throw | apply leaves_lift
    | apply leaves_peek | apply leaves_effect
    | apply leaves_emit; reflexivity
    | apply leaves_call; reflexivity
    | apply leaves_bind; [|intros ?]
    | apply leaves_try_catch; [|intros ?] ].

(** ** server.js: a chat turn as a whole *)

Section ChatAsAWhole.
Context {W : Type} (env : Env W).

Lemma insertEach_leaves items : leaves loopEvent (insertEach env items).
Proof. induction items as [|event rest IH]; cbn [insertEach]; leaves_tac. Qed.

Lemma patchEach_leaves updates : leaves loopEvent (patchEach env updates).
Proof. induction updates as [|update rest IH]; cbn [patchEach]; leaves_tac. Qed.

Lemma deleteEach_leaves eventIds : leaves loopEvent (deleteEach env eventIds).
Proof. induction eventIds as [|eventId rest IH]; cbn [deleteEach]; leaves_tac. Qed.

Lemma executeTool_leaves functionName args :
  leaves loopEvent (executeTool env functionName args).
Proof.
  pose proof insertEach_leaves. pose proof patchEach_leaves.
  pose proof deleteEach_leaves. unfold executeTool.
  destruct (functionName =? "create_calendar_event")%string; [leaves_tac; auto|].
  destruct (functionName =? "update_calendar_event")%string; [leaves_tac; auto|].
  destruct (functionName =? "delete_calendar_events")%string; leaves_tac; auto.
Qed.

Lemma dispatchOne_leaves toolCall : leaves loopEvent (dispatchOne env toolCall).
Proof.
  pose proof executeTool_leaves. unfold dispatchOne. leaves_tac; auto.
Qed.

Lemma dispatch_leaves toolCalls : leaves loopEvent (dispatch env toolCalls).
Proof.
  pose proof dispatchOne_leaves.
  induction toolCalls as [|toolCall rest IH]; cbn [dispatch]; leaves_tac; auto.
Qed.

Lemma respond_leaves k userModel history m :
  leaves chatEvent (respond env k userModel history m).
Proof.
  pose proof (fun l => leaves_weaken loopEvent_is_chatEvent (dispatch_leaves l)).
  unfold respond. destruct (tool_calls m) as [[|toolCall rest]|]; leaves_tac; auto.
Qed.

Lemma respond_asks k userModel history m :
  asksAtMost 1 (respond env k userModel history m).
Proof.
  unfold respond. destruct (tool_calls m) as [[|toolCall rest]|];
    try solve [apply asks_none; leaves_tac].
  apply asks_bind; [apply dispatch_leaves|]. intros results.
  apply asks_call_then. intros choices. apply asks_none. leaves_tac.
Qed.

Lemma respond_first k userModel history m w :
  modelFirst (events (respond env k userModel history m w)) = true
  \/ exists toolCall rest, tool_calls m = Some (toolCall :: rest).
Proof.
  unfold respond. destruct (tool_calls m) as [[|toolCall rest]|]; eauto.
Qed.

Lemma respond_returns k userModel history m :
  returns chatAnswer (respond env k userModel history m).
Proof.
  unfold respond. destruct (tool_calls m) as [[|toolCall rest]|];
    try (apply returns_ret; reflexivity).
  eapply returns_bind; [apply returns_anything|]. intros results _.
  eapply returns_bind; [apply returns_anything|]. intros choices _.
  eapply returns_bind; [apply returns_anything|]. intros final _.
  apply returns_ret. reflexivity.
Qed.

(** What [decryptApiKey] leaves when it throws: the world as it was, and
    nothing but its own console line. *)
Lemma decryptApiKey_throw a b (w : W) e :
  result (decryptApiKey env a b w) = Throw e ->
  exists log,
    decryptApiKey env a b w = mkOutcome (Throw e) w log
    /\ forallb isConsole log = true
    /\ (truthy a && truthy b = false ->
        log = [] /\ e = Error "Cannot decrypt: missing encrypted data or IV").
Proof.
  destruct (truthy a && truthy b) eqn:Hp.
  - rewrite (decryptApiKey_run env a b w Hp).
    destruct (getEncryptionKey env) as [key|e0].
    + destruct (decipher env key _ _) as [bytes|e0]; [discriminate|].
      cbn. intros [= <-]. eexists. repeat split; congruence.
    + cbn. intros [= <-]. eexists. repeat split; congruence.
  - unfold decryptApiKey. rewrite Hp. cbn. intros [= <-].
    exists []. repeat split.
Qed.

Lemma decryptApiKey_leaves a b : leaves isConsole (decryptApiKey env a b).
Proof.
  intros w. destruct (result (decryptApiKey env a b w)) as [k|e] eqn:E.
  - now rewrite (decryptApiKey_ok _ _ _ _ E).
  - destruct (decryptApiKey_throw _ _ _ E) as (log & -> & Hlog & _). exact Hlog.
Qed.

Lemma chatTry_leaves db req : leaves chatEvent (chatTry env db req).
Proof.
  pose proof (fun a b => leaves_weaken
                (fun ev H => loopEvent_is_chatEvent _ (console_is_loopEvent _ H))
                (decryptApiKey_leaves a b)).
  pose proof respond_leaves.
  unfold chatTry.
  destruct (session_userId (chat_session req)) as [[|n]|]; leaves_tac.
  destruct (getUserSettings (S n) db) as [settings|]; leaves_tac.
  destruct (negb _); leaves_tac; auto.
  destruct a as [userApiKey|response]; leaves_tac.
  destruct (req_messages req); leaves_tac; auto.
Qed.

Lemma chatTry_asks db req : asksAtMost 2 (chatTry env db req).
Proof.
  pose proof (fun a b => leaves_weaken console_is_loopEvent (decryptApiKey_leaves a b)).
  unfold chatTry.
  destruct (session_userId (chat_session req)) as [[|n]|];
    try solve [apply asks_none; leaves_tac].
  destruct (getUserSettings (S n) db) as [settings|];
    try solve [apply asks_none; leaves_tac].
  destruct (negb _); try solve [apply asks_none; leaves_tac].
  apply asks_bind; [leaves_tac; auto|]. intros [userApiKey|response];
    try solve [apply asks_none; leaves_tac].
  apply asks_bind; [leaves_tac|]. intros prompt.
  destruct (req_messages req); try solve [apply asks_none; leaves_tac].
  apply asks_call_then. intros choices.
  apply asks_bind; [leaves_tac|]. intros assistantMessage. apply respond_asks.
Qed.

Lemma chatTry_first db req w : modelFirst (events (chatTry env db req w)) = true.
Proof.
  unfold chatTry.
  destruct (session_userId (chat_session req)) as [[|n]|]; try reflexivity.
  destruct (getUserSettings (S n) db) as [settings|]; try reflexivity.
  destruct (negb _); try reflexivity.
  revert w. apply first_bind.
  - apply first_console. pose proof decryptApiKey_leaves. leaves_tac; auto.
  - intros [userApiKey|response]; [|reflexivity].
    apply first_bind; [apply first_console; leaves_tac|].
    intros prompt w. destruct (req_messages req); [|reflexivity].
    apply first_completion.
Qed.

Lemma chatTry_returns db req : returns chatAnswer (chatTry env db req).
Proof.
  unfold chatTry.
  destruct (session_userId (chat_session req)) as [[|n]|];
    try (apply returns_ret; cbn; tauto).
  destruct (getUserSettings (S n) db) as [settings|];
    try (apply returns_ret; cbn; tauto).
  destruct (negb _); try (apply returns_ret; cbn; tauto).
  apply returns_bind
    with (Q := fun d : string + Response =>
                 match d with inl _ => True | inr r => chatAnswer r end).
  - apply returns_try_catch.
    + eapply returns_bind; [apply returns_anything|]. intros k _.
      now apply returns_ret.
    + intros error. eapply returns_bind; [apply returns_anything|]. intros _ _.
      apply returns_ret. cbn. tauto.
  - intros [userApiKey|response] Hd; [|now apply returns_ret].
    eapply returns_bind; [apply returns_anything|]. intros prompt _.
    destruct (req_messages req); [|apply returns_throw].
    eapply returns_bind; [apply returns_anything|]. intros choices _.
    eapply returns_bind; [apply returns_anything|]. intros assistantMessage _.
    apply respond_returns.
Qed.

Lemma chat_handler_leaves error :
  leaves isConsole
    (emit (W := W) (ConsoleError "Error in chat:" error) ;;;
     emit (ConsoleErrorText "Error details:" (error_message error)) ;;;
     emit (ConsoleError "Error stack:" error) ;;;
     ret (chatFailed error)).
Proof. leaves_tac. Qed.

(** X12: POST /api/chat always answers: whatever the request, the stored
    settings and the remote services do, the handler returns a response
    and never throws.  The response is 200 with a message, or 401, 403 or
    500 with an error. *)
Theorem chat_always_answers db req (w : W) :
  exists r, result (chat env db req w) = Ok r /\ chatAnswer r.
Proof.
  unfold chat. destruct (session_tokens (chat_session req)).
  - destruct (result (chatTry env db req w)) as [r|e] eqn:E.
    + exists r. rewrite (try_catch_ok _ _ _ E). split; [exact E|].
      pose proof (chatTry_returns db req) as Hret. exact (Hret w r E).
    + rewrite (try_catch_throw _ _ _ E). eexists. split; [reflexivity|].
      cbn. tauto.
  - eexists. split; [reflexivity|]. cbn. tauto.
Qed.

(** X13: what a chat turn does to the outside world is bounded: it
    calls [chat.completions.create] at most twice, every other request it sends is an
    insert, a patch or a delete on the calendar 'primary' (the handler
    itself never lists calendars or events, never asks for new tokens and
    never uses the Outlook provider),
    and apart from printing on the console the first thing it does is to
    ask the model: no calendar write comes before the first completion. *)
Theorem chat_effects_are_bounded db req (w : W) :
  let evs := events (chat env db req w) in
  forallb chatEvent evs = true
  /\ completions evs <= 2
  /\ modelFirst evs = true.
Proof.
  pose proof (fun e => leaves_weaken console_is_loopEvent (chat_handler_leaves e))
    as Hloop.
  cbv zeta. unfold chat. destruct (session_tokens (chat_session req)).
  - split; [|split].
    + apply leaves_try_catch; [apply chatTry_leaves|]. intros e.
      exact (leaves_weaken loopEvent_is_chatEvent (Hloop e)).
    + apply asks_try_catch; [apply chatTry_asks|exact Hloop].
    + apply first_try_catch; [apply chatTry_first|].
      intros e. apply first_console, chat_handler_leaves.
  - repeat split. cbn. lia.
Qed.

(** *** Failures of a turn *)

Lemma chat_run_of_chatTry db req (w : W) tokens :
  session_tokens (chat_session req) = Some tokens ->
  chat env db req w =
  match result (chatTry env db req w) with
  | Ok r => chatTry env db req w
  | Throw e =>
      mkOutcome (Ok (chatFailed e)) (world (chatTry env db req w))
        (events (chatTry env db req w) ++ chatErrorLog e)
  end.
Proof.
  intros Htok. unfold chat. rewrite Htok.
  destruct (result (chatTry env db req w)) as [r|e] eqn:E.
  - apply (try_catch_ok _ _ _ E).
  - rewrite (try_catch_throw _ _ _ E). reflexivity.
Qed.

(** X14: a stored key that cannot be decrypted ends the turn with the
    fixed 500 answer 'Failed to decrypt API key': nothing is asked of the
    language model or of the calendar, the world is untouched, and the
    cause only goes to the console.  A key stored without its IV is such
    a case. *)
Theorem chat_decrypt_failure_is_fixed_500 db req settings (w : W) e :
  HasKey db req settings ->
  result (decryptApiKey env (openrouter_api_key_encrypted settings)
            (encryption_iv settings) w) = Throw e ->
  chat env db req w =
  mkOutcome (Ok decryptFailed) w
    (events (decryptApiKey env (openrouter_api_key_encrypted settings)
               (encryption_iv settings) w)
       ++ [ConsoleError "Failed to decrypt user API key:" e])
  /\ forallb isConsole (events (chat env db req w)) = true
  /\ (truthy (encryption_iv settings) = false ->
      events (chat env db req w)
      = [ConsoleError "Failed to decrypt user API key:"
           (Error "Cannot decrypt: missing encrypted data or IV")]).
Proof.
  intros (tokens & n & Htok & Huser & Hset & Hkey) Hthrow.
  destruct (decryptApiKey_throw _ _ _ Hthrow) as (log & Hrun & Hlog & Hmissing).
  assert (Htry : chatTry env db req w =
                 mkOutcome (Ok decryptFailed) w
                   (log ++ [ConsoleError "Failed to decrypt user API key:" e])).
  { unfold chatTry. rewrite Huser, Hset, Hkey. cbn [negb].
    unfold bind, try_catch, emit, ret. cbv beta. rewrite Hrun.
    cbn [result world events]. now rewrite ?app_nil_r. }
  assert (Hchat : chat env db req w =
                  mkOutcome (Ok decryptFailed) w
                    (log ++ [ConsoleError "Failed to decrypt user API key:" e])).
  { rewrite (chat_run_of_chatTry _ _ _ Htok), Htry. reflexivity. }
  rewrite Hchat, Hrun. cbn [events]. split; [reflexivity|]. split.
  - rewrite forallb_app, Hlog. reflexivity.
  - intros Hiv. destruct Hmissing as [-> ->]; [|reflexivity].
    rewrite Hiv. apply andb_false_r.
Qed.

(** Up to the first completion request a turn leaves no record. *)
Lemma chatTry_ready db req (w : W) k userModel history w1 :
  ReadyToAsk env db req w k userModel history w1 ->
  chatTry env db req w =
  (choices <- call (Call_chat_completions_create (firstRequest k userModel history))
                   (chat_completions_create env (firstRequest k userModel history)) ;;
   assistantMessage <- lift (firstChoice choices) ;;
   respond env k userModel history assistantMessage) w1.
Proof.
  intros (settings & prompt & msgs & (tokens & n & Htok & Huser & Hset & Hkey)
          & Hdec & -> & Hprompt & Hmsgs & ->).
  unfold chatTry. rewrite Huser, Hset, Hkey. cbn [negb].
  apply decryptApiKey_ok in Hdec.
  unfold bind, try_catch, effect, call, lift, ret, throw. cbv beta.
  rewrite Hdec. cbn [result world events app]. rewrite Hprompt.
  cbn [result world events app fst snd]. rewrite Hmsgs.
  destruct (chat_completions_create env _ w1) as [[choices|e] w2];
    cbn [result world events app]; [|reflexivity].
  destruct (firstChoice choices); cbn [result world events app]; reflexivity.
Qed.

(** X15: when the first completion request fails, or comes back without
    a choice, the turn ends with status 500 and the message of that error
    in the answer: unlike the provider operations, the handler passes the
    message of the original error on to the client.  Nothing was sent to
    the calendar. *)
Theorem chat_first_completion_failure_reaches_the_client
    db req (w : W) k userModel history w1 :
  ReadyToAsk env db req w k userModel history w1 ->
  let first := firstRequest k userModel history in
  let asked := chat_completions_create env first w1 in
  (forall e, fst asked = Throw e ->
     chat env db req w =
     mkOutcome (Ok (chatFailed e)) (snd asked)
       (Call_chat_completions_create first :: chatErrorLog e))
  /\ (fst asked = Ok [] ->
      chat env db req w =
      mkOutcome
        (Ok (chatFailed (Error "Cannot read properties of undefined (reading 'message')")))
        (snd asked)
        (Call_chat_completions_create first
           :: chatErrorLog (Error "Cannot read properties of undefined (reading 'message')"))).
Proof.
  intros Hready first asked.
  pose proof (chatTry_ready Hready) as Htry. fold first in Htry.
  destruct Hready as (settings & _ & _ & (tokens & _ & Htok & _) & _).
  split.
  - intros e He.
    rewrite (bind_call_throw _ _ _ _ He) in Htry.
    rewrite (chat_run_of_chatTry _ _ _ Htok), Htry. reflexivity.
  - intros He.
    rewrite (bind_call_ok _ _ _ _ He) in Htry. cbn in Htry.
    rewrite (chat_run_of_chatTry _ _ _ Htok), Htry. reflexivity.
Qed.

(** Arguments that do not parse stop the loop where it stands. *)
Lemma dispatch_unparsable tc rest e : forall pre (w : W) ms,
  result (dispatch env pre w) = Ok ms ->
  JSON_parse env (fn_arguments tc) = Throw e ->
  dispatch env (pre ++ tc :: rest) w =
  mkOutcome (Throw e) (world (dispatch env pre w)) (events (dispatch env pre w)).
Proof.
  induction pre as [|a pre IH]; intros w ms Hpre Hparse.
  - cbn [app dispatch]. unfold dispatchOne. rewrite Hparse.
    rewrite (bind_throw _ _ _ (e := e)) by reflexivity. reflexivity.
  - cbn [app dispatch] in *.
    destruct (result (dispatchOne env a w)) as [m0|e0] eqn:Ha;
      [|rewrite (bind_throw _ _ _ Ha) in Hpre; discriminate].
    rewrite (bind_ok _ _ _ Ha) in Hpre. cbn [result] in Hpre.
    destruct (result (dispatch env pre (world (dispatchOne env a w))))
      as [ms0|e1] eqn:Hrest;
      [|rewrite (bind_throw _ _ _ Hrest) in Hpre; discriminate].
    rewrite !(bind_ok _ _ _ Ha). cbn [result world events].
    rewrite (bind_ok _ _ _ Hrest). cbn [result world events ret].
    rewrite (bind_throw _ _ _ (e := e)) by (now rewrite (IH _ _ Hrest Hparse)).
    rewrite (IH _ _ Hrest Hparse). cbn [world events]. now rewrite app_nil_r.
Qed.

(** X16: tool-call arguments that are not JSON end the whole request
    with status 500 and the message of the parse error, because
    [JSON.parse] stands outside the [try] of the loop.  The tool calls
    before that one have already run, and what they wrote to the calendar
    stays; the later ones never run, and the second completion is never
    asked. *)
Theorem chat_unparsable_arguments_abort_the_turn
    db req (w : W) k userModel history m w1 pre tc rest ms e :
  FirstTurn env db req w k userModel history m w1 ->
  tool_calls m = Some (pre ++ tc :: rest) ->
  result (dispatch env pre w1) = Ok ms ->
  JSON_parse env (fn_arguments tc) = Throw e ->
  chat env db req w =
  mkOutcome (Ok (chatFailed e)) (world (dispatch env pre w1))
    (Call_chat_completions_create (firstRequest k userModel history)
       :: events (dispatch env pre w1) ++ chatErrorLog e)
  /\ completions (events (chat env db req w)) = 1.
Proof.
  intros Hft Hcalls Hpre Hparse.
  pose proof (chatTry_first_turn Hft) as Htry. cbv zeta in Htry.
  destruct Hft as (tokens & _ & _ & _ & _ & _ & _ & Htok & _).
  assert (Hr : respond env k userModel history m w1 =
               mkOutcome (Throw e) (world (dispatch env pre w1))
                 (events (dispatch env pre w1))).
  { unfold respond. rewrite Hcalls.
    destruct (pre ++ tc :: rest) as [|x l] eqn:Hl; [now destruct pre|].
    rewrite <- Hl.
    rewrite (bind_throw _ _ _ (e := e))
      by (now rewrite (dispatch_unparsable _ _ _ _ Hpre Hparse)).
    now rewrite (dispatch_unparsable _ _ _ _ Hpre Hparse). }
  rewrite Hr in Htry. cbn [result world events] in Htry.
  assert (Hchat : chat env db req w =
                  mkOutcome (Ok (chatFailed e)) (world (dispatch env pre w1))
                    (Call_chat_completions_create (firstRequest k userModel history)
                       :: events (dispatch env pre w1) ++ chatErrorLog e)).
  { rewrite (chat_run_of_chatTry _ _ _ Htok), Htry. reflexivity. }
  split; [exact Hchat|]. rewrite Hchat. cbn [events].
  change (Call_chat_completions_create (firstRequest k userModel history)
            :: events (dispatch env pre w1) ++ chatErrorLog e)
    with ([Call_chat_completions_create (firstRequest k userModel history)]
            ++ events (dispatch env pre w1) ++ chatErrorLog e).
  rewrite !completions_app, (loopEvent_no_completion _ (dispatch_leaves pre w1)).
  reflexivity.
Qed.

(** *** The loops over the events of a tool call *)

Lemma insertEach_sent items : forall (w : W) created,
  result (insertEach env items w) = Ok created ->
  events (insertEach env items w) = insertCalls items.
Proof.
  induction items as [|event rest IH]; intros w created; [reflexivity|].
  cbn [insertEach insertCalls map].
  destruct (fst (events_insert env "primary" event w)) as [data|e] eqn:Hc.
  - rewrite (bind_call_ok _ _ _ _ Hc). cbn [result events].
    destruct (result (insertEach env rest (snd (events_insert env "primary" event w))))
      as [l|e] eqn:Hrest.
    + rewrite (bind_ok _ _ _ Hrest). cbn [result events ret].
      intros _. rewrite app_nil_r. f_equal. exact (IH _ _ Hrest).
    + now rewrite (bind_throw _ _ _ Hrest).
  - now rewrite (bind_call_throw _ _ _ _ Hc).
Qed.

Lemma insertEach_failure ev rest e : forall pre (w : W) created,
  result (insertEach env pre w) = Ok created ->
  fst (events_insert env "primary" ev (world (insertEach env pre w))) = Throw e ->
  insertEach env (pre ++ ev :: rest) w =
  mkOutcome (Throw e)
    (snd (events_insert env "primary" ev (world (insertEach env pre w))))
    (insertCalls (pre ++ [ev])).
Proof.
  induction pre as [|a pre IH]; intros w created Hpre Hfail.
  - cbn [app insertEach] in *. now rewrite (bind_call_throw _ _ _ _ Hfail).
  - cbn [app insertEach insertCalls map] in *.
    destruct (fst (events_insert env "primary" a w)) as [data|e0] eqn:Hc;
      [|rewrite (bind_call_throw _ _ _ _ Hc) in Hpre; discriminate].
    rewrite (bind_call_ok _ _ _ _ Hc) in Hpre, Hfail.
    cbn [result world] in Hpre, Hfail.
    destruct (result (insertEach env pre (snd (events_insert env "primary" a w))))
      as [l|e1] eqn:Hrest;
      [|rewrite (bind_throw _ _ _ Hrest) in Hpre; discriminate].
    rewrite (bind_ok _ _ _ Hrest) in Hfail. cbn [world ret] in Hfail.
    rewrite !(bind_call_ok _ _ _ _ Hc). cbn [result world events].
    rewrite (bind_ok _ _ _ Hrest). cbn [result world events ret].
    rewrite (bind_throw _ _ _ (e := e)) by (now rewrite (IH _ _ Hrest Hfail)).
    rewrite (IH _ _ Hrest Hfail). reflexivity.
Qed.

(** X17: the inserts of one create_calendar_event call are sent one by
    one and stop at the first that fails: the events before it have been
    created and are not taken back, the events after it are never sent,
    and the tool result only says [{success: false, error}]. *)
Theorem create_stops_at_first_failure_and_keeps_earlier_events
    tc pre ev rest created e (w : W) :
  fn_name tc = "create_calendar_event"%string ->
  createItems env tc = Ok (pre ++ ev :: rest) ->
  result (insertEach env pre w) = Ok created ->
  fst (events_insert env "primary" ev (world (insertEach env pre w))) = Throw e ->
  dispatchOne env tc w =
  mkOutcome (Ok (ToolMessage (tc_id tc) (Some (toolFailure e))))
    (snd (events_insert env "primary" ev (world (insertEach env pre w))))
    (insertCalls pre ++ [Call_events_insert "primary" ev;
                         ConsoleError "Error executing create_calendar_event:" e])
  /\ events (insertEach env pre w) = insertCalls pre
  /\ List.length created = List.length pre.
Proof.
  intros Hname Hitems Hpre Hfail.
  pose proof (insertEach_failure ev rest pre w Hpre Hfail) as Hrun.
  split; [|split].
  - rewrite (dispatchOne_create_throw env tc w Hname Hitems (e := e))
      by (now rewrite Hrun).
    rewrite Hrun. cbn [world events]. unfold insertCalls.
    rewrite map_app, <- app_assoc. reflexivity.
  - exact (insertEach_sent _ _ Hpre).
  - exact (insertEach_length _ _ _ Hpre).
Qed.

Lemma indexKey_not_eventId n : (indexKey n =? "eventId")%string = false.
Proof. unfold indexKey. now destruct (Nat.to_uint n). Qed.

Lemma lookup_combine_none keys (l : list JSON) :
  Forall (fun k => (k =? "eventId")%string = false) keys ->
  lookup "eventId" (combine keys l) = None.
Proof.
  intros H. revert l. induction H as [|k keys Hk _ IH]; intros [|v l]; try reflexivity.
  cbn [combine lookup]. now rewrite Hk.
Qed.

Lemma lookup_indexed l : lookup "eventId" (indexed l) = None.
Proof.
  unfold indexed. apply lookup_combine_none.
  apply Forall_map, Forall_forall. intros n _. apply indexKey_not_eventId.
Qed.

Lemma lookup_without key fields :
  lookup key (without key fields) = None.
Proof.
  induction fields as [|[k v] fields IH]; [reflexivity|].
  unfold without in *. cbn [filter fst].
  destruct (String.eqb_spec k key) as [->|Hne]; cbn [negb]; [exact IH|].
  cbn [lookup]. destruct (String.eqb_spec k key); [congruence|exact IH].
Qed.

Lemma lookup_without_other key other fields :
  other <> key -> lookup other (without key fields) = lookup other fields.
Proof.
  intros Hne. induction fields as [|[k v] fields IH]; [reflexivity|].
  unfold without in *. cbn [filter fst lookup].
  destruct (String.eqb_spec k key) as [->|Hk]; cbn [negb lookup].
  - destruct (String.eqb_spec key other); [congruence|exact IH].
  - destruct (String.eqb_spec k other); [reflexivity|exact IH].
Qed.

Lemma splitUpdate_body update parts :
  splitUpdate update = Ok parts ->
  exists fields, snd parts = JObj fields /\ lookup "eventId" fields = None.
Proof.
  destruct update; cbn; intros [= <-]; cbn [snd]; eexists; split;
    try reflexivity; try apply lookup_indexed; try apply lookup_without.
Qed.

(** X18: every request that an update_calendar_event call sends is a
    patch on the calendar 'primary' whose body has no [eventId] key: the
    id goes into the request, not into the event.  For an update that is
    an object the id is its [eventId] property and the body keeps every
    other property as it was. *)
Theorem update_requests_never_carry_the_event_id updates (w : W) :
  Forall (fun ev => exists eventId fields,
            ev = Call_events_patch "primary" eventId (JObj fields)
            /\ lookup "eventId" fields = None)
    (events (patchEach env updates w))
  /\ (forall fields,
        exists body,
          splitUpdate (JObj fields) = Ok (lookup "eventId" fields, JObj body)
          /\ lookup "eventId" body = None
          /\ forall key, key <> "eventId"%string -> lookup key body = lookup key fields).
Proof.
  split.
  - revert w. induction updates as [|update rest IH]; intros w; [constructor|].
    cbn [patchEach].
    destruct (splitUpdate update) as [parts|e] eqn:Hsplit; [|constructor].
    destruct (splitUpdate_body _ Hsplit) as (fields & Hbody & Hno).
    rewrite bind_lift_ok, events_bind, call_run. cbn [events result world app].
    constructor; [rewrite Hbody; eauto|].
    destruct (fst (events_patch env "primary" (fst parts) (snd parts) w));
      [|constructor].
    rewrite events_bind. apply Forall_app. split; [apply IH|].
    destruct (result (patchEach env rest _)); constructor.
  - intros fields. exists (without "eventId" fields). split; [reflexivity|].
    split; [apply lookup_without|]. intros key Hne. now apply lookup_without_other.
Qed.

End ChatAsAWhole.

Lemma chat_decrypt_failure_is_fixed_500_witness :
  chat (testEnv "rate limit" plainReply) keyWithoutIv (chatRequest 2) 0
  = mkOutcome (Ok decryptFailed) 0
      [ConsoleError "Failed to decrypt user API key:"
         (Error "Cannot decrypt: missing encrypted data or IV")].
Proof.
  destruct (@chat_decrypt_failure_is_fixed_500 nat (testEnv "rate limit" plainReply)
              keyWithoutIv (chatRequest 2)
              {| s_id := 2; user_id := 2;
                 openrouter_api_key_encrypted := Some "0141"%string;
                 openrouter_model := None; encryption_iv := None;
                 s_created_at := 20; s_updated_at := 40 |}
              0 (Error "Cannot decrypt: missing encrypted data or IV"))
    as (H & _).
  - exists someTokens, 1. repeat split.
  - reflexivity.
  - rewrite H. reflexivity.
Defined.

Lemma llmDown_ready :
  ReadyToAsk llmDown testDb (chatRequest 1) 0
    "A" "anthropic/claude-3.5-sonnet"
    [SystemMessage "You are a helpful AI calendar assistant.";
     ClientMessage (JObj [("role", JStr "user"); ("content", JStr "Plan my week")])]%string
    0.
Proof.
  eexists. eexists. eexists. split.
  - exists someTokens, 0. repeat split.
  - repeat split; reflexivity.
Defined.

Lemma chat_first_completion_failure_reaches_the_client_witness :
  chat llmDown testDb (chatRequest 1) 0
  = mkOutcome (Ok (chatFailed (Error "429 Too Many Requests"))) 0
      (Call_chat_completions_create
         (firstRequest "A" "anthropic/claude-3.5-sonnet"
            [SystemMessage "You are a helpful AI calendar assistant.";
             ClientMessage (JObj [("role", JStr "user");
                                  ("content", JStr "Plan my week")])]%string)
         :: chatErrorLog (Error "429 Too Many Requests")).
Proof.
  apply (proj1 (chat_first_completion_failure_reaches_the_client llmDown_ready)).
  reflexivity.
Defined.

Lemma chat_unparsable_arguments_abort_the_turn_witness :
  result (chat (testEnv "quota exceeded" brokenSecondCall) testDb (chatRequest 1) 0)
  = Ok (chatFailed (Error "Unexpected end of JSON input"))
  /\ completions
       (events (chat (testEnv "quota exceeded" brokenSecondCall) testDb (chatRequest 1) 0))
     = 1.
Proof.
  destruct (@chat_unparsable_arguments_abort_the_turn nat
              (testEnv "quota exceeded" brokenSecondCall) testDb (chatRequest 1) 0
              "A" "anthropic/claude-3.5-sonnet" _ brokenSecondCall 0
              [{| tc_id := "call_1"; fn_name := "create_calendar_event";
                  fn_arguments := "create:standup" |}]
              {| tc_id := "call_2"; fn_name := "create_calendar_event";
                 fn_arguments := "{events:" |}
              []
              [ToolMessage "call_1" (Some (toolFailure (Error "quota exceeded")))]
              (Error "Unexpected end of JSON input")
              (testEnv_first_turn "quota exceeded" brokenSecondCall)
              eq_refl eq_refl eq_refl)%string
    as [Hrun Hasked].
  split; [rewrite Hrun; reflexivity|exact Hasked].
Defined.

Lemma create_stops_at_first_failure_and_keeps_earlier_events_witness :
  dispatchOne quotaAfterOne
    {| tc_id := "call_2"; fn_name := "create_calendar_event";
       fn_arguments := "create:retro" |}%string 0
  = mkOutcome
      (Ok (ToolMessage "call_2" (Some (toolFailure (Error "quota exceeded")))))%string
      2
      [Call_events_insert "primary" (JObj [("summary", JStr "Retro")]);
       Call_events_insert "primary" (JObj [("summary", JStr "Demo")]);
       ConsoleError "Error executing create_calendar_event:" (Error "quota exceeded")]%string.
Proof.
  apply (proj1 (@create_stops_at_first_failure_and_keeps_earlier_events nat
                  quotaAfterOne
                  {| tc_id := "call_2"; fn_name := "create_calendar_event";
                     fn_arguments := "create:retro" |}%string
                  [JObj [("summary", JStr "Retro")]]%string
                  (JObj [("summary", JStr "Demo")])%string []
                  [JObj [("summary", JStr "Retro")]]%string
                  (Error "quota exceeded") 0
                  eq_refl eq_refl eq_refl eq_refl)).
Defined.

(** ** server.js: the settings routes *)

Lemma updateUserSettings_no_row userId k m ivHex now db :
  getUserSettings userId db = None ->
  updateUserSettings userId k m ivHex now db
  = mkDbOutcome (Ok None) db [UPDATE_user_settings k m ivHex userId].
Proof.
  intros H. apply getUserSettings_none in H. unfold updateUserSettings. now rewrite H.
Qed.


Section SettingsRoutesFacts.
Context {W : Type} (env : Env W).



(** X20: POST /api/user/settings always answers, with 200, 400, 401 or
    500, and never throws.  A refusal (400, 401) uses no randomness and
    prints nothing; any answer but 200 leaves the database as it was.
    For a user without a settings row nothing is stored either, although
    the answer can be 200 'Settings saved successfully': the UPDATE
    matches no row and no error is raised. *)
Theorem saveSettings_always_answers db s apiKey modelName now (w : W) :
  exists r db',
    result (saveSettings env db s apiKey modelName now w) = Ok (r, db')
    /\ (res_status r = 200 \/ res_status r = 400 \/ res_status r = 401
        \/ res_status r = 500)
    /\ (res_status r <> 200 -> db' = db)
    /\ (res_status r = 400 \/ res_status r = 401 ->
        saveSettings env db s apiKey modelName now w = mkOutcome (Ok (r, db)) w [])
    /\ (forall userId, session_userId s = Some userId ->
        getUserSettings userId db = None -> db' = db).
Proof.
  unfold saveSettings.
  destruct (session_tokens s) as [tokens|] eqn:Htok;
    [|eexists; eexists; cbn; repeat split; auto; discriminate].
  destruct (session_userId s) as [[|n]|] eqn:Huser;
    try (eexists; eexists; cbn; repeat split; auto; discriminate).
  match goal with |- context [try_catch ?b ?h] => set (body := b); set (handler := h) end.
  destruct (negb (truthy apiKey)
            || negb (truthy (Some (String_trim env (template apiKey))))) eqn:Hk;
    [subst body; cbn; eexists; eexists; repeat split; auto; discriminate|].
  destruct (negb (truthy modelName)
            || negb (truthy (Some (String_trim env (template modelName))))) eqn:Hm;
    [subst body; cbn; eexists; eexists; repeat split; auto; discriminate|].
  subst body.
  match goal with
  | |- context [bind ?e ?k] => set (enc := e); set (cont := k)
  end.
  destruct (result (enc w)) as [x|error] eqn:Henc.
  - subst cont.
    destruct (db_result (updateUserSettings (S n) (Some (encrypted x))
                (Some (String_trim env (template modelName))) (Some (iv x)) now db))
      as [row|error] eqn:Hupd.
    + rewrite (try_catch_ok _ _ _ (a := ({| res_status := 200;
                 res_body := SuccessBody "Settings saved successfully" |},
                 db_after (updateUserSettings (S n) (Some (encrypted x))
                   (Some (String_trim env (template modelName))) (Some (iv x)) now db))))
        by (rewrite (bind_ok _ _ _ Henc); cbn [result]; rewrite Hupd; reflexivity).
      rewrite (bind_ok _ _ _ Henc). cbn [result]. rewrite Hupd. cbn [result ret].
      eexists. eexists. split; [reflexivity|]. cbn [res_status].
      repeat split; try tauto; try (intros [H|H]; discriminate H).
      intros userId [= <-] Hnone.
      now rewrite (updateUserSettings_no_row _ _ _ _ _ _ Hnone).
    + rewrite (try_catch_throw _ _ _ (e := error))
        by (rewrite (bind_ok _ _ _ Henc); cbn [result]; rewrite Hupd; reflexivity).
      subst handler. cbn [result bind emit ret].
      eexists. eexists. split; [reflexivity|]. cbn [res_status].
      repeat split; try tauto; try (intros [H|H]; discriminate H).
  - rewrite (try_catch_throw _ _ _ (e := error))
      by (now rewrite (bind_throw _ _ _ Henc)).
    subst handler. cbn [result bind emit ret].
    eexists. eexists. split; [reflexivity|]. cbn [res_status].
    repeat split; try tauto; try (intros [H|H]; discriminate H).
Qed.

Lemma deleteApiKey_run db s now (w : W) tokens n :
  session_tokens s = Some tokens ->
  session_userId s = Some (S n) ->
  deleteApiKey db s now w =
  mkOutcome
    (Ok ({| res_status := 200; res_body := SuccessBody "API key deleted successfully" |},
         db_after (deleteUserApiKey (S n) now db)))
    w [].
Proof. intros Htok Huser. unfold deleteApiKey. now rewrite Htok, Huser. Qed.

(** X21: after DELETE /api/user/settings/api-key the user has no key any
    more: the route answers 200 without printing, GET /api/user/settings
    reports [hasApiKey: false] with no preview and the model preference
    as it was (or no settings at all, for a user without a row), and
    POST /api/chat answers 403 without asking anything of the language
    model or the calendar. *)
Theorem deleteApiKey_then_chat_is_forbidden db s now (w : W) tokens n :
  session_tokens s = Some tokens ->
  session_userId s = Some (S n) ->
  let db' := db_after (deleteUserApiKey (S n) now db) in
  deleteApiKey db s now w =
  mkOutcome
    (Ok ({| res_status := 200; res_body := SuccessBody "API key deleted successfully" |},
         db'))
    w []
  /\ getSettings db' s
     = match getUserSettings (S n) db with
       | Some row => SettingsInfo false (or_else (openrouter_model row) None) None
       | None => NoSettings
       end
  /\ (forall req w',
        chat_session req = s ->
        chat env db' req w' = mkOutcome (Ok notConfigured) w' []).
Proof.
  intros Htok Huser db'.
  pose proof (getUserSettings_after_map (clearKey now) (S n) (S n) db
                (fun _ => eq_refl)) as Hget.
  rewrite Nat.eqb_refl in Hget.
  change (withSettings _ db) with db' in Hget.
  split; [exact (@deleteApiKey_run db s now w tokens n Htok Huser)|]. split.
  - unfold getSettings. rewrite Htok, Huser, Hget.
    now destruct (getUserSettings (S n) db).
  - intros req w' <-. unfold chat, chatTry. rewrite Htok, Huser, Hget.
    now destruct (getUserSettings (S n) db).
Qed.

(** ** server.js: the calendar routes and requireAuth *)

Variable parseInt : option string -> option Z.

Lemma calendarRoute_run s tokens label fixed (m : M W CalendarReply) (w : W) :
  session_tokens s = Some tokens ->
  calendarRoute s label fixed m w =
  match result (m w) with
  | Ok r => m w
  | Throw e =>
      mkOutcome (Ok (CalendarError 500 fixed)) (world (m w))
        (events (m w) ++ [ConsoleError label e])
  end.
Proof.
  intros Htok. unfold calendarRoute. rewrite Htok.
  destruct (result (m w)) as [r|e] eqn:E.
  - apply (try_catch_ok _ _ _ E).
  - rewrite (try_catch_throw _ _ _ E). reflexivity.
Qed.

(** X22: every route behind [requireAuth] refuses a session without
    tokens with 401 'Not authenticated' before it does anything: no
    remote call, no console line, no change to the database or the world.
    Such a session is what /api/auth/status reports as not authenticated,
    and what /api/auth/logout leaves. *)
Theorem requireAuth_refuses_before_anything_is_done db s now (w : W) :
  session_tokens s = None ->
  let refused := {| res_status := 401; res_body := ErrorBody "Not authenticated" None |} in
  let refusedCalendar := CalendarError 401 "Not authenticated" in
  (forall req, chat_session req = s -> chat env db req w = mkOutcome (Ok refused) w [])
  /\ (forall apiKey modelName,
        saveSettings env db s apiKey modelName now w = mkOutcome (Ok (refused, db)) w [])
  /\ deleteApiKey db s now w = mkOutcome (Ok (refused, db)) w []
  /\ getSettings db s = SettingsError 401 "Not authenticated"
  /\ calendarList env s w = mkOutcome (Ok refusedCalendar) w []
  /\ (forall timeMin timeMax maxResults calendarId,
        calendarEvents env parseInt s timeMin timeMax maxResults calendarId w
        = mkOutcome (Ok refusedCalendar) w [])
  /\ (forall eventData,
        calendarCreate env s eventData w = mkOutcome (Ok refusedCalendar) w [])
  /\ (forall eventId eventData,
        calendarUpdate env s eventId eventData w = mkOutcome (Ok refusedCalendar) w [])
  /\ (forall eventId,
        calendarDelete env s eventId w = mkOutcome (Ok refusedCalendar) w [])
  /\ authStatus s = false
  /\ (forall s', session_tokens (logout s') = None).
Proof.
  intros Hnone refused refusedCalendar.
  unfold chat, saveSettings, deleteApiKey, getSettings, calendarList, calendarEvents,
    calendarCreate, calendarUpdate, calendarDelete, calendarRoute, authStatus.
  rewrite Hnone. repeat split. intros req ->. now rewrite Hnone.
Qed.

(** X23: an authenticated calendar route never throws.  When the request
    to Google fails, it prints the error on the server console and
    answers 500 with a fixed message of the route, so nothing of the
    error reaches the client; when the request succeeds, it passes
    Google's answer on as it is. *)
Theorem calendar_routes_answer_500_with_fixed_messages s tokens (w : W) :
  session_tokens s = Some tokens ->
  (calendarList env s w =
   let '(r, w') := calendarList_list env w in
   match r with
   | Ok items => mkOutcome (Ok (CalendarsBody items)) w' [Call_calendarList_list]
   | Throw e =>
       mkOutcome (Ok (CalendarError 500 "Failed to fetch calendars")) w'
         [Call_calendarList_list; ConsoleError "Error fetching calendars:" e]
   end)
  /\ (forall timeMin timeMax maxResults calendarId,
        let t := Google.timeMinOrNow env timeMin w in
        forall tmin, result t = Ok tmin ->
        let params := eventsQuery parseInt calendarId tmin timeMax maxResults in
        calendarEvents env parseInt s timeMin timeMax maxResults calendarId w =
        let '(r, w') := events_list env params (world t) in
        match r with
        | Ok items => mkOutcome (Ok (EventsBody items)) w' [Call_events_list params]
        | Throw e =>
            mkOutcome (Ok (CalendarError 500 "Failed to fetch events")) w'
              [Call_events_list params; ConsoleError "Error fetching events:" e]
        end)
  /\ (forall eventData,
        calendarCreate env s eventData w =
        let '(r, w') := events_insert env "primary" eventData w in
        match r with
        | Ok data =>
            mkOutcome (Ok (EventBody data)) w' [Call_events_insert "primary" eventData]
        | Throw e =>
            mkOutcome (Ok (CalendarError 500 "Failed to create event")) w'
              [Call_events_insert "primary" eventData;
               ConsoleError "Error creating event:" e]
        end)
  /\ (forall eventId eventData,
        calendarUpdate env s eventId eventData w =
        let '(r, w') := events_patch env "primary" (Some (JStr eventId)) eventData w in
        match r with
        | Ok data =>
            mkOutcome (Ok (EventBody data)) w'
              [Call_events_patch "primary" (Some (JStr eventId)) eventData]
        | Throw e =>
            mkOutcome (Ok (CalendarError 500 "Failed to update event")) w'
              [Call_events_patch "primary" (Some (JStr eventId)) eventData;
               ConsoleError "Error updating event:" e]
        end)
  /\ (forall eventId,
        calendarDelete env s eventId w =
        let '(r, w') := events_delete env "primary" (Some (JStr eventId)) w in
        match r with
        | Ok _ =>
            mkOutcome (Ok DeletedBody) w'
              [Call_events_delete "primary" (Some (JStr eventId))]
        | Throw e =>
            mkOutcome (Ok (CalendarError 500 "Failed to delete event")) w'
              [Call_events_delete "primary" (Some (JStr eventId));
               ConsoleError "Error deleting event:" e]
        end).
Proof.
  intros Htok.
  split; [|split; [|split; [|split]]].
  - unfold calendarList. rewrite (@calendarRoute_run s tokens _ _ _ _ Htok).
    unfold bind. rewrite !call_run.
    destruct (calendarList_list env w) as [[items|e] w']; reflexivity.
  - intros timeMin timeMax maxResults calendarId t tmin Ht params.
    unfold calendarEvents. rewrite (@calendarRoute_run s tokens _ _ _ _ Htok).
    fold t. rewrite !(bind_ok _ _ _ Ht). cbn [result world events].
    fold params. unfold bind. rewrite !call_run.
    subst t. rewrite ?timeMinOrNow_events.
    destruct (events_list env params (world (Google.timeMinOrNow env timeMin w)))
      as [[items|e] w']; reflexivity.
  - intros eventData. unfold calendarCreate. rewrite (@calendarRoute_run s tokens _ _ _ _ Htok).
    unfold bind. rewrite !call_run.
    destruct (events_insert env "primary" eventData w) as [[data|e] w']; reflexivity.
  - intros eventId eventData. unfold calendarUpdate.
    rewrite (@calendarRoute_run s tokens _ _ _ _ Htok). unfold bind. rewrite !call_run.
    destruct (events_patch env "primary" _ eventData w) as [[data|e] w']; reflexivity.
  - intros eventId. unfold calendarDelete. rewrite (@calendarRoute_run s tokens _ _ _ _ Htok).
    unfold bind. rewrite !call_run.
    destruct (events_delete env "primary" _ w) as [[[]|e] w']; reflexivity.
Qed.

End SettingsRoutesFacts.


Lemma deleteApiKey_then_chat_is_forbidden_witness :
  getSettings (db_after (deleteUserApiKey 1 41 testDb)) (chat_session (chatRequest 1))
  = SettingsInfo false None None
  /\ chat (testEnv "rate limit" twoCreates) (db_after (deleteUserApiKey 1 41 testDb))
       (chatRequest 1) 0
     = mkOutcome (Ok notConfigured) 0 [].
Proof.
  destruct (@deleteApiKey_then_chat_is_forbidden nat (testEnv "rate limit" twoCreates)
              testDb (chat_session (chatRequest 1)) 41 0 someTokens 0 eq_refl eq_refl)
    as (_ & Hget & Hchat).
  split; [exact Hget|]. now apply Hchat.
Defined.

Lemma requireAuth_refuses_before_anything_is_done_witness :
  calendarCreate (testEnv "rate limit" plainReply)
    (logout (chat_session (chatRequest 1))) (JObj []) 0
  = mkOutcome (Ok (CalendarError 401 "Not authenticated")) 0 [].
Proof.
  destruct (@requireAuth_refuses_before_anything_is_done nat
              (testEnv "rate limit" plainReply) (fun _ => None) testDb
              (logout (chat_session (chatRequest 1))) 40 0 eq_refl)
    as (_ & _ & _ & _ & _ & _ & H & _).
  apply H.
Defined.

Lemma calendar_routes_answer_500_with_fixed_messages_witness :
  calendarCreate (testEnv "quota exceeded for a@example.com" plainReply)
    (chat_session (chatRequest 1)) (JObj [("summary", JStr "Standup")]%string) 0
  = mkOutcome (Ok (CalendarError 500 "Failed to create event")) 1
      [Call_events_insert "primary" (JObj [("summary", JStr "Standup")]%string);
       ConsoleError "Error creating event:" (Error "quota exceeded for a@example.com")].
Proof.
  exact (proj1 (proj2 (proj2
           (@calendar_routes_answer_500_with_fixed_messages nat
              (testEnv "quota exceeded for a@example.com" plainReply) (fun _ => None)
              (chat_session (chatRequest 1)) someTokens 0 eq_refl)))
           (JObj [("summary", JStr "Standup")]%string)).
Defined.

(** ** server.js: signing in *)

Lemma optStringEqb_eq a b : optStringEqb a b = true -> a = b.
Proof.
  destruct a as [x|], b as [y|]; cbn; try discriminate; [|reflexivity].
  intros H. apply String.eqb_eq in H. now subst.
Qed.

Lemma truthy_inv s : truthy s = true -> exists x, s = Some x /\ x <> ""%string.
Proof.
  destruct s as [x|]; [|discriminate]. cbn.
  destruct (String.eqb_spec x ""); [discriminate|]. eauto.
Qed.

(** What findOrCreateUser returns for a Google id and an email. *)
Lemma findOrCreateUser_some g e name now db r :
  db_result (findOrCreateUser (Some g) (Some e) name now db) = Ok r ->
  exists u,
    r = Some u
    /\ In u (users (db_after (findOrCreateUser (Some g) (Some e) name now db)))
    /\ google_id u = Some g /\ u_email u = e /\ u_updated_at u = now.
Proof.
  destruct (findOrCreateUser_cases (Some g) (Some e) name now db)
    as [(error & Hr & _)
       |[(e' & u & rest & He & Hsel & Hr & Hdb & _)
        |(g' & e' & Hg & He & _ & _ & _ & _ & Hr & Hdb & _)]];
    rewrite Hr; [discriminate| |]; intros [= <-]; rewrite Hdb;
    injection He as <-.
  - assert (Hin : In u (filter (hasGoogleId (Some g)) (users db))).
    { unfold selectUsers in Hsel. rewrite Hsel. now left. }
    apply filter_In in Hin as [Hin Hg].
    exists (setProfile e name now u). repeat split.
    + cbn [withUsers users]. unfold updatedUsers. apply in_map_iff.
      exists u. now rewrite Hg.
    + cbn. now apply optStringEqb_eq.
  - injection Hg as <-. exists (newUser g e name now db). repeat split.
    cbn [users]. apply in_or_app. right. now left.
Qed.

Section SignInFacts.
Context {W : Type} (env : Env W) (auth : GoogleAuth W).
Variable FRONTEND_URL : option string.

Lemma callback_wrong_state db s code state now (w : W) expected :
  oauthState s = Some expected ->
  expected <> ""%string ->
  state <> Some expected ->
  callback auth FRONTEND_URL db s code state now w
  = mkOutcome (Ok (AuthError 400 "Invalid state parameter", (s, db))) w
      [ConsoleErrorText "OAuth callback state mismatch" ""].
Proof.
  intros Hs Hne Hstate. unfold callback. rewrite Hs.
  assert (Hdiff : optStringEqb state (Some expected) = false).
  { destruct (optStringEqb state (Some expected)) eqn:E; [|reflexivity].
    apply optStringEqb_eq in E. congruence. }
  rewrite Hdiff. cbn [truthy].
  destruct (String.eqb_spec expected ""); [congruence|]. reflexivity.
Qed.

(** X24: the callback checks the [state] parameter against the one that
    the session holds: with another value, or none, it answers 400
    'Invalid state parameter' and does nothing else: no code is
    exchanged, the session (its stored state included) and the database
    are as before.  The check is only made when the session holds a
    state: for a session without one, the parameter is never looked at. *)
Theorem callback_checks_the_state_of_the_session db s code now (w : W) :
  (forall state expected,
     oauthState s = Some expected ->
     expected <> ""%string ->
     state <> Some expected ->
     callback auth FRONTEND_URL db s code state now w
     = mkOutcome (Ok (AuthError 400 "Invalid state parameter", (s, db))) w
         [ConsoleErrorText "OAuth callback state mismatch" ""])
  /\ (truthy (oauthState s) = false ->
      forall state state',
        callback auth FRONTEND_URL db s code state now w
        = callback auth FRONTEND_URL db s code state' now w).
Proof.
  split.
  - intros state expected. apply callback_wrong_state.
  - intros Hnone state state'. unfold callback. now rewrite Hnone.
Qed.

Lemma identified_inv i :
  identified i = true ->
  exists g e, i_googleId i = Some g /\ g <> ""%string
              /\ i_email i = Some e /\ e <> ""%string.
Proof.
  unfold identified. intros H. apply andb_true_iff in H as [Hg He].
  destruct (truthy_inv _ Hg) as (g & -> & Hgne).
  destruct (truthy_inv _ He) as (e & -> & Hene). eauto 6.
Qed.

Lemma authFailed_returns {A} (P : AuthReply * A -> Prop) error (a : A) :
  P (AuthError 500 "Authentication failed", a) ->
  returns P (authFailed (W := W) error a).
Proof.
  intros H. unfold authFailed.
  eapply returns_bind; [apply returns_anything|]. intros _ _. now apply returns_ret.
Qed.

Lemma callback_returns db s code state now :
  returns (callbackOutcome FRONTEND_URL db s now)
    (callback auth FRONTEND_URL db s code state now).
Proof.
  unfold callback.
  destruct (truthy (oauthState s) && negb (optStringEqb state (oauthState s))).
  { eapply returns_bind; [apply returns_anything|]. intros _ _.
    apply returns_ret. left. now split. }
  cbv zeta. set (cleared := {| oauthState := None; login := login s |}).
  assert (Hfail : forall db',
             users db' = users db -> user_settings db' = user_settings db ->
             callbackOutcome FRONTEND_URL db s now
               (AuthError 500 "Authentication failed", (cleared, db'))).
  { intros db' Hu Hs. right. split.
    - cbn. split; [now left|]. split; [reflexivity|]. now intros _ _ _.
    - cbn. discriminate. }
  apply returns_try_catch; [|intros error; apply authFailed_returns; now apply Hfail].
  eapply returns_bind; [apply returns_anything|]. intros [tokens|] _.
  - eapply returns_bind; [apply returns_anything|]. intros fromToken _.
    eapply returns_bind; [apply returns_anything|]. intros identity _.
    destruct (identified identity) eqn:Hid; cbn [negb].
    + destruct (identified_inv _ Hid) as (g & e & Hg & Hgne & He & Hene).
      rewrite Hg, He.
      destruct (db_result (findOrCreateUser (Some g) (Some e) (i_name identity) now db))
        as [r|error] eqn:Hr.
      * destruct (findOrCreateUser_some _ _ _ _ _ Hr)
          as (u & -> & Hin & Hgid & Hemail & Hnow).
        apply returns_ret. right. split.
        -- cbn. split; [now right|]. split; [reflexivity|]. discriminate.
        -- cbn. intros url _. exists (oauth tokens), u, g.
           repeat split; try assumption. congruence.
      * destruct (findOrCreateUser_rollback _ _ _ _ _ Hr) as [Hu Hs].
        apply authFailed_returns. now apply Hfail.
    + eapply returns_bind; [apply returns_anything|]. intros _ _.
      apply returns_ret. now apply Hfail.
  - eapply returns_bind; [apply returns_anything|]. intros _ _.
    apply returns_ret. now apply Hfail.
Qed.

(** X25: the callback always answers and never throws: with the redirect
    to the frontend, with 400 'Invalid state parameter', or with 500
    'Authentication failed', whatever went wrong; the cause only goes to
    the console.  A callback that does not redirect logs nobody in and
    leaves both tables as they were; past the state check the stored
    state is cleared, whatever happens next. *)
Theorem callback_always_answers db s code state now (w : W) :
  exists reply s' db',
    result (callback auth FRONTEND_URL db s code state now w) = Ok (reply, (s', db'))
    /\ (reply = AuthError 400 "Invalid state parameter"
        \/ reply = AuthError 500 "Authentication failed"
        \/ reply = Redirect (or_lit FRONTEND_URL "http://localhost:5173"))
    /\ (forall status error, reply = AuthError status error ->
        login s' = login s
        /\ users db' = users db /\ user_settings db' = user_settings db)
    /\ (reply <> AuthError 400 "Invalid state parameter" -> oauthState s' = None).
Proof.
  assert (Htotal : exists x, result (callback auth FRONTEND_URL db s code state now w) = Ok x).
  { unfold callback.
    destruct (truthy (oauthState s) && negb (optStringEqb state (oauthState s)));
      [eexists; reflexivity|].
    match goal with |- context [try_catch ?m ?h] => set (body := m) end.
    destruct (result (body w)) as [x|e] eqn:E.
    - exists x. now rewrite (try_catch_ok _ _ _ E).
    - rewrite (try_catch_throw _ _ _ E). eexists. reflexivity. }
  destruct Htotal as [[reply [s' db']] Hrun].
  exists reply, s', db'. split; [exact Hrun|].
  destruct (callback_returns db s code state now w Hrun)
    as [[Hreply Hsame]|[(Hr & Hstate & Hfail) _]]; cbn [fst snd] in *.
  - injection Hsame as -> ->. subst reply.
    split; [now left|]. split; [now intros _ _ _|]. intros H. now destruct H.
  - split; [tauto|]. split; [exact Hfail|]. intros _. exact Hstate.
Qed.

(** X26: when the callback redirects, somebody is logged in: the session
    holds the tokens and the id of a row of the users table, and that row
    carries a non-empty Google id and a non-empty email and was written
    by this very call.  No session is ever bound to a user without an
    identity. *)
Theorem callback_logs_in_a_stored_user db s code state now (w : W) url s' db' :
  result (callback auth FRONTEND_URL db s code state now w)
  = Ok (Redirect url, (s', db')) ->
  exists tokens u g,
    session_tokens (login s') = Some tokens
    /\ session_userId (login s') = Some (u_id u)
    /\ In u (users db')
    /\ google_id u = Some g /\ g <> ""%string /\ u_email u <> ""%string
    /\ u_updated_at u = now
    /\ authStatus (login s') = true.
Proof.
  intros Hrun.
  destruct (callback_returns db s code state now w Hrun)
    as [[Hreply _]|[_ Hin]]; [discriminate Hreply|].
  destruct (Hin url eq_refl) as (tokens & u & g & Htok & Hrest).
  exists tokens, u, g. split; [exact Htok|].
  repeat split; try apply Hrest. unfold authStatus. now rewrite Htok.
Qed.

(** X27: GET /api/auth/google and the callback work together: the state
    that the first stores in the session is 32 hexadecimal digits, so the
    check of the second is armed, and a callback that comes back with any
    other state, or with none, is refused with 400 before anything is
    exchanged. *)
Theorem authGoogle_arms_the_state_check db s code state now (w : W) :
  (forall n w0, List.length (fst (randomBytes env n w0)) = n) ->
  exists st s1 w1,
    authGoogle env s w = mkOutcome (Ok (st, s1)) w1 []
    /\ String.length st = 32
    /\ allChars isLowerHex st = true
    /\ oauthState s1 = Some st
    /\ login s1 = login s
    /\ (state <> Some st ->
        callback auth FRONTEND_URL db s1 code state now w1
        = mkOutcome (Ok (AuthError 400 "Invalid state parameter", (s1, db))) w1
            [ConsoleErrorText "OAuth callback state mismatch" ""]).
Proof.
  intros Hrand.
  set (bytes := fst (randomBytes env 16 w)).
  assert (Hlen : String.length (hex_encode bytes) = 32).
  { rewrite hex_encode_length. unfold bytes. now rewrite Hrand. }
  exists (hex_encode bytes), {| oauthState := Some (hex_encode bytes); login := login s |},
    (snd (randomBytes env 16 w)).
  split; [unfold authGoogle; now rewrite bind_peek|].
  split; [exact Hlen|]. split; [apply hex_encode_lower|].
  split; [reflexivity|]. split; [reflexivity|].
  intros Hstate. apply callback_wrong_state with (expected := hex_encode bytes);
    [reflexivity| |exact Hstate].
  intros E. rewrite E in Hlen. discriminate Hlen.
Qed.

(** ** GoogleCalendarProvider.js: the user profile *)

(** X28: [verifyIdToken] never throws: whatever goes wrong, it prints
    the error and returns null.  When it returns a profile, the name is
    never undefined (the given name or the empty string stand in), and
    the ID-token branch of the sign-in callback, which repeats this code
    inline, finds the same identity.  [getUserProfile], when the userinfo
    request fails, prints the error and throws its fixed message. *)
Theorem verifyIdToken_returns_null_on_failure idToken (w : W) :
  (exists r, result (GoogleUser.verifyIdToken auth idToken w) = Ok r
             /\ (r = None <->
                 forall p, fst (oauth2_verifyIdToken auth idToken w) <> Ok (Some p)))
  /\ (forall profile,
        result (GoogleUser.verifyIdToken auth idToken w) = Ok (Some profile) ->
        (exists name, profile_name profile = Some name)
        /\ forall tokens,
             id_token tokens = idToken -> truthy idToken = true ->
             result (identityFromIdToken auth tokens w)
             = Ok {| i_googleId := profile_id profile;
                     i_email := profile_email profile;
                     i_name := profile_name profile |})
  /\ (forall e,
        fst (userinfo_get auth w) = Throw e ->
        RethrownAs (GoogleUser.getUserProfile auth w)
          "Google Calendar: Error fetching user profile:"
          "Failed to fetch user profile from Google" e []).
Proof.
  split; [|split].
  - unfold GoogleUser.verifyIdToken, try_catch, bind. rewrite effect_run.
    cbn [result world events].
    destruct (fst (oauth2_verifyIdToken auth idToken w)) as [[p|]|e];
      cbn [result world events]; eexists; (split; [reflexivity|]).
    + split; [discriminate|]. intros H. now destruct (H p).
    + split; [|reflexivity]. intros _ p. discriminate.
    + split; [|reflexivity]. intros _ p. discriminate.
  - intros profile Hrun.
    unfold GoogleUser.verifyIdToken, try_catch, bind in Hrun.
    rewrite effect_run in Hrun. cbn [result world events] in Hrun.
    destruct (fst (oauth2_verifyIdToken auth idToken w)) as [[p|]|e] eqn:Hv;
      cbn in Hrun; try discriminate.
    injection Hrun as <-. split; [cbn; eauto|].
    intros tokens <- Htruthy. unfold identityFromIdToken, try_catch, bind.
    rewrite Htruthy, effect_run. cbn [result world events]. rewrite Hv. reflexivity.
  - intros e He. apply google_guarded_throw.
    + unfold bind. rewrite effect_run. cbn [result]. now rewrite He.
    + unfold bind. rewrite effect_run. cbn [result events]. now rewrite He.
Qed.

End SignInFacts.

(** ** ProviderFactory.js *)

(** X29: [createProvider] and [isProviderSupported] agree: a provider is
    created exactly for the types that are reported as supported, its
    [getProviderName()] is the lower-cased type and is one of
    [getSupportedProviders()]; any other type is refused with an error
    that quotes the type as it was given; a missing type makes both throw
    the same TypeError.  The Outlook provider that is created answers
    Graph requests with the access token of the tokens it was given. *)
Theorem createProvider_agrees_with_isProviderSupported
    (toLowerCase : string -> string) providerType tokens :
  (forall p,
     ProviderFactory.createProvider toLowerCase providerType tokens = Ok p ->
     ProviderFactory.isProviderSupported toLowerCase providerType = Ok true
     /\ In (providerName p) ProviderFactory.getSupportedProviders
     /\ exists t, providerType = Some t /\ providerName p = toLowerCase t)
  /\ (ProviderFactory.isProviderSupported toLowerCase providerType = Ok true ->
      exists p, ProviderFactory.createProvider toLowerCase providerType tokens = Ok p)
  /\ (ProviderFactory.isProviderSupported toLowerCase providerType = Ok false ->
      exists t, providerType = Some t
                /\ ProviderFactory.createProvider toLowerCase providerType tokens
                   = Throw (Error ("Unsupported calendar provider: " ++ t)))
  /\ (forall e,
        ProviderFactory.isProviderSupported toLowerCase providerType = Throw e ->
        ProviderFactory.createProvider toLowerCase providerType tokens = Throw e)
  /\ (forall p,
        ProviderFactory.createProvider toLowerCase providerType tokens
        = Ok (OutlookProvider p) ->
        client_token p = tk_access_token tokens
        /\ o_tokens p = outlookTokens tokens).
Proof.
  unfold ProviderFactory.createProvider, ProviderFactory.isProviderSupported,
    ProviderFactory.getSupportedProviders.
  destruct providerType as [t|]; cbn [existsb].
  - destruct (String.eqb_spec (toLowerCase t) "google") as [Hg|Hg];
      [|destruct (String.eqb_spec (toLowerCase t) "outlook") as [Ho|Ho]]; cbn [orb];
      (split; [|split; [|split; [|split]]]);
      try (intros; congruence);
      try (intros _; eexists; reflexivity);
      try (intros _; eexists; split; reflexivity).
    + intros q [= <-]. cbn. split; [reflexivity|]. split; [now left|].
      exists t. now split.
    + intros q [= <-]. cbn. split; [reflexivity|]. split; [tauto|].
      exists t. now split.
    + intros q [= <-]. now split.
  - (split; [|split; [|split; [|split]]]); try (intros; congruence).
Qed.

Lemma callback_logs_in_a_stored_user_witness :
  exists tokens u g,
    session_tokens
      (login {| oauthState := None;
                login := {| session_tokens := Some someTokens;
                            session_userId := Some 1 |} |}) = Some tokens
    /\ session_userId
         (login {| oauthState := None;
                   login := {| session_tokens := Some someTokens;
                               session_userId := Some 1 |} |}) = Some (u_id u)
    /\ In u (users (db_after (findOrCreateUser (Some "g-1"%string)
                               (Some "ann@example.com"%string)
                               (Some "Ann"%string) 50 testDb)))
    /\ google_id u = Some g /\ g <> ""%string /\ u_email u <> ""%string
    /\ u_updated_at u = 50%Z
    /\ authStatus
         (login {| oauthState := None;
                   login := {| session_tokens := Some someTokens;
                               session_userId := Some 1 |} |}) = true.
Proof.
  apply (@callback_logs_in_a_stored_user nat testAuth
           (Some "https://planner.example.com"%string) testDb signedOut
           (Some "4/abc"%string) (Some "5f2a"%string) 50 0
           "https://planner.example.com").
  reflexivity.
Defined.

Lemma authGoogle_arms_the_state_check_witness :
  exists st s1 w1,
    authGoogle (testEnv "rate limit" plainReply) signedOut 0
    = mkOutcome (Ok (st, s1)) w1 []
    /\ String.length st = 32
    /\ allChars isLowerHex st = true
    /\ oauthState s1 = Some st
    /\ login s1 = login signedOut
    /\ (Some "5f2a"%string <> Some st ->
        callback testAuth None testDb s1 (Some "4/abc"%string) (Some "5f2a"%string) 50 w1
        = mkOutcome (Ok (AuthError 400 "Invalid state parameter", (s1, testDb))) w1
            [ConsoleErrorText "OAuth callback state mismatch" ""]).
Proof.
  apply (@authGoogle_arms_the_state_check nat (testEnv "rate limit" plainReply)
           testAuth None testDb signedOut (Some "4/abc"%string) (Some "5f2a"%string) 50 0).
  intros n w0. apply repeat_length.
Defined.

(** ** Token refresh, when it goes through *)

Section RefreshFacts.
Context {W : Type} (env : Env W).

Lemma guarded_returns {A} (P : A -> Prop) label fixed (m : M W A) :
  returns P m -> returns P (Google.guarded label fixed m).
Proof.
  intros H. apply returns_try_catch; [exact H|]. intros error.
  eapply returns_bind; [apply returns_anything|]. intros _ _. apply returns_throw.
Qed.

Lemma returns_peek {A B} (P : B -> Prop) (f : W -> A * W) (k : A -> M W B) :
  (forall a, returns P (k a)) -> returns P (bind (peek f) k).
Proof. intros H w b. rewrite bind_peek. apply H. Qed.

Lemma truthy_or_else a b : truthy b = true -> truthy (or_else a b) = true.
Proof. intros H. unfold or_else. now destruct (truthy a) eqn:E. Qed.

(** What follows a call only has to be right for the answers the service
    can give. *)
Lemma returns_call_then {A B} (P : B -> Prop) ev (f : W -> Result A * W)
    (k : A -> M W B) :
  (forall a, (exists w0, fst (f w0) = Ok a) -> returns P (k a)) ->
  returns P (bind (call ev f) k).
Proof.
  intros H w b. destruct (fst (f w)) as [a|e] eqn:Hf.
  - rewrite (bind_call_ok _ _ _ _ Hf). cbn [result]. apply H. eauto.
  - now rewrite (bind_call_throw _ _ _ _ Hf).
Qed.

(** X30: whenever [refreshTokenIfNeeded] returns, with or without a
    refresh, the provider is in step with what it returns.  For Outlook
    the returned tokens are the ones the provider now holds, and its
    Graph client answers with their access token if it did so before.
    They are the tokens it held, the provider being unchanged, or they
    come from an answer of MSAL to a request that carried the old refresh
    token: the access token is that of the answer, the refresh token is
    that of the answer when it has one and the old one when it has none,
    so a refresh token that was there is never lost.  For Google the
    returned tokens are the credentials of the OAuth client, either the
    ones it held or an answer to [refreshAccessToken], while the [tokens]
    field that the constructor set is never updated. *)
Theorem refreshTokenIfNeeded_keeps_the_provider_in_step (w : W) :
  (forall p tokens p',
     result (Outlook.refreshTokenIfNeeded env p w) = Ok (tokens, p') ->
     o_tokens p' = tokens
     /\ (client_token p = o_access_token (o_tokens p) ->
         client_token p' = o_access_token tokens)
     /\ ((tokens = o_tokens p /\ p' = p)
         \/ exists response w0,
              fst (acquireTokenByRefreshToken env
                     {| scopes := ["Calendars.ReadWrite"; "User.Read"]%string;
                        req_refreshToken := o_refresh_token (o_tokens p) |} w0)
              = Ok response
              /\ o_access_token tokens = accessToken response
              /\ (truthy (refreshToken response) = true ->
                  o_refresh_token tokens = refreshToken response)
              /\ (truthy (refreshToken response) = false ->
                  o_refresh_token tokens = o_refresh_token (o_tokens p)))
     /\ (truthy (o_refresh_token (o_tokens p)) = true ->
         truthy (o_refresh_token tokens) = true))
  /\ (forall p tokens p',
        result (Google.refreshTokenIfNeeded env p w) = Ok (tokens, p') ->
        credentials p' = tokens /\ g_tokens p' = g_tokens p
        /\ ((tokens = credentials p /\ p' = p)
            \/ exists w0, fst (refreshAccessToken env w0) = Ok tokens)).
Proof.
  split.
  - intros p tokens p' Hrun.
    assert (Hret : returns
              (fun x : OutlookTokens * OutlookCalendarProvider =>
                 o_tokens (snd x) = fst x
                 /\ (client_token p = o_access_token (o_tokens p) ->
                     client_token (snd x) = o_access_token (fst x))
                 /\ ((fst x = o_tokens p /\ snd x = p)
                     \/ exists response w0,
                          fst (acquireTokenByRefreshToken env
                                 {| scopes := ["Calendars.ReadWrite"; "User.Read"]%string;
                                    req_refreshToken := o_refresh_token (o_tokens p) |}
                                 w0)
                          = Ok response
                          /\ o_access_token (fst x) = accessToken response
                          /\ (truthy (refreshToken response) = true ->
                              o_refresh_token (fst x) = refreshToken response)
                          /\ (truthy (refreshToken response) = false ->
                              o_refresh_token (fst x) = o_refresh_token (o_tokens p)))
                 /\ (truthy (o_refresh_token (o_tokens p)) = true ->
                     truthy (o_refresh_token (fst x)) = true))
              (Outlook.refreshTokenIfNeeded env p)).
    { unfold Outlook.refreshTokenIfNeeded. apply guarded_returns. cbv zeta.
      destruct (truthy_num (expires_at (o_tokens p)));
        [|apply returns_ret; cbn; tauto].
      apply returns_peek. intros now.
      destruct (_ <? _)%Z; [|apply returns_ret; cbn; tauto].
      apply returns_call_then. intros response (w0 & Hanswer).
      apply returns_peek. intros now1.
      destruct (expiresOn response) as [expires|]; [|apply returns_throw].
      apply returns_peek. intros now2. apply returns_ret. cbn [fst snd o_tokens
        client_token o_access_token o_refresh_token].
      split; [reflexivity|]. split; [reflexivity|]. split.
      - right. exists response, w0. split; [exact Hanswer|].
        split; [reflexivity|]. unfold or_else.
        split; intros Ht; now rewrite Ht.
      - apply truthy_or_else. }
    exact (Hret w _ Hrun).
  - intros p tokens p' Hrun.
    assert (Hret : returns
              (fun x : GoogleTokens * GoogleCalendarProvider =>
                 credentials (snd x) = fst x /\ g_tokens (snd x) = g_tokens p
                 /\ ((fst x = credentials p /\ snd x = p)
                     \/ exists w0, fst (refreshAccessToken env w0) = Ok (fst x)))
              (Google.refreshTokenIfNeeded env p)).
    { unfold Google.refreshTokenIfNeeded. apply guarded_returns. cbv zeta.
      destruct (truthy_num (expiry_date (credentials p)));
        [|apply returns_ret; cbn; tauto].
      apply returns_peek. intros now.
      destruct (_ <? _)%Z; [|apply returns_ret; cbn; tauto].
      apply returns_call_then. intros creds Hanswer.
      apply returns_ret. cbn. tauto. }
    exact (Hret w _ Hrun).
Qed.

End RefreshFacts.
